(** * RIFT-Hack1 healing engine: a shallow embedding and its verification

    The development follows the Python sources of the backend:

    - [Py]        the string, list and path primitives of Python the code uses;
    - [Re]        the fragment of Python's [re] the patterns of the code need;
    - [Fixer]     [agent/fixer.py]: the patch engine ([apply_fixes]);
    - [DetFixer]  [agent/deterministic_fixer.py]: [_try_fix_syntax] and
                  [_determine_correct_indent];
    - [TestRunner] [agent/test_runner.py]: [parse_pytest_output], [run_tests];
    - [Pipeline]  [agent/pipeline.py]: [run_pipeline];
    - [App]       [app.py]: the single-flight guard of [start_run];
    - [Detector]  [agent/deterministic_fixer.py]: [_normalize_path],
                  [_deduplicate_fixes], [detect_and_fix_deterministic];
    - [Indentation] the loop body of [_detect_indentation_errors];
    - [GitOps]    [agent/git_ops.py]: [make_branch_name], [create_branch],
                  [commit_and_push], [_setup_push_auth];
    - [Reader]    [agent/pipeline.py]: [read_file_contents];
    - [Disk]      [agent/fixer.py] again, where the operating system
                  resolves the paths and a write can raise;
    - [ReSem], [Spec], [Sample], [Inv], [Ledger], [Guard], [Records]: what
                  a pattern matches as a relation, the properties as the
                  specification words them, sample data, and the
                  invariants of the proofs.

    The second part proves the properties, module by module, and the third
    further properties of the code.

    Text is modelled with the 8-bit characters of [Ascii]: code points 0..255,
    classified as Python classifies them ([str.isspace], [str.isalnum]). *)

From Stdlib Require Import ZArith Ascii String List Bool Lia DecimalString.
From stdpp Require Import base list strings gmap.

Local Open Scope string_scope.
Local Open Scope Z_scope.

(** ** Python primitives *)

Module Py.

Definition LF : ascii := "010"%char.
Definition CR : ascii := "013"%char.

(** [str.isspace] on one code point below 256: U+0009..U+000D,
    U+001C..U+0020, U+0085 and U+00A0. *)
Definition isspace (c : ascii) : bool :=
  let n := nat_of_ascii c in
  ((9 <=? n) && (n <=? 13) || (28 <=? n) && (n <=? 32)
   || (n =? 133) || (n =? 160))%nat.

Definition isdigit (c : ascii) : bool :=
  let n := nat_of_ascii c in ((48 <=? n) && (n <=? 57))%nat.

(** [str.isalnum] on one code point below 256. *)
Definition isalnum (c : ascii) : bool :=
  let n := nat_of_ascii c in
  ((48 <=? n) && (n <=? 57) || (65 <=? n) && (n <=? 90)
   || (97 <=? n) && (n <=? 122)
   || (n =? 170) || (n =? 178) || (n =? 179) || (n =? 181)
   || (n =? 185) || (n =? 186) || (188 <=? n) && (n <=? 190)
   || (192 <=? n) && (n <=? 214) || (216 <=? n) && (n <=? 246)
   || (248 <=? n) && (n <=? 255))%nat.

(** [len(s)] *)
Definition len (s : string) : Z := Z.of_nat (String.length s).

(** Truth value of a string: [if s:] *)
Definition truthy (s : string) : bool := negb (String.eqb s "").

(** [s.lstrip(chars)] and [s.rstrip(chars)], the set of characters given
    as a predicate. *)
Fixpoint lstrip_by (p : ascii -> bool) (s : string) : string :=
  match s with
  | String c s' => if p c then lstrip_by p s' else s
  | EmptyString => EmptyString
  end.

Fixpoint rstrip_by (p : ascii -> bool) (s : string) : string :=
  match s with
  | EmptyString => EmptyString
  | String c s' =>
      match rstrip_by p s' with
      | EmptyString => if p c then EmptyString else String c EmptyString
      | r => String c r
      end
  end.

Definition lstrip : string -> string := lstrip_by isspace.
Definition rstrip : string -> string := rstrip_by isspace.
(** [s.strip()] *)
Definition strip (s : string) : string := rstrip (lstrip s).
(** [s.rstrip("\n")], [s.rstrip("\r")] *)
Definition rstrip_char (ch : ascii) : string -> string :=
  rstrip_by (Ascii.eqb ch).

(** [s.startswith(p)] *)
Definition startswith (p s : string) : bool := String.prefix p s.

(** [s.endswith(suf)] *)
Fixpoint endswith (suf s : string) : bool :=
  if String.eqb s suf then true
  else match s with
       | EmptyString => false
       | String _ s' => endswith suf s'
       end.

(** [sub in s] *)
Fixpoint contains (sub s : string) : bool :=
  if String.prefix sub s then true
  else match s with
       | EmptyString => false
       | String _ s' => contains sub s'
       end.

(** [s.split(sep)] for a one-character separator: never empty. *)
Fixpoint split (sep : ascii) (s : string) : list string :=
  match s with
  | EmptyString => [EmptyString]
  | String c s' =>
      if Ascii.eqb c sep then EmptyString :: split sep s'
      else match split sep s' with
           | h :: t => String c h :: t
           | [] => [String c EmptyString]
           end
  end.

(** [s.replace(a, b)] for one-character [a] and [b]. *)
Fixpoint replace (a b : ascii) (s : string) : string :=
  match s with
  | EmptyString => EmptyString
  | String c s' => String (if Ascii.eqb c a then b else c) (replace a b s')
  end.

(** [s.lower()] on code points below 256: A..Z and the Latin-1 capitals
    U+00C0..U+00DE without U+00D7. *)
Definition lower_char (c : ascii) : ascii :=
  let n := nat_of_ascii c in
  if ((65 <=? n) && (n <=? 90)
      || (192 <=? n) && (n <=? 222) && negb (n =? 215))%nat
  then ascii_of_nat (n + 32) else c.

Fixpoint lower (s : string) : string :=
  match s with
  | EmptyString => EmptyString
  | String c s' => String (lower_char c) (lower s')
  end.

(** [s[:n]] for [n >= 0] *)
Fixpoint take (n : nat) (s : string) : string :=
  match n, s with
  | S n', String c s' => String c (take n' s')
  | _, _ => EmptyString
  end.

(** [s[n:]] for [n >= 0] *)
Fixpoint drop (n : nat) (s : string) : string :=
  match n, s with
  | S n', String _ s' => drop n' s'
  | _, _ => s
  end.

(** [" " * n] *)
Fixpoint spaces (n : nat) : string :=
  match n with
  | O => EmptyString
  | S n' => String " " (spaces n')
  end.

(** ["".join(ls)] *)
Fixpoint join (ls : list string) : string :=
  match ls with
  | [] => EmptyString
  | l :: ls' => l +:+ join ls'
  end.

(** [str(n)] of an integer. *)
Definition str_of_Z (n : Z) : string := NilZero.string_of_int (Z.to_int n).

(** [s.split()]: the maximal runs of characters that are no white
    space. *)
Fixpoint split_ws (s : string) : list string :=
  match s with
  | EmptyString => []
  | String c s' =>
      if isspace c then split_ws s'
      else match s' with
           | EmptyString => [String c EmptyString]
           | String c' _ =>
               if isspace c' then String c EmptyString :: split_ws s'
               else match split_ws s' with
                    | h :: t => String c h :: t
                    | [] => [String c EmptyString]
                    end
           end
  end.

(** The outcome of a call that may raise: the value returned, or the
    text [str(e)] of the exception. *)
Inductive result (A : Type) : Type :=
| Ok (a : A)
| Raise (e : string).
Arguments Ok {A} a.
Arguments Raise {A} e.

Definition rbind {A B : Type} (r : result A) (f : A -> result B)
  : result B :=
  match r with
  | Ok a => f a
  | Raise e => Raise e
  end.

(** [c * n] for a one-character string [c] *)
Fixpoint repeat_char (c : ascii) (n : nat) : string :=
  match n with
  | O => EmptyString
  | S n' => String c (repeat_char c n')
  end.

(** [sys.int_info.default_max_str_digits]: CPython 3.11 and later, and
    the security releases of 3.7 to 3.10, refuse to convert a string of
    more digits than this. The sources do not change the limit. *)
Definition max_str_digits : nat := 4300.

(** The text of the [ValueError] for a literal of [n] digits. *)
Definition exceeds_limit (n : nat) : string :=
  "Exceeds the limit (" +:+ str_of_Z (Z.of_nat max_str_digits) +:+
  " digits) for integer string conversion: value has " +:+
  str_of_Z (Z.of_nat n) +:+
  " digits; use sys.set_int_max_str_digits() to increase the limit".

(** The value of a string of the digits 0..9, [None] on another
    character. *)
Fixpoint int_digits (acc : Z) (s : string) : option Z :=
  match s with
  | EmptyString => Some acc
  | String c s' =>
      if isdigit c
      then int_digits (10 * acc + (Z.of_nat (nat_of_ascii c) - 48)) s'
      else None
  end.

(** [int(s)] on what the callers pass, a string captured by [\d+]: the
    value of a non-empty string of digits within the limit, and a
    [ValueError] beyond the limit. The other literals [int] accepts
    (a sign, blanks, underscores) reach no call and are reported as
    invalid. *)
Definition int (s : string) : result Z :=
  if (max_str_digits <? String.length s)%nat
  then Raise (exceeds_limit (String.length s))
  else match s, int_digits 0 s with
       | String _ _, Some z => Ok z
       | _, _ =>
           Raise ("invalid literal for int() with base 10: '" +:+ s +:+ "'")
       end.

(** [os.path.join(a, b)] with POSIX separators. *)
Definition os_path_join (a b : string) : string :=
  if startswith "/" b then b
  else if String.eqb a "" || endswith "/" a then a +:+ b
  else a +:+ "/" +:+ b.

(** [range(start, stop, -1)] for [stop = -1]: the indices
    [start, start - 1, ..., 0]; empty when [start < 0]. *)
Definition range_down (start : Z) : list nat :=
  if start <? 0 then [] else rev (seq 0 (S (Z.to_nat start))).

(** [range(1, n + 1)] *)
Definition range_from_1 (n : nat) : list Z :=
  map (fun i => Z.of_nat i) (seq 1 n).

End Py.

(** ** The fragment of Python's [re] used by the sources

    A backtracking matcher in continuation-passing style, with the order of
    alternatives of Python's engine: the left alternative first, a greedy
    quantifier from the longest run down, a lazy one from the shortest up.
    Every quantifier of the sources applies to one character class and has
    no upper bound, which is what [Rep] provides. *)

Module Re.

(** A character class, as its membership test. *)
Definition cls := ascii -> bool.

Definition lit (c : ascii) : cls := Ascii.eqb c.
(** [.] under [re.DOTALL] *)
Definition any : cls := fun _ => true.
(** [.] without [re.DOTALL] *)
Definition dot : cls := fun c => negb (Ascii.eqb c Py.LF).
(** [\s], [\S], [\w], [\d] for [str] patterns *)
Definition space : cls := Py.isspace.
Definition nonspace : cls := fun c => negb (Py.isspace c).
Definition word : cls := fun c => Py.isalnum c || Ascii.eqb c "_".
Definition digit : cls := Py.isdigit.
(** [[...]] *)
Definition set (l : list cls) : cls := fun c => existsb (fun p => p c) l.

Inductive regex : Type :=
| Eps
| Chr (p : cls)                          (* one character of a class *)
| Rep (greedy : bool) (lo : nat) (p : cls) (* p{lo,} or p{lo,}? *)
| Seq (r1 r2 : regex)
| Alt (r1 r2 : regex)
| Grp (i : nat) (r : regex)              (* capturing group number i *)
| Look (r : regex)                       (* (?=r) *)
| Bol                                    (* ^ without MULTILINE *)
| Eol                                    (* $ without MULTILINE *)
| Eos.                                   (* \Z *)

Definition star (p : cls) : regex := Rep true 0 p.
Definition plus (p : cls) : regex := Rep true 1 p.
Definition lazy_star (p : cls) : regex := Rep false 0 p.

(** A literal string. *)
Fixpoint str (s : string) : regex :=
  match s with
  | EmptyString => Eps
  | String c s' => Seq (Chr (lit c)) (str s')
  end.

Fixpoint seqs (rs : list regex) : regex :=
  match rs with
  | [] => Eps
  | [r] => r
  | r :: rs' => Seq r (seqs rs')
  end.

Fixpoint alts (r : regex) (rs : list regex) : regex :=
  match rs with
  | [] => r
  | r' :: rs' => Alt r (alts r' rs')
  end.

(** The state of a match attempt: the position in the subject, the text
    from that position on, and the groups captured so far (the latest
    capture of a group first). *)
Record mstate : Type := MState {
  pos : nat;
  rest : string;
  caps : list (nat * string)
}.

Definition advance (n : nat) (st : mstate) : mstate :=
  MState (pos st + n) (Py.drop n (rest st)) (caps st).

Definition set_cap (i : nat) (text : string) (st : mstate) : mstate :=
  MState (pos st) (rest st) ((i, text) :: caps st).

Fixpoint get_cap (i : nat) (cs : list (nat * string)) : option string :=
  match cs with
  | [] => None
  | (j, t) :: cs' => if Nat.eqb i j then Some t else get_cap i cs'
  end.

(** The length of the longest prefix of [s] inside the class. *)
Fixpoint run_length (p : cls) (s : string) : nat :=
  match s with
  | String c s' => if p c then S (run_length p s') else O
  | EmptyString => O
  end.

(** The first count of [ns] after which the continuation succeeds. *)
Fixpoint try_counts (k : mstate -> option mstate) (st : mstate)
         (ns : list nat) : option mstate :=
  match ns with
  | [] => None
  | n :: ns' =>
      match k (advance n st) with
      | Some m => Some m
      | None => try_counts k st ns'
      end
  end.

(** The counts a quantifier [p{lo,}] tries on a run of [n] characters. *)
Definition counts (greedy : bool) (lo n : nat) : list nat :=
  let up := seq lo (S n - lo) in
  if greedy then rev up else up.

Fixpoint run (r : regex) (st : mstate) (k : mstate -> option mstate)
  : option mstate :=
  match r with
  | Eps => k st
  | Chr p =>
      match rest st with
      | String c _ => if p c then k (advance 1 st) else None
      | EmptyString => None
      end
  | Rep greedy lo p =>
      try_counts k st (counts greedy lo (run_length p (rest st)))
  | Seq r1 r2 => run r1 st (fun st' => run r2 st' k)
  | Alt r1 r2 =>
      match run r1 st k with
      | Some m => Some m
      | None => run r2 st k
      end
  | Grp i r =>
      run r st (fun st' =>
        k (set_cap i (Py.take (pos st' - pos st) (rest st)) st'))
  | Look r =>
      match run r st Some with
      | Some st' => k (MState (pos st) (rest st) (caps st'))
      | None => None
      end
  | Bol => if Nat.eqb (pos st) 0 then k st else None
  | Eol =>
      if String.eqb (rest st) "" || String.eqb (rest st) (String Py.LF "")
      then k st else None
  | Eos => if String.eqb (rest st) "" then k st else None
  end.

(** The end of a top-level match: with [must_advance] an empty match at
    the start of the search is refused and the engine backtracks. *)
Definition accept (must_advance : bool) (start : nat) (st : mstate)
  : option mstate :=
  if must_advance && Nat.eqb (pos st) start then None else Some st.

Definition attempt (r : regex) (must_advance : bool) (p : nat) (s : string)
  : option mstate :=
  run r (MState p s []) (accept must_advance p).

(** [re.match(r, s)]: the match anchored at position 0. *)
Definition match_ (r : regex) (s : string) : option mstate :=
  attempt r false 0 s.

(** The leftmost match starting at [p] or later; [s] is the subject
    from [p] on. *)
Fixpoint search_from (r : regex) (p : nat) (s : string) : option mstate :=
  match attempt r false p s with
  | Some m => Some m
  | None =>
      match s with
      | EmptyString => None
      | String _ s' => search_from r (S p) s'
      end
  end.

(** [re.search(r, s)] *)
Definition search (r : regex) (s : string) : option mstate :=
  search_from r 0 s.

(** [m.group(i)]: [None] when the group took no part in the match. *)
Definition group (m : mstate) (i : nat) : option string :=
  get_cap i (caps m).

(** The successive non-overlapping matches of [re.findall] and
    [re.finditer], scanning left to right. [skip] counts the characters
    still covered by the previous match. After an empty match the engine
    searches again from the same position and refuses an empty match
    there. *)
Fixpoint scan (r : regex) (skip : nat) (p : nat) (s : string)
  : list mstate :=
  match skip, s with
  | S skip', String _ s' => scan r skip' (S p) s'
  | S _, EmptyString => []
  | O, _ =>
      let next :=
        match s with
        | EmptyString => []
        | String _ s' => scan r 0 (S p) s'
        end in
      let after (m : mstate) :=
        match s with
        | EmptyString => []
        | String _ s' => scan r (pos m - p - 1) (S p) s'
        end in
      match attempt r false p s with
      | None => next
      | Some m =>
          if Nat.eqb (pos m) p then
            m :: match attempt r true p s with
                 | Some m2 => m2 :: after m2
                 | None => next
                 end
          else m :: after m
      end
  end.

(** The number of capturing groups of a pattern. *)
Fixpoint ngroups (r : regex) : nat :=
  match r with
  | Seq r1 r2 | Alt r1 r2 => Nat.max (ngroups r1) (ngroups r2)
  | Grp i r' => Nat.max i (ngroups r')
  | Look r' => ngroups r'
  | _ => O
  end.

(** The groups 1..n of a match, as [re.findall] reports them: the empty
    string for a group that took no part. *)
Definition groups (n : nat) (m : mstate) : list string :=
  map (fun i => default "" (group m i)) (seq 1 n).

(** [re.findall(r, s)] for a pattern with two groups or more: the list
    of the tuples of groups. *)
Definition findall (r : regex) (s : string) : list (list string) :=
  map (groups (ngroups r)) (scan r 0 0 s).

(** [len(re.findall(r, s))] *)
Definition count (r : regex) (s : string) : Z :=
  Z.of_nat (length (scan r 0 0 s)).

End Re.

(** ** [agent/fixer.py]: the patch engine *)

Module Fixer.

(** What a path names on disk: a regular file that decodes as UTF-8
    text, or something [open] or [readlines] raises on (a directory, a
    file that is not UTF-8), with the text of the exception. The files
    of the workspace, a fresh clone, can be written. *)
Inductive node : Type :=
| Text (content : string)
| Unreadable (err : string).

(** The files below the workspace, by path. *)
Abbreviation FS := (gmap string node).

(** A fix dict (the Patch of the data model; [fix] is a keyword here),
    with the keys the code reads and writes. [old_code] is
    [None] when the key is missing ([fix.get("old_code", "")]);
    [new_code] is [None] when the key is missing or holds [None]. The
    keys ["status"] and ["status_message"] are absent until the engine
    sets them. *)
Record patch : Type := Patch {
  file : string;
  line : Z;
  old_code : option string;
  new_code : option string;
  bug_type : string;
  description : string;
  status : option string;
  status_message : option string
}.

Definition set_status (st msg : string) (fx : patch) : patch :=
  Patch (file fx) (line fx) (old_code fx) (new_code fx) (bug_type fx)
      (description fx) (Some st) (Some msg).

(** Text mode with [newline=None] on reading: ["\r\n"] and a lone
    ["\r"] both become ["\n"]. *)
Fixpoint universal_newlines (s : string) : string :=
  match s with
  | EmptyString => EmptyString
  | String c s' =>
      if Ascii.eqb c Py.CR then
        String Py.LF
          match s' with
          | String c' s'' =>
              if Ascii.eqb c' Py.LF then universal_newlines s''
              else universal_newlines s'
          | EmptyString => EmptyString
          end
      else String c (universal_newlines s')
  end.

(** The lines of a text, each with its ["\n"]; the last one may lack it. *)
Fixpoint split_lines (s : string) : list string :=
  match s with
  | EmptyString => []
  | String c s' =>
      if Ascii.eqb c Py.LF then String c EmptyString :: split_lines s'
      else match split_lines s' with
           | [] => [String c EmptyString]
           | h :: t => String c h :: t
           end
  end.

(** [f.readlines()] of a file opened with [open(path, "r",
    encoding="utf-8")]. *)
Definition readlines (content : string) : list string :=
  split_lines (universal_newlines content).

(** [f.writelines(lines)] of a file opened with [open(path, "w",
    encoding="utf-8")], where the line separator of the platform is
    ["\n"]: the new content of the file. *)
Definition writelines (lines : list string) : string := Py.join lines.

(** [line.rstrip("\n").rstrip("\r").strip()] *)
Definition trimmed (l : string) : string :=
  Py.strip (Py.rstrip_char Py.CR (Py.rstrip_char Py.LF l)).

(** The loop over [enumerate(lines)]: the index of the first line equal
    to [old] after trimming, [None] when the loop ends with
    [found = False]. *)
Fixpoint find_line (old : string) (i : nat) (lines : list string)
  : option nat :=
  match lines with
  | [] => None
  | l :: lines' =>
      if String.eqb (trimmed l) (Py.strip old) then Some i
      else find_line old (S i) lines'
  end.

(** One pass of the loop body of [apply_fixes]: the file system and the
    fix dict after it. *)
Definition apply_fix (repo_path : string) (fs : FS) (fx : patch)   : FS * patch :=
  let file_path := Py.os_path_join repo_path (file fx) in
  match fs !! file_path with
  | None =>
      (fs, set_status "failed" ("File not found: " +:+ file fx) fx)
  | Some (Unreadable err) =>
      (* open or readlines raises: the except clause *)
      (fs, set_status "failed" err fx)
  | Some (Text content) =>
      let lines := readlines content in
      let line_idx := line fx - 1 in
      if (line_idx <? 0) || (line_idx >=? Z.of_nat (length lines)) then
        (fs, set_status "failed"
               ("Line " +:+ Py.str_of_Z (line fx) +:+
                " out of range (file has " +:+
                Py.str_of_Z (Z.of_nat (length lines)) +:+ " lines)") fx)
      else
        let old := Py.strip (default "" (old_code fx)) in
        let actual_line :=
          Py.rstrip_char Py.CR
            (Py.rstrip_char Py.LF
               (default "" (lines !! Z.to_nat line_idx))) in
        let target :=
          if Py.truthy old
             && negb (String.eqb (Py.strip old) (Py.strip actual_line))
          then find_line old 0 lines
          else Some (Z.to_nat line_idx) in
        match target with
        | None =>
            (fs, set_status "failed"
                   ("Expected '" +:+ old +:+ "' at line " +:+
                    Py.str_of_Z (line fx) +:+ ", found '" +:+
                    actual_line +:+ "'") fx)
        | Some idx =>
            let lines' :=
              match new_code fx with
              | None | Some EmptyString => delete idx lines
              | Some new =>
                  let original_newline :=
                    if Py.endswith (String Py.CR (String Py.LF ""))
                         (default "" (lines !! idx))
                    then String Py.CR (String Py.LF "")
                    else String Py.LF "" in
                  <[idx := new +:+ original_newline]> lines
              end in
            (<[file_path := Text (writelines lines')]> fs,
             set_status "applied" "Fix applied successfully" fx)
        end
  end.

(** [apply_fixes(repo_path, fixes)]: the file system after the loop and
    the list [results]. *)
Fixpoint apply_fixes (repo_path : string) (fs : FS) (fixes : list patch)
  : FS * list patch :=
  match fixes with
  | [] => (fs, [])
  | fx :: fixes' =>
      let '(fs1, fx') := apply_fix repo_path fs fx in
      let '(fs2, results) := apply_fixes repo_path fs1 fixes' in
      (fs2, fx' :: results)
  end.

(** [sum(1 for f in applied if f["status"] == st)] *)
Definition count_status (st : string) (results : list patch) : Z :=
  Z.of_nat (length (filter (fun f => status f = Some st) results)).

End Fixer.

(** ** [agent/deterministic_fixer.py]: syntax and indentation heuristics *)

Module DetFixer.
Import Re.

(** [colon_keywords]:
    [^\s*(def\s+\w+\(.*\)|class\s+\w+.*|if\s+.+|elif\s+.+|else|for\s+.+|while\s+.+|with\s+.+|try|except.*|finally)\s*$] *)
Definition colon_keywords : regex :=
  seqs [Bol; star space;
        Grp 1 (alts
          (seqs [str "def"; plus space; plus word; Chr (lit "(");
                 star dot; Chr (lit ")")])
          [seqs [str "class"; plus space; plus word; star dot];
           seqs [str "if"; plus space; plus dot];
           seqs [str "elif"; plus space; plus dot];
           str "else";
           seqs [str "for"; plus space; plus dot];
           seqs [str "while"; plus space; plus dot];
           seqs [str "with"; plus space; plus dot];
           str "try";
           seqs [str "except"; star dot];
           str "finally"]);
        star space; Eol].

(** [re.match(colon_keywords, l) and not l.rstrip().endswith(":")] *)
Definition missing_colon (l : string) : bool :=
  match match_ colon_keywords l with
  | Some _ => negb (Py.endswith ":" (Py.rstrip l))
  | None => false
  end.

(** The dict both patterns return for the line [l] at [line_no]. *)
Definition colon_fix (rel_path : string) (line_no : Z) (l descr : string)
  : Fixer.patch :=
  let old_code := Py.rstrip l in
  let new_code := old_code +:+ ":" in
  Fixer.Patch rel_path line_no (Some old_code) (Some new_code)
              "SYNTAX" descr None None.

Definition _try_fix_syntax (fpath rel_path source : string) (line_no : Z)
           (error_msg : string) : option Fixer.patch :=
  let lines := Py.split Py.LF source in
  if (line_no <? 1) || (line_no >? Z.of_nat (length lines)) then None
  else
    let line := default "" (lines !! Z.to_nat (line_no - 1)) in
    (* Pattern 1 *)
    if missing_colon line then
      Some (colon_fix rel_path line_no line
              "Add missing colon at end of statement")
    (* Pattern 2: the right operand of [or] is a non-empty literal *)
    else if Py.contains "expected ':'" (Py.lower error_msg)
            || Py.truthy "expected ':'" then
      if line_no >=? 2 then
        let prev_line := default "" (lines !! Z.to_nat (line_no - 2)) in
        if missing_colon prev_line then
          Some (colon_fix rel_path (line_no - 1) prev_line
                  "Add missing colon at end of function/class definition")
        else None
      else None
    else None.

(** [len(prev) - len(prev.lstrip())] *)
Definition indent_width (prev : string) : Z :=
  Py.len prev - Py.len (Py.lstrip prev).

(** The loop of [_determine_correct_indent] over the indices of
    [range(idx - 1, -1, -1)]; [None] is the [IndexError] of [lines[i]].
    The inner loop over the block-ending keywords only continues itself
    and changes nothing, so it has no counterpart here. *)
Fixpoint scan_back (lines : list string) (indices : list nat)
  : option string :=
  match indices with
  | [] => Some ""                       (* Top level *)
  | i :: indices' =>
      match lines !! i with
      | None => None
      | Some prev =>
          let stripped := Py.strip prev in
          if negb (Py.truthy stripped) || Py.startswith "#" stripped
          then scan_back lines indices'
          else if Py.endswith ":" stripped then
            Some (Py.spaces (Z.to_nat (indent_width prev + 4)))
          else if indent_width prev mod 4 =? 0 then
            Some (Py.spaces (Z.to_nat (indent_width prev)))
          else scan_back lines indices'
      end
  end.

Definition _determine_correct_indent (lines : list string) (idx : Z)
  : option string :=
  scan_back lines (Py.range_down (idx - 1)).

End DetFixer.

(** ** [agent/test_runner.py]: the result parser and the test run *)

Module TestRunner.
Import Re.

(** [FAILED\s+([\w/\\\.]+)::(\w+)] *)
Definition failed_pattern : regex :=
  seqs [str "FAILED"; plus space;
        Grp 1 (plus (set [word; lit "/"; lit "\"; lit "."]));
        str "::"; Grp 2 (plus word)].

(** [_{5,}\s+(\S+)\s+_{5,}(.*?)(?=_{5,}|\Z)] with [re.DOTALL] *)
Definition error_block_pattern : regex :=
  seqs [Rep true 5 (lit "_"); plus space; Grp 1 (plus nonspace);
        plus space; Rep true 5 (lit "_"); Grp 2 (lazy_star any);
        Look (Alt (Rep true 5 (lit "_")) Eos)].

(** [([\w/\\]+\.py):(\d+)] *)
Definition file_line_pattern : regex :=
  seqs [Grp 1 (Seq (plus (set [word; lit "/"; lit "\"])) (str ".py"));
        Chr (lit ":"); Grp 2 (plus digit)].

(** [ERROR\s+collecting\s+([\w/\\\.]+)\s*.*?\n(.*?)(?=\n\S|\Z)] with
    [re.DOTALL] *)
Definition collection_pattern : regex :=
  seqs [str "ERROR"; plus space; str "collecting"; plus space;
        Grp 1 (plus (set [word; lit "/"; lit "\"; lit "."]));
        star space; lazy_star any; Chr (lit Py.LF);
        Grp 2 (lazy_star any);
        Look (Alt (Seq (Chr (lit Py.LF)) (Chr nonspace)) Eos)].

(** [line\s+(\d+)] *)
Definition line_pattern : regex :=
  seqs [str "line"; plus space; Grp 1 (plus digit)].

(** One entry of [errors]. *)
Record failure : Type := Failure {
  test_name : string;
  file : string;
  line : Z;
  error_message : string
}.

(** [a, b = t] for a tuple of groups. *)
Definition unpack2 (t : list string) : Py.result (string * string) :=
  match t with
  | [a; b] => Py.Ok (a, b)
  | _ :: _ :: _ :: _ =>
      Py.Raise "too many values to unpack (expected 2)"
  | _ =>
      Py.Raise ("not enough values to unpack (expected 2, got " +:+
                Py.str_of_Z (Z.of_nat (length t)) +:+ ")")
  end.

(** [m.group(i)] used as a string; a group that took no part is the
    object [None], which has no string method. *)
Definition group_str (m : mstate) (i : nat) : Py.result string :=
  match group m i with
  | Some t => Py.Ok t
  | None => Py.Raise "'NoneType' object has no attribute 'replace'"
  end.

(** [int(m.group(i))] *)
Definition group_int (m : mstate) (i : nat) : Py.result Z :=
  match group m i with
  | Some t => Py.int t
  | None =>
      Py.Raise ("int() argument must be a string, a bytes-like object " +:+
                "or a real number, not 'NoneType'")
  end.

(** The loop over [reversed(lines)]: the last line that is not blank
    and does not start with an underscore, after stripping. *)
Fixpoint last_message (reversed_lines : list string) : string :=
  match reversed_lines with
  | [] => ""
  | l :: ls =>
      let l' := Py.strip l in
      if Py.truthy l' && negb (Py.startswith "_" l') then l'
      else last_message ls
  end.

(** The body of the loop over [error_blocks]. *)
Definition block_failure (t : list string) : Py.result failure :=
  Py.rbind (unpack2 t) (fun '(name, block) =>
    let file_line_match := search file_line_pattern block in
    Py.rbind (match file_line_match with
              | Some m => group_str m 1
              | None => Py.Ok "unknown"
              end) (fun file_path =>
    Py.rbind (match file_line_match with
              | Some m => group_int m 2
              | None => Py.Ok 0
              end) (fun line_num =>
    let lines := Py.split Py.LF (Py.strip block) in
    let error_msg := last_message (rev lines) in
    Py.Ok (Failure (Py.strip name) (Py.replace "\" "/" file_path)
                   line_num error_msg)))).

(** The body of the loop over [failed_matches]. *)
Definition summary_failure (t : list string) : Py.result failure :=
  Py.rbind (unpack2 t) (fun '(file_path, name) =>
    Py.Ok (Failure name (Py.replace "\" "/" file_path) 0
                   ("Test " +:+ name +:+ " failed"))).

(** The body of the loop over [collection_errors]. *)
Definition collection_failure (t : list string) : Py.result failure :=
  Py.rbind (unpack2 t) (fun '(file_path, error_detail) =>
    let line_match := search line_pattern error_detail in
    Py.rbind (match line_match with
              | Some m => group_int m 1
              | None => Py.Ok 0
              end) (fun line_num =>
    Py.Ok (Failure ("collection_error:" +:+ file_path)
                   (Py.replace "\" "/" file_path) line_num
                   (Py.take 200 (Py.strip error_detail))))).

(** A [for] loop that appends one entry per element and stops at the
    first exception. *)
Fixpoint for_each {A B : Type} (f : A -> Py.result B) (l : list A)
  : Py.result (list B) :=
  match l with
  | [] => Py.Ok []
  | a :: l' =>
      Py.rbind (f a) (fun b =>
      Py.rbind (for_each f l') (fun bs => Py.Ok (b :: bs)))
  end.

(** [parse_pytest_output(output, repo_path)]. The value of
    [failure_sections] is never read and [re.split] raises on no input,
    so that binding is left out. *)
Definition parse_pytest_output (output repo_path : string)
  : Py.result (list failure) :=
  let failed_matches := findall failed_pattern output in
  let error_blocks := findall error_block_pattern output in
  Py.rbind (for_each block_failure error_blocks) (fun errors =>
  Py.rbind (match errors, failed_matches with
            | [], _ :: _ => for_each summary_failure failed_matches
            | _, _ => Py.Ok errors
            end) (fun errors =>
  let collection_errors := findall collection_pattern output in
  Py.rbind (for_each collection_failure collection_errors) (fun more =>
  Py.Ok (errors ++ more)%list))).

(** [run_tests]'s result dict. *)
Record test_results : Type := TestResults {
  passed : Z;
  failed : Z;
  errors : list failure;
  raw_output : string
}.

Section RunTests.
(** The world the child processes act on, and the calls into it.
    [subprocess.run] may raise ([TimeoutExpired], [FileNotFoundError])
    and otherwise returns [stdout] and [stderr]. *)
Context {S : Type}.
Variable path_exists : string -> S -> bool.
Variable subprocess_run :
  list string -> string -> S -> Py.result (string * string) * S.

(** [run_tests(repo_path, test_command, skip_deps)] *)
Definition run_tests (repo_path test_command : string) (skip_deps : bool)
           (w : S) : Py.result test_results * S :=
  let req_path := Py.os_path_join repo_path "requirements.txt" in
  let '(installed, w1) :=
    if negb skip_deps && path_exists req_path w then
      subprocess_run ["pip"; "install"; "-r"; req_path] repo_path w
    else (Py.Ok ("", ""), w) in
  match installed with
  | Py.Raise e => (Py.Raise e, w1)
  | Py.Ok _ =>
      let cmd_parts := Py.split_ws test_command in
      let '(ran, w2) := subprocess_run cmd_parts repo_path w1 in
      match ran with
      | Py.Raise e => (Py.Raise e, w2)
      | Py.Ok (stdout, stderr) =>
          let raw := stdout +:+ String Py.LF "" +:+ stderr in
          (Py.rbind (parse_pytest_output raw repo_path) (fun errs =>
             Py.Ok (TestResults (Re.count (str "PASSED") raw)
                                (Re.count (str "FAILED") raw)
                                errs raw)),
           w2)
      end
  end.
End RunTests.

End TestRunner.

(** ** [agent/pipeline.py]: the orchestrator *)

Module Pipeline.

Definition MAX_ITERATIONS : nat := 5.

(** The dicts that cross the interfaces. *)
Record analysis : Type := Analysis {
  tree : string;
  test_files : list string;
  language : string;
  test_command : string
}.

Record fix_response : Type := FixResponse {
  fixes : list Fixer.patch;
  commit_title : string
}.

Record commit_result : Type := CommitResult {
  commit_hash : option string;
  branch : option string;
  push_success : option bool
}.

(** An entry of [result["iterations"]] (without its time stamp). *)
Record iteration : Type := Iteration {
  index : Z;
  status : string;
  passed : Z;
  failed : Z;
  errors : list TestRunner.failure;
  fixes_applied : list Fixer.patch;
  commit : option commit_result;
  is_deterministic : bool
}.

(** The dict [result] (without [time_taken]). The keys ["analysis"] and
    ["error"] are absent until the run sets them. *)
Record report : Type := Report {
  repo_url : string;
  team_name : string;
  leader_name : string;
  branch_name : string;
  iterations : list iteration;
  total_failures_detected : Z;
  total_fixes_applied : Z;
  final_status : string;
  all_fixes : list Fixer.patch;
  analysis_of : option analysis;
  error : option string
}.

(** What the run hands to its two callbacks: [emit(type, data)], kept
    with the iteration and the message of [data] (a dash outside the
    8-bit range is written as a colon), and [update_status(msg)]. *)
Inductive event : Type :=
| Emit (etype : string) (iter : option Z) (message : string)
| Status (msg : string).

Section Run.
(** The world outside the orchestrator: the files of the workspace,
    which the patch engine edits, and everything else ([E]): remotes,
    child processes, the fix provider. *)
Variable E : Type.

Record outside : Type := Outside {
  fs : Fixer.FS;
  ext : E
}.

(** The collaborators, each a call that changes the world and either
    returns or raises. The two helpers of [pipeline.py] that walk and
    read the workspace ([os.walk], [open]) are among them; the
    orchestration does not depend on what they find. Printing to the
    terminal is left out. *)
Record collaborators : Type := Collaborators {
  WORKSPACE_DIR : string;
  clone_repo : string -> string -> outside -> Py.result string * outside;
  analyze_repo : string -> outside -> Py.result analysis * outside;
  make_branch_name : string -> string -> string;
  create_branch : string -> string -> outside -> Py.result unit * outside;
  detect_and_fix_deterministic :
    string -> outside -> Py.result fix_response * outside;
  subprocess_run :
    list string -> string -> outside ->
    Py.result (string * string) * outside;
  _discover_source_files_from_errors :
    string -> list TestRunner.failure -> outside ->
    Py.result (list string) * outside;
  read_file_contents :
    string -> list string -> outside ->
    Py.result (list (string * string)) * outside;
  ask_for_fixes :
    string -> list (string * string) -> list TestRunner.failure ->
    outside -> Py.result fix_response * outside;
  commit_and_push :
    string -> string -> string -> outside ->
    Py.result commit_result * outside
}.

Variable C : collaborators.

(** The state a run threads: the world, the dict [result], the local
    [deps_installed], and two ghost fields: the number of calls of
    [run_tests] and the events handed to the callbacks, the latest
    first. The callbacks of [app.py] do not raise. *)
Record pstate : Type := PState {
  world : outside;
  result : report;
  deps_installed : bool;
  test_runs : nat;
  events : list event
}.

(** A step of the run: it returns or raises, and leaves a state. *)
Definition M (A : Type) : Type := pstate -> Py.result A * pstate.

Definition ret {A : Type} (a : A) : M A := fun s => (Py.Ok a, s).

Definition bind {A B : Type} (m : M A) (f : A -> M B) : M B :=
  fun s =>
    match m s with
    | (Py.Ok a, s') => f a s'
    | (Py.Raise e, s') => (Py.Raise e, s')
    end.

Notation "'let*' x ':=' m 'in' k" := (bind m (fun x => k))
  (at level 10, x name, m at level 100, k at level 200).
Notation "'do' m 'then' k" := (bind m (fun _ => k))
  (at level 10, m at level 100, k at level 200).

(** A call of a collaborator. *)
Definition call {A : Type} (f : outside -> Py.result A * outside) : M A :=
  fun s =>
    let '(r, w) := f (world s) in
    (r, PState w (result s) (deps_installed s) (test_runs s) (events s)).

Definition emit (etype : string) (iter : option Z) (message : string)
  : M unit :=
  fun s =>
    (Py.Ok tt,
     PState (world s) (result s) (deps_installed s) (test_runs s)
            (Emit etype iter message :: events s)).

Definition update_status (msg : string) : M unit :=
  fun s =>
    (Py.Ok tt,
     PState (world s) (result s) (deps_installed s) (test_runs s)
            (Status msg :: events s)).

(** An assignment to keys of [result]. *)
Definition update (f : report -> report) : M unit :=
  fun s =>
    (Py.Ok tt,
     PState (world s) (f (result s)) (deps_installed s) (test_runs s)
            (events s)).

Definition get_result : M report := fun s => (Py.Ok (result s), s).
Definition get_deps_installed : M bool :=
  fun s => (Py.Ok (deps_installed s), s).
Definition set_deps_installed (b : bool) : M unit :=
  fun s =>
    (Py.Ok tt, PState (world s) (result s) b (test_runs s) (events s)).

(** [apply_fixes(repo_path, fixes)] on the files of the workspace. *)
Definition apply_fixes (repo_path : string) (fixes : list Fixer.patch)
  : M (list Fixer.patch) :=
  fun s =>
    let '(fs', applied) :=
      Fixer.apply_fixes repo_path (fs (world s)) fixes in
    (Py.Ok applied,
     PState (Outside fs' (ext (world s))) (result s) (deps_installed s)
            (test_runs s) (events s)).

(** [run_tests(repo_path, test_command, skip_deps)]; the ghost counter
    counts the call. *)
Definition run_tests (repo_path test_command : string) (skip_deps : bool)
  : M TestRunner.test_results :=
  fun s =>
    let '(r, w) :=
      TestRunner.run_tests
        (fun p w => bool_decide (is_Some (fs w !! p)))
        (subprocess_run C) repo_path test_command skip_deps (world s) in
    (r, PState w (result s) (deps_installed s) (S (test_runs s))
               (events s)).

Definition set_analysis (a : analysis) (r : report) : report :=
  Report (repo_url r) (team_name r) (leader_name r) (branch_name r)
         (iterations r) (total_failures_detected r)
         (total_fixes_applied r) (final_status r) (all_fixes r)
         (Some a) (error r).

Definition set_branch_name (b : string) (r : report) : report :=
  Report (repo_url r) (team_name r) (leader_name r) b
         (iterations r) (total_failures_detected r)
         (total_fixes_applied r) (final_status r) (all_fixes r)
         (analysis_of r) (error r).

(** [result["iterations"].append(it)] *)
Definition append_iteration (it : iteration) (r : report) : report :=
  Report (repo_url r) (team_name r) (leader_name r) (branch_name r)
         (iterations r ++ [it]) (total_failures_detected r)
         (total_fixes_applied r) (final_status r) (all_fixes r)
         (analysis_of r) (error r).

(** [result["total_failures_detected"] += n] *)
Definition add_failures (n : Z) (r : report) : report :=
  Report (repo_url r) (team_name r) (leader_name r) (branch_name r)
         (iterations r) (total_failures_detected r + n)
         (total_fixes_applied r) (final_status r) (all_fixes r)
         (analysis_of r) (error r).

(** [result["total_fixes_applied"] += n] and
    [result["all_fixes"].extend(applied)] *)
Definition add_fixes (n : Z) (applied : list Fixer.patch) (r : report)
  : report :=
  Report (repo_url r) (team_name r) (leader_name r) (branch_name r)
         (iterations r) (total_failures_detected r)
         (total_fixes_applied r + n) (final_status r)
         (all_fixes r ++ applied) (analysis_of r) (error r).

Definition set_final_status (st : string) (r : report) : report :=
  Report (repo_url r) (team_name r) (leader_name r) (branch_name r)
         (iterations r) (total_failures_detected r)
         (total_fixes_applied r) st (all_fixes r)
         (analysis_of r) (error r).

Definition set_error (e : string) (r : report) : report :=
  Report (repo_url r) (team_name r) (leader_name r) (branch_name r)
         (iterations r) (total_failures_detected r)
         (total_fixes_applied r) (final_status r) (all_fixes r)
         (analysis_of r) (Some e).

(** The outcome of one pass of the loop body. *)
Inductive flow : Type := Break | Continue.

(** The commit message of an iteration:
    [if not commit_msg.startswith("[AI-AGENT]"): ...] *)
Definition tagged (title : string) : string :=
  if Py.startswith "[AI-AGENT]" title then title
  else "[AI-AGENT] " +:+ title.

(** STEP 4: the deterministic pass. *)
Definition deterministic_pass (repo_path branch : string) : M unit :=
  do update_status "Running deterministic bug detection (no LLM)..." then
  do emit "step" None "Running deterministic bug detection..." then
  let* det_result := call (detect_and_fix_deterministic C repo_path) in
  match fixes det_result with
  | [] => ret tt
  | _ :: _ =>
      do emit "fixes" (Some 0)
           ("Deterministic: " +:+
            Py.str_of_Z (Z.of_nat (length (fixes det_result))) +:+
            " fixes (no LLM needed)") then
      let* applied := apply_fixes repo_path (fixes det_result) in
      let applied_count := Fixer.count_status "applied" applied in
      do update (add_fixes applied_count applied) then
      do emit "fix_applied" (Some 0)
           ("Deterministic: Applied " +:+ Py.str_of_Z applied_count +:+
            "/" +:+ Py.str_of_Z (Z.of_nat (length applied)) +:+
            " fixes") then
      if applied_count >? 0 then
        let commit_msg := commit_title det_result in
        let* commit_result :=
          call (commit_and_push C repo_path commit_msg branch) in
        do emit "commit" (Some 0) "Committed deterministic fixes" then
        update (append_iteration
                  (Iteration 0 "DETERMINISTIC_FIX" 0 0 [] applied
                             (Some commit_result) true))
      else ret tt
  end.

(** One pass of the body of [for iteration in range(1,
    MAX_ITERATIONS + 1)]. *)
Definition iteration_body (repo_path branch : string) (an : analysis)
           (it : Z) : M flow :=
  let n := Py.str_of_Z it in
  let of_max := "/" +:+ Py.str_of_Z (Z.of_nat MAX_ITERATIONS) in
  do emit "iteration_start" (Some it)
       ("Starting iteration " +:+ n +:+ of_max) then
  do update_status
       ("Iteration " +:+ n +:+ of_max +:+ ": Running tests...") then
  do emit "step" (Some it) "Running test suite..." then
  let* skip := get_deps_installed in
  let* test_results := run_tests repo_path (test_command an) skip in
  do set_deps_installed true then
  let iter_result (st : string) (applied : list Fixer.patch)
        (c : option commit_result) :=
    Iteration it st (TestRunner.passed test_results)
              (TestRunner.failed test_results)
              (TestRunner.errors test_results) applied c false in
  do emit "test_result" (Some it) "" then
  if (TestRunner.failed test_results =? 0)
     && (Z.of_nat (length (TestRunner.errors test_results)) =? 0)
  then
    do update (append_iteration (iter_result "PASSED" [] None)) then
    do update (set_final_status "PASSED") then
    do update_status ("All tests passed on iteration " +:+ n +:+ "!") then
    do emit "all_passed" (Some it)
         ("All tests passed on iteration " +:+ n +:+ "!") then
    ret Break
  else
    do update (add_failures
                 (TestRunner.failed test_results
                  + Z.of_nat (length (TestRunner.errors test_results))))
    then
    let* files_needed :=
      call (_discover_source_files_from_errors C repo_path
              (TestRunner.errors test_results)) in
    do emit "files_needed" (Some it)
         ("Discovered " +:+
          Py.str_of_Z (Z.of_nat (length files_needed)) +:+
          " source files (no LLM needed)") then
    let* file_contents :=
      call (read_file_contents C repo_path files_needed) in
    do emit "file_contents" (Some it)
         ("Read " +:+ Py.str_of_Z (Z.of_nat (length file_contents)) +:+
          " files") then
    do update_status
         ("Iteration " +:+ n +:+
          ": Asking LLM for fixes (LOGIC/TYPE_ERROR only)...") then
    do emit "step" (Some it) "Asking LLM for code fixes..." then
    let* fix_response :=
      call (ask_for_fixes C (tree an) file_contents
              (TestRunner.errors test_results)) in
    match fixes fix_response with
    | [] =>
        do update (append_iteration (iter_result "NO_FIXES" [] None)) then
        do update (set_final_status "FAILED") then
        do update_status "No fixes could be generated. Stopping." then
        do emit "no_fixes" (Some it)
             "LLM could not generate any fixes" then
        ret Break
    | _ :: _ =>
        let count :=
          Py.str_of_Z (Z.of_nat (length (fixes fix_response))) in
        do emit "fixes" (Some it)
             ("LLM generated " +:+ count +:+ " fixes") then
        do update_status
             ("Iteration " +:+ n +:+ ": Applying " +:+ count +:+
              " fixes...") then
        do emit "step" (Some it)
             ("Applying " +:+ count +:+ " fixes...") then
        let* applied := apply_fixes repo_path (fixes fix_response) in
        let applied_count := Fixer.count_status "applied" applied in
        do update (add_fixes applied_count applied) then
        do emit "fix_applied" (Some it)
             ("Applied " +:+ Py.str_of_Z applied_count +:+ "/" +:+
              Py.str_of_Z (Z.of_nat (length applied)) +:+ " fixes") then
        if applied_count =? 0 then
          do update (append_iteration
                       (iter_result "NO_FIXES_APPLIED" applied None)) then
          do update (set_final_status "FAILED") then
          do update_status "No fixes could be applied. Stopping." then
          do emit "no_fixes_applied" (Some it)
               "No fixes could be applied to the code" then
          ret Break
        else
          do update_status
               ("Iteration " +:+ n +:+ ": Committing fixes...") then
          do emit "step" (Some it)
               "Committing and pushing changes..." then
          let commit_msg := tagged (commit_title fix_response) in
          let* commit_result :=
            call (commit_and_push C repo_path commit_msg branch) in
          do emit "commit" (Some it)
               ("Committed " +:+
                default "N/A" (commit_hash commit_result) +:+
                " and pushed to " +:+ branch) then
          do update (append_iteration
                       (iter_result "FIXED" applied
                                    (Some commit_result))) then
          do emit "iteration_complete" (Some it)
               ("Iteration " +:+ n +:+ " complete: " +:+
                Py.str_of_Z applied_count +:+
                " fixes applied. Re-testing...") then
          ret Continue
    end.

(** The [for] loop: [Break] when the body broke out of it, [Continue]
    when the range ran out (the [else] clause runs). *)
Fixpoint loop (repo_path branch : string) (an : analysis)
         (range : list Z) : M flow :=
  match range with
  | [] => ret Continue
  | it :: range' =>
      let* f := iteration_body repo_path branch an it in
      match f with
      | Break => ret Break
      | Continue => loop repo_path branch an range'
      end
  end.

(** The [else] clause of the loop. *)
Definition max_iterations_reached : M unit :=
  let* r := get_result in
  if String.eqb (final_status r) "RUNNING" then
    do update (set_final_status "MAX_ITERATIONS") then
    emit "max_iterations" None
      ("Maximum iterations (" +:+
       Py.str_of_Z (Z.of_nat MAX_ITERATIONS) +:+
       ") reached. Some errors may remain.")
  else ret tt.

(** The block under [try:]. *)
Definition try_block (url team leader : string) : M unit :=
  do update_status "Cloning repository..." then
  do emit "step" None ("Cloning " +:+ url +:+ "...") then
  let* repo_path := call (clone_repo C url (WORKSPACE_DIR C)) in
  do emit "clone" None "Repository cloned successfully" then
  do update_status "Analyzing repository structure..." then
  do emit "step" None "Analyzing repository structure..." then
  let* an := call (analyze_repo C repo_path) in
  do update (set_analysis an) then
  do emit "analysis" None "" then
  let branch := make_branch_name C team leader in
  do update (set_branch_name branch) then
  do call (create_branch C repo_path branch) then
  do emit "branch" None
       ("Created and checked out branch: " +:+ branch) then
  do deterministic_pass repo_path branch then
  let* f := loop repo_path branch an (Py.range_from_1 MAX_ITERATIONS) in
  match f with
  | Break => ret tt
  | Continue => max_iterations_reached
  end.

(** The dict [result] at the start of a run. *)
Definition initial_report (url team leader : string) : report :=
  Report url team leader "" [] 0 0 "RUNNING" [] None None.

Definition initial_state (url team leader : string) (w : outside)
  : pstate :=
  PState w (initial_report url team leader) false O [].

(** The [except Exception as e:] clause. *)
Definition except_clause (e : string) : M unit :=
  do update (set_final_status "ERROR") then
  do update (set_error e) then
  do update_status ("Error: " +:+ e) then
  emit "error" None e.

(** [run_pipeline(repo_url, team_name, leader_name, ...)] from the
    world [w]: what the call does (it returns or it raises) and the
    state it leaves; the value returned is the dict [result]. *)
Definition run_pipeline_from (url team leader : string) (w : outside)
  : Py.result report * pstate :=
  let s0 := initial_state url team leader w in
  let '(_, s1) :=
    match try_block url team leader s0 with
    | (Py.Ok _, s) => (Py.Ok tt, s)
    | (Py.Raise e, s) => except_clause e s
    end in
  let '(_, s2) := emit "done" None "" s1 in
  (Py.Ok (result s2), s2).

Definition run_pipeline (url team leader : string) (w : outside)
  : Py.result report :=
  (run_pipeline_from url team leader w).1.

End Run.

Arguments Outside {E}.
Arguments fs {E}.
Arguments ext {E}.
Arguments Collaborators {E}.
Arguments PState {E}.
Arguments world {E}.
Arguments result {E}.
Arguments deps_installed {E}.
Arguments test_runs {E}.
Arguments events {E}.
Arguments ret {E A}.
Arguments bind {E A B}.
Arguments call {E A}.
Arguments emit {E}.
Arguments update_status {E}.
Arguments update {E}.
Arguments get_result {E}.
Arguments get_deps_installed {E}.
Arguments set_deps_installed {E}.
Arguments apply_fixes {E}.
Arguments run_tests {E}.
Arguments deterministic_pass {E}.
Arguments iteration_body {E}.
Arguments loop {E}.
Arguments max_iterations_reached {E}.
Arguments try_block {E}.
Arguments initial_state {E}.
Arguments except_clause {E}.
Arguments run_pipeline_from {E}.
Arguments run_pipeline {E}.

End Pipeline.

(** ** [app.py]: the single-flight guard

    The request handlers and the background threads of the server are
    modelled as threads that take turns: a step is what a thread does
    without another thread being able to see an intermediate state, that
    is a block under [run_lock] or code that touches no shared state. *)

Module App.

(** [current_run["status"]] *)
Inductive run_status : Type := Idle | Running | Done | Error.

(** The JSON body of [POST /api/run]. *)
Record request : Type := Request {
  req_repo_url : string;
  req_team_name : string;
  req_leader_name : string
}.

(** Where a thread that handles [start_run] stands. *)
Inductive handler : Type :=
| AtCheck (rq : request)     (* before [with run_lock: if status == ...] *)
| AtStart (rq : request)     (* the check passed and the lock is released *)
| Responded (code : Z).      (* the HTTP status returned *)

(** Where a thread that runs [run_agent_background] stands. *)
Inductive worker : Type :=
| Spawned                    (* [thread.start()] done, nothing run yet *)
| MarkedRunning              (* after [current_run["status"] = "running"] *)
| InPipeline                 (* inside [run_pipeline] *)
| Finished.                  (* after [current_run["status"] = "done"] *)

Record server : Type := Server {
  status : run_status;
  handlers : list handler;
  workers : list worker;
  launched : nat               (* ghost: calls of [run_pipeline] so far *)
}.

Inductive thread : Type := H (i : nat) | W (j : nat).

(** The fields after [.strip()], checked in the order of the code. *)
Definition validate (rq : request) : option Z :=
  if negb (Py.truthy (Py.strip (req_repo_url rq))) then Some 400
  else if negb (Py.truthy (Py.strip (req_team_name rq))) then Some 400
  else if negb (Py.truthy (Py.strip (req_leader_name rq))) then Some 400
  else None.

(** One step of the handler [i] of [start_run]. *)
Definition step_handler (i : nat) (sv : server) : server :=
  match handlers sv !! i with
  | Some (AtCheck rq) =>
      (* with run_lock: if current_run["status"] == "running": 409 *)
      let h := match status sv with
               | Running => Responded 409
               | _ => AtStart rq
               end in
      Server (status sv) (<[i := h]> (handlers sv)) (workers sv)
             (launched sv)
  | Some (AtStart rq) =>
      match validate rq with
      | Some code =>
          Server (status sv) (<[i := Responded code]> (handlers sv))
                 (workers sv) (launched sv)
      | None =>
          (* thread.start(); return 202 *)
          Server (status sv) (<[i := Responded 202]> (handlers sv))
                 (workers sv ++ [Spawned]) (launched sv)
      end
  | _ => sv
  end.

(** One step of the background thread [j]. The pipeline returns its
    report and does not raise. *)
Definition step_worker (j : nat) (sv : server) : server :=
  match workers sv !! j with
  | Some Spawned =>
      (* with run_lock: current_run["status"] = "running" *)
      Server Running (handlers sv) (<[j := MarkedRunning]> (workers sv))
             (launched sv)
  | Some MarkedRunning =>
      (* broadcast_event(...); run_pipeline(...) is entered *)
      Server (status sv) (handlers sv) (<[j := InPipeline]> (workers sv))
             (S (launched sv))
  | Some InPipeline =>
      (* run_pipeline returned; with run_lock: status = "done" *)
      Server Done (handlers sv) (<[j := Finished]> (workers sv))
             (launched sv)
  | _ => sv
  end.

Definition step (t : thread) (sv : server) : server :=
  match t with
  | H i => step_handler i sv
  | W j => step_worker j sv
  end.

(** The server after the threads took their turns in the order of the
    schedule. *)
Definition run_schedule (sched : list thread) (sv : server) : server :=
  fold_left (fun sv t => step t sv) sched sv.

(** The runs in progress: the background threads that set the status to
    running and have not finished. *)
Definition is_in_progress (w : worker) : bool :=
  match w with
  | MarkedRunning | InPipeline => true
  | _ => false
  end.

Definition in_progress (sv : server) : nat :=
  length (List.filter is_in_progress (workers sv)).

(** The pipelines executing at this moment. *)
Definition is_in_pipeline (w : worker) : bool :=
  match w with
  | InPipeline => true
  | _ => false
  end.

Definition in_pipeline (sv : server) : nat :=
  length (List.filter is_in_pipeline (workers sv)).

(** An idle server that has received the requests [rqs]. *)
Definition idle_with (rqs : list request) : server :=
  Server Idle (map AtCheck rqs) [] O.

End App.

(** ** What a pattern matches, as a relation

    [steps r st st'] holds when the pattern [r] can take the matcher from
    the state [st] to the state [st']. It is what the proofs about
    captured groups use; [Re.run] is shown to stay within it. *)

Module ReSem.
Import Re.

Fixpoint steps (r : regex) (st st' : mstate) : Prop :=
  match r with
  | Eps => st' = st
  | Chr p =>
      exists c s', rest st = String c s' /\ p c = true /\ st' = advance 1 st
  | Rep _ lo p =>
      exists n : nat,
        (lo <= n)%nat /\ (n <= run_length p (rest st))%nat
        /\ st' = advance n st
  | Seq r1 r2 => exists mid, steps r1 st mid /\ steps r2 mid st'
  | Alt r1 r2 => steps r1 st st' \/ steps r2 st st'
  | Grp i r1 =>
      exists st1,
        steps r1 st st1
        /\ st' = set_cap i (Py.take (pos st1 - pos st) (rest st)) st1
  | Look r1 =>
      exists st1,
        steps r1 st st1 /\ st' = MState (pos st) (rest st) (caps st1)
  | Bol => pos st = O /\ st' = st
  | Eol =>
      (rest st = "" \/ rest st = String Py.LF "") /\ st' = st
  | Eos => rest st = "" /\ st' = st
  end.



(** Every character of the string is in the class. *)
Fixpoint all_in (p : cls) (s : string) : Prop :=
  match s with
  | EmptyString => True
  | String c s' => p c = true /\ all_in p s'
  end.

End ReSem.

(** ** The properties as the specification words them

    These definitions follow the text of the specification, not the code;
    the theorems below compare the code with them. *)

Module Spec.

(** *** Indentation inference (section 4.1, indentation scan) *)

(** A line that is neither blank nor a comment. *)
Definition is_code (l : string) : bool :=
  Py.truthy (Py.strip l) && negb (Py.startswith "#" (Py.strip l)).

(** The line ends with the block-opening terminator. *)
Definition opens_block (l : string) : bool :=
  Py.endswith ":" (Py.strip l).

(** The indent of a line: how many white-space characters stand before
    its first character that is not white space. *)
Fixpoint indent (l : string) : nat :=
  match l with
  | String c l' => if Py.isspace c then S (indent l') else O
  | EmptyString => O
  end.

(** The indent is a multiple of the unit of 4. *)
Definition conforming (l : string) : bool :=
  (indent l mod 4 =? 0)%nat.

(** A line the backward scan stops at: code that opens a block or has a
    conforming indentation. Every other line is skipped. *)
Definition trusted (l : string) : bool :=
  is_code l && (opens_block l || conforming l).

(** The indent read off the line the scan stops at: one unit more than
    the indent of a line that opens a block, the indent of any other
    line. *)
Definition indent_after (l : string) : nat :=
  if opens_block l then (indent l + 4)%nat else indent l.

(** The indentation of the line at index [idx]: read off the nearest
    trusted line before it, zero when there is none. *)
Definition inferred_indent (lines : list string) (idx : nat) : string :=
  match List.find trusted (rev (take idx lines)) with
  | Some l => Py.spaces (indent_after l)
  | None => ""
  end.

(** *** The parse-failure scan (section 4.1), as claimed *)

(** The error message is of the "expected block terminator" class. *)
Definition expected_colon (error_msg : string) : bool :=
  Py.contains "expected ':'" (Py.lower error_msg).

(** The nearest line before the 1-based [line_no] that is neither blank
    nor a comment, with its 1-based number. *)
Fixpoint previous_code_line (lines : list string) (n : nat)
  : option (Z * string) :=
  match n with
  | O => None
  | S n' =>
      match lines !! n' with
      | Some l =>
          if is_code l then Some (Z.of_nat n' + 1, l)
          else previous_code_line lines n'
      | None => previous_code_line lines n'
      end
  end.

(** The scan as the specification describes it: the offending line
    first; the previous line of code only for the "expected block
    terminator" class; no patch otherwise. *)
Definition claimed_try_fix_syntax (rel_path source : string) (line_no : Z)
           (error_msg : string) : option Fixer.patch :=
  let lines := Py.split Py.LF source in
  if (line_no <? 1) || (line_no >? Z.of_nat (length lines)) then None
  else
    let line := default "" (lines !! Z.to_nat (line_no - 1)) in
    if DetFixer.missing_colon line then
      Some (DetFixer.colon_fix rel_path line_no line
              "Add missing colon at end of statement")
    else if expected_colon error_msg then
      match previous_code_line lines (Z.to_nat (line_no - 1)) with
      | Some (n, prev) =>
          if DetFixer.missing_colon prev then
            Some (DetFixer.colon_fix rel_path n prev
                    "Add missing colon at end of function/class definition")
          else None
      | None => None
      end
    else None.

(** *** Scenario C (section 8), as claimed *)

Definition scenario_c_line : string := "FAILED tests/test_math.py::test_add".

Definition scenario_c_record : TestRunner.failure :=
  TestRunner.Failure "test_add" "tests/test_math.py" 0
                     "Test test_add failed".



End Spec.

(** ** Sample data for the worked instances *)

Module Sample.
Import Fixer.

Definition nl : string := String Py.LF "".

(** A workspace with one source file of three lines. *)
Definition app_py : string :=
  "import os" +:+ nl +:+ "x = 1" +:+ nl +:+ "y = 2" +:+ nl.

Definition workspace : FS := {[ "repo/app.py" := Text app_py ]}.

(** A replacement whose old text is on no line of the file. *)
Definition stale_fix : patch :=
  Patch "app.py" 2 (Some "z = 3") (Some "z = 4") "LOGIC" "Fix z" None None.

(** A deletion aimed at line 1 whose old text is on line 3. *)
Definition moved_deletion : patch :=
  Patch "app.py" 1 (Some "  y = 2 ") (Some "") "LINTING"
        "Remove unused line" None None.

(** A replacement that names no old text. *)
Definition blind_fix : patch :=
  Patch "app.py" 2 None (Some "x = 10") "LOGIC" "Fix x" None None.

(** Sources for the parse-failure scan: an unterminated definition, an
    unterminated loop above the reported line, and an unterminated
    definition two lines above the reported line. *)
Definition def_source : string := "def f(x)" +:+ nl +:+ "    return x".
Definition loop_source : string := "while True" +:+ nl +:+ "    x = 1 +".
Definition gap_source : string :=
  "def f(x)" +:+ nl +:+ nl +:+ "    return x".

(** Lines with a nested block and two badly indented statements. *)
Definition indented_lines : list string :=
  ["def f():" +:+ nl; "    if x:" +:+ nl; "      y = 1" +:+ nl;
   "   # note" +:+ nl; "  z = 2" +:+ nl].

(** Test outputs: two failures in the summary, and a run that prints
    the short summary only. *)
Definition two_failures : string :=
  "FAILED tests/test_math.py::test_add" +:+ nl +:+
  "FAILED tests/test_math.py::test_sub".

Definition short_summary : string :=
  "tests/test_math.py::test_add FAILED                    [100%]" +:+ nl
  +:+ "=========== short test summary info ===========" +:+ nl
  +:+ "FAILED tests/test_math.py::test_add - assert 3 == 4" +:+ nl
  +:+ "============== 1 failed in 0.02s ==============" +:+ nl.



(** A failure block whose line number has one digit more than [int]
    converts. *)
Definition long_number_output : string :=
  "_____ test_x _____" +:+ nl +:+ "tests/test_x.py:" +:+
  Py.repeat_char "1" 4301 +:+ ": AssertionError" +:+ nl.

(** Collaborators for worked runs. The state outside the files counts
    the commands run so far. Nothing is cloned or committed for real:
    every such call succeeds at once. The test command reports one
    failure while fewer than [healthy] commands were run and raises a
    time-out afterwards; the provider always proposes [proposal]. *)
Definition timed_out : string :=
  "Command '['pytest', '-v']' timed out after 300 seconds".

Definition staged (healthy : nat) (proposal : list patch)
  : Pipeline.collaborators nat :=
  Pipeline.Collaborators
    "workspace"
    (fun _ _ w => (Py.Ok "repo", w))
    (fun _ w =>
       (Py.Ok (Pipeline.Analysis "app.py" ["tests/test_app.py"] "python"
                                 "pytest -v"), w))
    (fun _ _ => "TEAM_LEADER_AI_Fix")
    (fun _ _ w => (Py.Ok tt, w))
    (fun _ w =>
       (Py.Ok (Pipeline.FixResponse [] "[AI-AGENT] Fix errors"), w))
    (fun _ _ w =>
       let w' := Pipeline.Outside (Pipeline.fs w) (S (Pipeline.ext w)) in
       if (Pipeline.ext w <? healthy)%nat
       then (Py.Ok ("FAILED tests/test_app.py::test_x", ""), w')
       else (Py.Raise timed_out, w'))
    (fun _ _ w => (Py.Ok ["app.py"], w))
    (fun _ _ w => (Py.Ok [("app.py", app_py)], w))
    (fun _ _ _ w => (Py.Ok (Pipeline.FixResponse proposal "Fix x"), w))
    (fun _ _ _ w =>
       (Py.Ok (Pipeline.CommitResult (Some "abc123")
                                     (Some "TEAM_LEADER_AI_Fix")
                                     (Some true)), w)).

Definition start : Pipeline.outside nat := Pipeline.Outside workspace O.

(** A well-formed start request. *)
Definition start_request : App.request :=
  App.Request "https://github.com/team/project" "Team" "Leader".

End Sample.

(** ** [agent/deterministic_fixer.py]: deduplication of the proposals *)

Module Detector.
Import Fixer.

(** [_normalize_path(p)] *)
Definition _normalize_path (p : string) : string :=
  let p := Py.replace "\" "/" p in
  if Py.startswith "./" p then Py.drop 2 p else p.

(** [fix["file"] = f] *)
Definition set_file (f : string) (fx : patch) : patch :=
  Patch f (line fx) (old_code fx) (new_code fx) (bug_type fx)
        (description fx) (status fx) (status_message fx).

(** The key [(fix["file"], fix["line"])] of a fix. *)
Definition key (fx : patch) : string * Z := (file fx, line fx).

(** The loop of [_deduplicate_fixes] from the set [seen]: the list
    [unique]. Every fix met gets its path normalized, kept or not. *)
Fixpoint dedup_from (seen : gset (string * Z)) (fixes : list patch)
  : list patch :=
  match fixes with
  | [] => []
  | fx :: fixes' =>
      let fx' := set_file (_normalize_path (file fx)) fx in
      if decide (key fx' ∈ seen) then dedup_from seen fixes'
      else fx' :: dedup_from ({[key fx']} ∪ seen) fixes'
  end.

Definition _deduplicate_fixes (fixes : list patch) : list patch :=
  dedup_from ∅ fixes.

(** The fix as the loop stores it. *)
Definition normalized (fx : patch) : patch :=
  set_file (_normalize_path (file fx)) fx.

(** The locations of the fixes of a list, as the loop stores them. *)
Definition locations (l : list patch) : gset (string * Z) :=
  list_to_set (map (fun fx => key (normalized fx)) l).

(** [detect_and_fix_deterministic(repo_path)], from what its four scans
    returned: they walk the workspace and call the linter, and their
    lists are concatenated in this order. *)
Definition detect_and_fix_deterministic
           (syntax_fixes import_fixes linting_fixes indent_fixes : list patch)
  : Pipeline.fix_response :=
  let all_fixes :=
    (syntax_fixes ++ import_fixes ++ linting_fixes ++ indent_fixes)%list in
  Pipeline.FixResponse
    (_deduplicate_fixes all_fixes)
    "[AI-AGENT] Fix syntax, import, linting, and indentation errors (deterministic)".

End Detector.

(** ** More sample data *)

Module Cases.
Import Fixer.

(** Two proposals for line 3 of one file, the path spelled differently,
    and a proposal for another line. *)
Definition syntax_proposal : patch :=
  Patch "./src/a.py" 3 (Some "def f(x)") (Some "def f(x):") "SYNTAX"
        "Add missing colon at end of statement" None None.

Definition lint_proposal : patch :=
  Patch "src\a.py" 3 (Some "def f(x)") (Some "") "LINTING"
        "Remove unused import 'f'" None None.

Definition other_proposal : patch :=
  Patch "src/a.py" 1 (Some "import os") (Some "") "LINTING"
        "Remove unused import 'os'" None None.

(** A replacement of line 2 of [Sample.app_py] that names its old text,
    and the same file with carriage returns. *)
Definition checked_fix : patch :=
  Patch "app.py" 2 (Some "x = 1") (Some "x = 10") "LOGIC" "Fix x" None None.

Definition crlf_py : string :=
  "import os" +:+ String Py.CR Sample.nl +:+ "x = 1" +:+ String Py.CR Sample.nl.

Definition crlf_workspace : FS := {[ "repo/app.py" := Text crlf_py ]}.

(** A patch for a line the file does not have, and one for line 0. *)
Definition far_fix : patch :=
  Patch "app.py" 4 None (Some "z = 3") "LOGIC" "Add z" None None.

Definition zero_fix : patch :=
  Patch "app.py" 0 None (Some "z = 3") "LOGIC" "Add z" None None.

End Cases.

(** ** What a run records in its report *)

Module Ledger.
Import Pipeline.

(** A fix dict as [apply_fixes] returns it: its status is set, to
    applied or to failed. *)
Definition marked (fx : Fixer.patch) : Prop :=
  Fixer.status fx = Some "applied" \/ Fixer.status fx = Some "failed".

(** The number of applied fixes an entry of the iterations records. *)
Definition applied_in (it : iteration) : Z :=
  Fixer.count_status "applied" (fixes_applied it).

(** An entry holds a commit exactly when it holds an applied fix. *)
Definition committed_iff_applied (it : iteration) : Prop :=
  is_Some (commit it) <-> 0 < applied_in it.

(** The report [r'] is the report [r] with the entries [its] appended to
    its iterations and the fixes [fxs] to its fixes, the count of applied
    fixes kept in step; the key error is left alone. *)
Definition extends (r r' : report) (its : list iteration)
           (fxs : list Fixer.patch) : Prop :=
  iterations r' = (iterations r ++ its)%list
  /\ all_fixes r' = (all_fixes r ++ fxs)%list
  /\ total_fixes_applied r'
     = total_fixes_applied r + Fixer.count_status "applied" fxs
  /\ error r' = error r
  /\ Forall marked fxs
  /\ Forall committed_iff_applied its.

(** The entry on which a run stops, under the final status [st]: the
    tests passed, or no fix was there to try. *)
Definition stop_entry (st : string) (e : iteration) : Prop :=
  st = "PASSED" /\ status e = "PASSED" /\ failed e = 0 /\ errors e = []
  /\ fixes_applied e = []
  \/ st = "FAILED"
     /\ (status e = "NO_FIXES" \/ status e = "NO_FIXES_APPLIED")
     /\ applied_in e = 0.

(** [Q] holds of what the step [m] does from the state [s]. *)
Definition wp {E A : Type} (m : M E A)
           (Q : Py.result A -> pstate E -> Prop) (s : pstate E) : Prop :=
  Q (m s).1 (m s).2.

(** The deterministic pass: no test run, at most one entry, numbered 0. *)
Definition pass_effect {E : Type} (s : pstate E) (r : Py.result unit)
           (s' : pstate E) : Prop :=
  test_runs s' = test_runs s
  /\ final_status (result s') = final_status (result s)
  /\ exists its fxs,
      extends (result s) (result s') its fxs
      /\ sublist (map index its) [0].

(** One pass of the loop body: one test run; an entry for the pass
    unless a step raised. *)
Definition body_effect {E : Type} (it : Z) (s : pstate E)
           (r : Py.result flow) (s' : pstate E) : Prop :=
  test_runs s' = S (test_runs s)
  /\ exists its fxs,
      extends (result s) (result s') its fxs
      /\ match r with
         | Py.Ok Break =>
             exists e, its = [e] /\ index e = it
                       /\ stop_entry (final_status (result s')) e
         | Py.Ok Continue =>
             exists e, its = [e] /\ index e = it /\ status e = "FIXED"
                       /\ final_status (result s')
                          = final_status (result s)
         | Py.Raise _ =>
             its = []
             /\ final_status (result s') = final_status (result s)
         end.

(** The loop over [range]. *)
Definition loop_effect {E : Type} (range : list Z) (s : pstate E)
           (r : Py.result flow) (s' : pstate E) : Prop :=
  exists its fxs,
    extends (result s) (result s') its fxs
    /\ sublist (map index its) range
    /\ match r with
       | Py.Ok Break =>
           exists pre e, its = (pre ++ [e])%list
                         /\ stop_entry (final_status (result s')) e
       | Py.Ok Continue =>
           test_runs s' = (test_runs s + length range)%nat
           /\ map index its = range
           /\ Forall (fun e => status e = "FIXED") its
           /\ final_status (result s') = final_status (result s)
       | Py.Raise _ =>
           final_status (result s') = final_status (result s)
       end.

(** The block under [try:], from a report whose status is RUNNING. *)
Definition try_effect {E : Type} (s : pstate E) (r : Py.result unit)
           (s' : pstate E) : Prop :=
  exists its fxs,
    extends (result s) (result s') its fxs
    /\ sublist (map index its) (0 :: Py.range_from_1 MAX_ITERATIONS)
    /\ match r with
       | Py.Ok _ =>
           (exists pre e, its = (pre ++ [e])%list
                          /\ stop_entry (final_status (result s')) e)
           \/ final_status (result s') = "MAX_ITERATIONS"
              /\ test_runs s' = (test_runs s + MAX_ITERATIONS)%nat
              /\ exists pre last,
                  its = (pre ++ last)%list
                  /\ map index last = Py.range_from_1 MAX_ITERATIONS
                  /\ Forall (fun e => status e = "FIXED") last
       | Py.Raise _ => final_status (result s') = "RUNNING"
       end.

(** An event that is neither the closing event ["done"] nor the event
    ["error"]. *)
Definition quiet (e : event) : Prop :=
  match e with
  | Emit etype _ _ => etype <> "done" /\ etype <> "error"
  | Status _ => True
  end.

(** The event a run stops on, under the final status [st]. *)
Definition closing (st etype : string) : Prop :=
  st = "PASSED" /\ etype = "all_passed"
  \/ st = "FAILED" /\ (etype = "no_fixes" \/ etype = "no_fixes_applied")
  \/ st = "MAX_ITERATIONS" /\ etype = "max_iterations".

(** The events of a step are quiet; a step that breaks out of the loop
    ends on the closing event of the final status. *)
Definition emits {E : Type} (s : pstate E) (r : Py.result flow)
           (s' : pstate E) : Prop :=
  exists new,
    events s' = (new ++ events s)%list
    /\ Forall quiet new
    /\ match r with
       | Py.Ok Break =>
           exists etype it msg rest,
             new = Emit etype it msg :: rest
             /\ closing (final_status (result s')) etype
       | _ => True
       end.

(** The same for a step that returns nothing: whether its last event is
    a closing one is left open. *)
Definition emits_quietly {E : Type} (s : pstate E) (r : Py.result unit)
           (s' : pstate E) : Prop :=
  exists new, events s' = (new ++ events s)%list /\ Forall quiet new.

(** The block under [try:], when it returns, ends on the closing event
    of the final status. *)
Definition try_emits {E : Type} (s : pstate E) (r : Py.result unit)
           (s' : pstate E) : Prop :=
  exists new,
    events s' = (new ++ events s)%list
    /\ Forall quiet new
    /\ match r with
       | Py.Ok _ =>
           exists etype it msg rest,
             new = Emit etype it msg :: rest
             /\ closing (final_status (result s')) etype
       | Py.Raise _ => True
       end.

End Ledger.

(** ** What the guard of [start_run] does keep *)

Module Guard.
Import App.

(** The request has its three fields, after [.strip()]. *)
Definition complete (rq : request) : bool :=
  match validate rq with
  | None => true
  | Some _ => false
  end.

(** Where the handler of the request [rq] can stand: before its answer,
    or answered 409, 400 when a field is blank, 202 when none is. *)
Definition answer_for (rq : request) (h : handler) : Prop :=
  match h with
  | AtCheck rq' | AtStart rq' => rq' = rq
  | Responded code =>
      code = 409
      \/ code = 400 /\ complete rq = false
      \/ code = 202 /\ complete rq = true
  end.

Definition is_accepted (h : handler) : bool :=
  match h with
  | Responded 202 => true
  | _ => false
  end.

(** The background thread has called [run_pipeline]. *)
Definition has_entered (w : worker) : bool :=
  match w with
  | InPipeline | Finished => true
  | _ => false
  end.

(** The server [sv] serves the requests [rqs]: one handler per request,
    one background thread per request answered 202, and the pipeline
    entered once per thread that reached it. *)
Definition serves (rqs : list request) (sv : server) : Prop :=
  Forall2 answer_for rqs (handlers sv)
  /\ length (workers sv) = length (List.filter is_accepted (handlers sv))
  /\ launched sv = length (List.filter has_entered (workers sv)).

End Guard.

(** ** What the records of the result parser hold *)

Module Records.
Import TestRunner.

Definition no_backslash (c : ascii) : bool := negb (Ascii.eqb c "\"%char).

(** A record with a line number that is not negative and a path without
    backslash. *)
Definition located (f : failure) : Prop :=
  0 <= line f /\ ReSem.all_in no_backslash (file f).

(** A record of a collection error. *)
Definition collected (f : failure) : Prop :=
  Py.startswith "collection_error:" (test_name f) = true
  /\ (String.length (error_message f) <= 200)%nat.

(** A record made from a line of the summary. *)
Definition from_summary (f : failure) : Prop :=
  line f = 0
  /\ error_message f = "Test " +:+ test_name f +:+ " failed".

End Records.

(** ** [agent/git_ops.py]: the name of the branch, commit and push *)

Module GitOps.

(** [c if c.isalnum() or c == " " else ""], joined. *)
Definition kept (c : ascii) : bool := Py.isalnum c || Ascii.eqb c " ".

Fixpoint keep_chars (s : string) : string :=
  match s with
  | EmptyString => EmptyString
  | String c s' =>
      if kept c then String c (keep_chars s') else keep_chars s'
  end.

(** [c.upper()] of one code point below 256. The capital of U+00DF is
    the two letters SS; the capitals of U+00B5 and U+00FF (U+039C and
    U+0178) are outside the alphabet of this development: [None]. *)
Definition upper_char (c : ascii) : option string :=
  let n := nat_of_ascii c in
  if ((n =? 181) || (n =? 255))%nat then None
  else if (n =? 223)%nat then Some "SS"
  else if ((97 <=? n) && (n <=? 122)
           || (224 <=? n) && (n <=? 254) && negb (n =? 247))%nat
       then Some (String (ascii_of_nat (n - 32)) EmptyString)
       else Some (String c EmptyString).

(** [s.upper()], [None] when a capital is outside the alphabet. *)
Fixpoint upper (s : string) : option string :=
  match s with
  | EmptyString => Some EmptyString
  | String c s' =>
      match upper_char c, upper s' with
      | Some u, Some r => Some (u +:+ r)
      | _, _ => None
      end
  end.

(** The local function [clean] of [make_branch_name]. *)
Definition clean (s : string) : option string :=
  let cleaned := keep_chars s in
  upper (Py.replace " " "_" (Py.strip cleaned)).

(** [make_branch_name(team_name, leader_name)] *)
Definition make_branch_name (team_name leader_name : string)
  : option string :=
  match clean team_name, clean leader_name with
  | Some team, Some leader => Some (team +:+ "_" +:+ leader +:+ "_AI_Fix")
  | _, _ => None
  end.

(** A code point of ASCII, and a character of a cleaned name: a capital
    A to Z, a digit or an underscore. *)
Definition ascii_only (c : ascii) : bool := (nat_of_ascii c <? 128)%nat.

Definition branch_char (c : ascii) : bool :=
  let n := nat_of_ascii c in
  ((65 <=? n) && (n <=? 90) || (48 <=? n) && (n <=? 57) || (n =? 95))%nat.

(** An ASCII character that [clean] keeps. *)
Definition kept_ascii (c : ascii) : bool := kept c && ascii_only c.

(** [s.replace(old, new)] for a non-empty [old]: from left to right,
    without overlap. [skip] counts the characters of a match still to
    pass over. *)
Fixpoint replace_from (old new : string) (skip : nat) (s : string)
  : string :=
  match s with
  | EmptyString => EmptyString
  | String c s' =>
      match skip with
      | S k => replace_from old new k s'
      | O =>
          if String.prefix old s
          then new +:+ replace_from old new (String.length old - 1) s'
          else String c (replace_from old new O s')
      end
  end.

Definition replace_str (old new s : string) : string :=
  replace_from old new O s.

(** The exceptions the code tells apart, and what [subprocess.run(cmd,
    cwd=..., capture_output=True, text=True)] does: it returns the exit
    status and the two streams, or raises. *)
Inductive exn_kind : Type :=
| FileNotFoundError | TimeoutExpired | RuntimeError | OtherError.

Record completed : Type := Completed {
  returncode : Z;
  stdout : string;
  stderr : string
}.

Inductive outcome (A : Type) : Type :=
| Returns (a : A)
| Raises (k : exn_kind) (text : string).
Arguments Returns {A} a.
Arguments Raises {A} k text.

(** ["nothing to commit" in result.stdout or "nothing to commit" in
    result.stderr] *)
Definition nothing_to_commit (result : completed) : bool :=
  Py.contains "nothing to commit" (stdout result)
  || Py.contains "nothing to commit" (stderr result).

(** A command of [_setup_push_auth]. *)
Definition auth_command (cmd : list string) : Prop :=
  (exists rest, cmd = "git" :: "remote" :: rest)
  \/ cmd = ["gh"; "auth"; "setup-git"].

Section Commands.
(** The world the commands act on. *)
Variable W : Type.
Variable subprocess_run :
  list string -> string -> W -> outcome completed * W.
(** [os.environ.get("GITHUB_TOKEN", "")] *)
Variable GITHUB_TOKEN : string.

(** A step: from the world and the commands run so far (a ghost list,
    the first command first) to a value or an exception, the world and
    the commands run by then. *)
Definition G (A : Type) : Type :=
  W * list (list string) -> outcome A * (W * list (list string)).

Definition ret {A : Type} (a : A) : G A := fun s => (Returns a, s).

Definition raise {A : Type} (k : exn_kind) (text : string) : G A :=
  fun s => (Raises k text, s).

Definition bind {A B : Type} (m : G A) (f : A -> G B) : G B :=
  fun s =>
    match m s with
    | (Returns a, s') => f a s'
    | (Raises k text, s') => (Raises k text, s')
    end.

Notation "'let*' x ':=' m 'in' k" := (bind m (fun x => k))
  (at level 10, x name, m at level 100, k at level 200).
Notation "'do' m 'then' k" := (bind m (fun _ => k))
  (at level 10, m at level 100, k at level 200).

Definition run (cmd : list string) (cwd : string) : G completed :=
  fun '(w, ran) =>
    let '(r, w') := subprocess_run cmd cwd w in
    (r, (w', (ran ++ [cmd])%list)).

(** [try: m  except FileNotFoundError: ...  except
    subprocess.TimeoutExpired: ...], the handlers only printing. *)
Definition try_gh (m : G unit) : G unit :=
  fun s =>
    match m s with
    | (Raises FileNotFoundError _, s') => (Returns tt, s')
    | (Raises TimeoutExpired _, s') => (Returns tt, s')
    | r => r
    end.

(** [_setup_push_auth(repo_path)] *)
Definition _setup_push_auth (repo_path : string) : G unit :=
  if Py.truthy GITHUB_TOKEN then
    let* result := run ["git"; "remote"; "get-url"; "origin"] repo_path in
    let remote_url := Py.strip (stdout result) in
    if Py.startswith "https://" remote_url
       && negb (Py.contains "@" remote_url)
    then
      let auth_url :=
        replace_str "https://" ("https://" +:+ GITHUB_TOKEN +:+ "@")
                    remote_url in
      do run ["git"; "remote"; "set-url"; "origin"; auth_url] repo_path then
      ret tt
    else ret tt
  else
    try_gh (do run ["gh"; "auth"; "setup-git"] repo_path then ret tt).

(** [commit_and_push(repo_path, commit_message, branch_name)]; of the
    dict returned, the keys the orchestrator reads. *)
Definition commit_and_push (repo_path commit_message branch_name : string)
  : G Pipeline.commit_result :=
  do run ["git"; "add"; "-A"] repo_path then
  let* result := run ["git"; "commit"; "-m"; commit_message] repo_path in
  if negb (returncode result =? 0) then
    if nothing_to_commit result
    then ret (Pipeline.CommitResult (Some "") (Some branch_name)
                                    (Some true))
    else raise RuntimeError ("Failed to commit: " +:+ stderr result)
  else
    let* hash_result := run ["git"; "rev-parse"; "HEAD"] repo_path in
    let commit_hash := Py.strip (stdout hash_result) in
    do _setup_push_auth repo_path then
    let* push_result :=
      run ["git"; "push"; "--force"; "-u"; "origin"; branch_name]
          repo_path in
    let push_success := returncode push_result =? 0 in
    ret (Pipeline.CommitResult (Some (Py.take 8 commit_hash))
                               (Some branch_name) (Some push_success)).

(** [create_branch(repo_path, branch_name)] *)
Definition create_branch (repo_path branch_name : string) : G unit :=
  let* result := run ["git"; "branch"; "--list"; branch_name] repo_path in
  if Py.contains branch_name (stdout result) then
    do run ["git"; "checkout"; branch_name] repo_path then ret tt
  else
    let* result := run ["git"; "checkout"; "-b"; branch_name] repo_path in
    if negb (returncode result =? 0) then
      raise RuntimeError ("Failed to create branch: " +:+ stderr result)
    else ret tt.

End Commands.

Arguments ret {W A}.
Arguments raise {W A}.
Arguments bind {W A B}.
Arguments run {W}.
Arguments try_gh {W}.
Arguments _setup_push_auth {W}.
Arguments commit_and_push {W}.
Arguments create_branch {W}.

End GitOps.

(** ** [agent/pipeline.py]: reading the files for the provider *)

Module Reader.
Import Fixer.

(** What the body of the [try] enters for a path that exists: the text
    of the file as [read] gives it in text mode, or, when [open] or
    [read] raises, the text of the error. *)
Definition read_text (n : node) : string :=
  match n with
  | Text content => universal_newlines content
  | Unreadable err => "<Error reading file: " +:+ err +:+ ">"
  end.

(** One pass of the loop of [read_file_contents]: the dict [contents]
    after the path [fp]. A path that does not exist is passed over. *)
Definition read_one (repo_path : string) (fs : FS)
           (contents : gmap string string) (fp : string)
  : gmap string string :=
  match fs !! Py.os_path_join repo_path fp with
  | Some n => <[fp := read_text n]> contents
  | None => contents
  end.

(** [read_file_contents(repo_path, file_paths)]; the dict as a map (the
    order of its keys is not kept). *)
Definition read_file_contents (repo_path : string) (fs : FS)
           (file_paths : list string) : gmap string string :=
  fold_left (read_one repo_path fs) file_paths ∅.

End Reader.

Module GitCases.
Import GitOps.

(** Commands that all succeed and print a hash. *)
Definition all_succeed (cmd : list string) (cwd : string) (w : unit)
  : outcome completed * unit :=
  (Returns (Completed 0 "0a1b2c3d4e5f60718293a4b5c6d7e8f901234567" ""), w).

(** Commands that all return and count the commands run so far: [git
    rev-parse] prints a hash, the push is rejected. *)
Definition push_rejected (cmd : list string) (cwd : string) (w : nat)
  : outcome completed * nat :=
  if String.eqb (nth 1 cmd "") "rev-parse" then
    (Returns (Completed 0 ("0a1b2c3d4e5f60718293a4b5c6d7e8f901234567"
                           +:+ String Py.LF "") ""), S w)
  else if String.eqb (nth 1 cmd "") "push" then
    (Returns (Completed 1 "" "! [remote rejected]"), S w)
  else (Returns (Completed 0 "" ""), S w).

End GitCases.

(** ** [agent/deterministic_fixer.py]: the fix of an indentation error *)

Module Indentation.
Import Fixer DetFixer.

(** [l[i]] for an integer [i]: a negative index counts from the end;
    [None] is the [IndexError]. *)
Definition py_index {A : Type} (l : list A) (i : Z) : option A :=
  if i <? 0 then
    if i + Z.of_nat (length l) <? 0 then None
    else l !! Z.to_nat (i + Z.of_nat (length l))
  else l !! Z.to_nat i.

(** The body of the loop of [_detect_indentation_errors] over the errors
    of one file, for the error reported at [line_no]: the fix appended,
    if any. An exception ends the scan (the caller catches it). *)
Definition indentation_fix (fpath : string) (file_lines : list string)
           (line_no : Z) : Py.result (option patch) :=
  if line_no >? Z.of_nat (length file_lines) then Py.Ok None
  else
    match py_index file_lines (line_no - 1) with
    | None => Py.Raise "list index out of range"
    | Some old_line =>
        let old_code :=
          Py.rstrip_char Py.CR (Py.rstrip_char Py.LF old_line) in
        let content := Py.lstrip old_line in
        match _determine_correct_indent file_lines (line_no - 1) with
        | None => Py.Raise "list index out of range"
        | Some correct_indent =>
            let new_code :=
              correct_indent
              +:+ Py.rstrip_char Py.CR (Py.rstrip_char Py.LF content) in
            if negb (String.eqb old_code new_code) then
              Py.Ok (Some (Patch fpath line_no (Some old_code)
                                 (Some new_code) "INDENTATION"
                                 "Fix indentation to PEP8 standard (4-space)"
                                 None None))
            else Py.Ok None
        end
    end.

End Indentation.

Module IndentCases.
Import Fixer.

(** A function whose body is indented by two spaces, and the fix of its
    second line. *)
Definition short_indent : string :=
  "def f():" +:+ Sample.nl +:+ "  return 1" +:+ Sample.nl.

Definition indent_fix : patch :=
  Patch "a.py" 2 (Some "  return 1") (Some "    return 1") "INDENTATION"
        "Fix indentation to PEP8 standard (4-space)" None None.

End IndentCases.

(** ** [agent/fixer.py] on a disk that resolves paths and can refuse a
    write *)

Module Disk.
Import Fixer.

(** What [with open(file_path, "w", encoding="utf-8") as f:
    f.writelines(lines)] does: it returns, and the file holds the lines;
    or it raises an exception with the text [err], and the file is left
    as [held] (untouched when [open] raises; emptied by [open], or cut
    after some of the lines, when a later step raises). *)
Inductive written : Type :=
| Stored
| Broken (err : string) (held : node).

Section Files.
(** The state of the disk beside the contents of the files (free space,
    permissions). *)
Variable W : Type.
(** The file a path names, as the operating system resolves it (["."],
    [".."], doubled separators, links): paths that name the same file
    resolve to the same key, and the files are kept by that key. *)
Variable resolve : string -> string.
(** The write of a new content to a file. *)
Variable write : string -> string -> W -> written * W.

(** One pass of the loop body of [apply_fixes]: the disk and the fix
    dict after it. *)
Definition apply_fix (repo_path : string) (d : FS * W) (fx : patch)
  : (FS * W) * patch :=
  let file_path := resolve (Py.os_path_join repo_path (file fx)) in
  match d.1 !! file_path with
  | None =>
      (d, set_status "failed" ("File not found: " +:+ file fx) fx)
  | Some (Unreadable err) =>
      (* open or readlines raises: the except clause *)
      (d, set_status "failed" err fx)
  | Some (Text content) =>
      let lines := readlines content in
      let line_idx := line fx - 1 in
      if (line_idx <? 0) || (line_idx >=? Z.of_nat (length lines)) then
        (d, set_status "failed"
              ("Line " +:+ Py.str_of_Z (line fx) +:+
               " out of range (file has " +:+
               Py.str_of_Z (Z.of_nat (length lines)) +:+ " lines)") fx)
      else
        let old := Py.strip (default "" (old_code fx)) in
        let actual_line :=
          Py.rstrip_char Py.CR
            (Py.rstrip_char Py.LF
               (default "" (lines !! Z.to_nat line_idx))) in
        let target :=
          if Py.truthy old
             && negb (String.eqb (Py.strip old) (Py.strip actual_line))
          then find_line old 0 lines
          else Some (Z.to_nat line_idx) in
        match target with
        | None =>
            (d, set_status "failed"
                  ("Expected '" +:+ old +:+ "' at line " +:+
                   Py.str_of_Z (line fx) +:+ ", found '" +:+
                   actual_line +:+ "'") fx)
        | Some idx =>
            let lines' :=
              match new_code fx with
              | None | Some EmptyString => delete idx lines
              | Some new =>
                  let original_newline :=
                    if Py.endswith (String Py.CR (String Py.LF ""))
                         (default "" (lines !! idx))
                    then String Py.CR (String Py.LF "")
                    else String Py.LF "" in
                  <[idx := new +:+ original_newline]> lines
              end in
            match write file_path (writelines lines') d.2 with
            | (Stored, w') =>
                ((<[file_path := Text (writelines lines')]> d.1, w'),
                 set_status "applied" "Fix applied successfully" fx)
            | (Broken err held, w') =>
                (* the write raises: the except clause *)
                ((<[file_path := held]> d.1, w'),
                 set_status "failed" err fx)
            end
        end
  end.

(** [apply_fixes(repo_path, fixes)]: the disk after the loop and the
    list [results]. *)
Fixpoint apply_fixes (repo_path : string) (d : FS * W)
         (fixes : list patch) : (FS * W) * list patch :=
  match fixes with
  | [] => (d, [])
  | fx :: fixes' =>
      let '(d1, fx') := apply_fix repo_path d fx in
      let '(d2, results) := apply_fixes repo_path d1 fixes' in
      (d2, fx' :: results)
  end.

End Files.

Arguments apply_fix {W}.
Arguments apply_fixes {W}.

End Disk.

Module DiskCases.
Import Fixer Disk.

(** A resolution that passes over the components ["."] of a path. *)
Definition skip_dots (p : string) : string :=
  GitOps.replace_str "/./" "/" p.

(** Writes that return, and a disk without room: [open] empties the
    file and the write raises. *)
Definition stores (p content : string) (w : unit) : written * unit :=
  (Stored, w).

Definition no_room (p content : string) (w : unit) : written * unit :=
  (Broken "[Errno 28] No space left on device" (Text ""), w).

(** The patch [Cases.checked_fix] with its file written ["./app.py"]. *)
Definition dotted_fix : patch :=
  Patch "./app.py" 2 (Some "x = 1") (Some "x = 10") "LOGIC" "Fix x"
        None None.

(** The workspace of [Sample] with a second file. *)
Definition two_files : FS :=
  <["repo/lib.py" := Text "y = 2"]> Sample.workspace.

End DiskCases.

(** ** Invariants used by the proofs *)

Module Inv.

(** A character that ends no line. *)
Definition plain (c : ascii) : bool :=
  negb (Ascii.eqb c Py.CR) && negb (Ascii.eqb c Py.LF).

Definition not_cr (c : ascii) : bool := negb (Ascii.eqb c Py.CR).

(** The shape of what [readlines] returns: every line is a run of plain
    characters closed by ["\n"], except that the last line may be a
    non-empty run that is not closed. *)
Inductive well_formed : list string -> Prop :=
| wf_nil : well_formed []
| wf_last (b : string) :
    ReSem.all_in plain b -> b <> "" -> well_formed [b]
| wf_cons (b : string) (ls : list string) :
    ReSem.all_in plain b -> well_formed ls ->
    well_formed ((b +:+ String Py.LF "") :: ls).

(** A call that returns, or raises the [ValueError] of [int] on a
    literal beyond the limit, and raises nothing else. *)
Definition only_long_numbers {A : Type} (r : Py.result A) : Prop :=
  (exists a, r = Py.Ok a)
  \/ (exists n : nat,
        (Py.max_str_digits < n)%nat /\ r = Py.Raise (Py.exceeds_limit n)).

(** A step of a run that calls [run_tests] at most [n] times. *)
Definition runs_within {E A : Type} (n : nat) (m : Pipeline.M E A) : Prop :=
  forall s, (Pipeline.test_runs (m s).2 <= Pipeline.test_runs s + n)%nat.

End Inv.

(** * Verification *)

(** ** Strings *)

Section StringFacts.
Import Py.
Variable p : ascii -> bool.

Lemma lstrip_by_head (s : string) :
  lstrip_by p s = "" \/
  exists c s', lstrip_by p s = String c s' /\ p c = false.
Proof.
  induction s as [|c s IH]; simpl; [now left|].
  destruct (p c) eqn:Hc; [exact IH|].
  right. now exists c, s.
Qed.

Lemma rstrip_by_keeps_head (c : ascii) (s : string) :
  p c = false -> exists t, rstrip_by p (String c s) = String c t.
Proof.
  intros Hc. simpl. destruct (rstrip_by p s) as [|c' r].
  - rewrite Hc. now exists "".
  - now exists (String c' r).
Qed.

Lemma rstrip_by_idempotent (s : string) :
  rstrip_by p (rstrip_by p s) = rstrip_by p s.
Proof.
  induction s as [|c s IH]; simpl; [reflexivity|].
  destruct (rstrip_by p s) as [|c' r] eqn:Hr.
  - destruct (p c) eqn:Hc; simpl; [reflexivity|]. now rewrite Hc.
  - change (rstrip_by p (String c (String c' r)) = String c (String c' r)).
    cbn [rstrip_by] in IH |- *. now rewrite IH.
Qed.

Lemma strip_by_idempotent (s : string) :
  rstrip_by p (lstrip_by p (rstrip_by p (lstrip_by p s)))
  = rstrip_by p (lstrip_by p s).
Proof.
  destruct (lstrip_by_head s) as [H | (c & s' & H & Hc)]; rewrite H.
  - reflexivity.
  - destruct (rstrip_by_keeps_head c s' Hc) as [t Ht]. rewrite Ht.
    cbn [lstrip_by]. rewrite Hc, <- Ht. apply rstrip_by_idempotent.
Qed.
End StringFacts.

Lemma strip_idempotent (s : string) : Py.strip (Py.strip s) = Py.strip s.
Proof. apply strip_by_idempotent. Qed.

Lemma truthy_false (s : string) : Py.truthy s = false <-> s = "".
Proof.
  unfold Py.truthy. destruct (String.eqb_spec s ""); simpl; split; congruence.
Qed.

Lemma truthy_true (s : string) : Py.truthy s = true <-> s <> "".
Proof.
  unfold Py.truthy. destruct (String.eqb_spec s ""); simpl; split; congruence.
Qed.

Lemma append_cons (x : ascii) (a b : string) :
  String x a +:+ b = String x (a +:+ b).
Proof. reflexivity. Qed.

Lemma append_nil_l (b : string) : "" +:+ b = b.
Proof. reflexivity. Qed.

Lemma append_assoc (a b c : string) : (a +:+ b) +:+ c = a +:+ (b +:+ c).
Proof.
  induction a as [|x a IH]; [reflexivity|].
  rewrite !append_cons. now rewrite IH.
Qed.

Lemma append_empty_r (a : string) : a +:+ "" = a.
Proof.
  induction a as [|x a IH]; [reflexivity|].
  rewrite append_cons. now rewrite IH.
Qed.

Lemma all_in_append (p : ascii -> bool) (a b : string) :
  ReSem.all_in p (a +:+ b) <-> ReSem.all_in p a /\ ReSem.all_in p b.
Proof.
  induction a as [|x a IH]; [rewrite append_nil_l; simpl; tauto|].
  rewrite append_cons. simpl. rewrite IH. tauto.
Qed.

Lemma all_in_weaken (p q : ascii -> bool) (s : string) :
  (forall c, p c = true -> q c = true) ->
  ReSem.all_in p s -> ReSem.all_in q s.
Proof.
  intros Hpq. induction s as [|c s IH]; simpl; [trivial|].
  intros [Hc Hs]. split; auto.
Qed.

(** ** The lines of a text file *)

Section Lines.
Import Py Fixer Inv ReSem.

Lemma plain_not_lf (c : ascii) : plain c = true -> Ascii.eqb c LF = false.
Proof.
  unfold plain. destruct (Ascii.eqb c LF); [|reflexivity].
  rewrite andb_false_r. discriminate.
Qed.

Lemma plain_not_cr (c : ascii) : plain c = true -> not_cr c = true.
Proof. unfold plain, not_cr. now intros [H _]%andb_true_iff. Qed.

Lemma split_lines_open (b : string) :
  all_in plain b -> b <> "" -> split_lines b = [b].
Proof.
  induction b as [|c b IH]; [congruence|].
  intros [Hc Hb] _. cbn [split_lines]. rewrite (plain_not_lf c Hc).
  destruct b as [|c' b']; [reflexivity|].
  rewrite IH; [reflexivity | exact Hb | discriminate].
Qed.

Lemma split_lines_closed (b rest : string) :
  all_in plain b ->
  split_lines (b +:+ String LF rest)
  = (b +:+ String LF "") :: split_lines rest.
Proof.
  induction b as [|c b IH]; intros Hb.
  - reflexivity.
  - destruct Hb as [Hc Hb]. rewrite !append_cons. cbn [split_lines].
    rewrite (plain_not_lf c Hc), (IH Hb). reflexivity.
Qed.

Lemma split_lines_well_formed (t : string) :
  all_in not_cr t -> well_formed (split_lines t).
Proof.
  induction t as [|c t IH]; intros Ht; [constructor|].
  destruct Ht as [Hc Ht]. specialize (IH Ht). cbn [split_lines].
  destruct (Ascii.eqb c LF) eqn:Hlf.
  - apply Ascii.eqb_eq in Hlf. subst c.
    apply (wf_cons "" _ I IH).
  - assert (Hp : plain c = true)
      by (unfold plain; unfold not_cr in Hc; now rewrite Hc, Hlf).
    destruct (split_lines t) as [|h ls].
    + apply wf_last; [now split | discriminate].
    + inversion IH as [| b Hb Hne | b ls' Hb Hls]; subst.
      * apply wf_last; [now split | discriminate].
      * apply (wf_cons (String c b) ls); [now split | assumption].
Qed.

Lemma universal_newlines_no_cr (s : string) :
  all_in not_cr (universal_newlines s).
Proof.
  assert (H : forall n s, (String.length s <= n)%nat ->
                          all_in not_cr (universal_newlines s)).
  { clear s. induction n as [|n IH]; intros [|c s] Hn; simpl in *;
      try exact I; try lia.
    destruct (Ascii.eqb c CR) eqn:Hc.
    - split; [reflexivity|].
      destruct s as [|c' s']; [exact I|].
      destruct (Ascii.eqb c' LF); apply IH; simpl in *; lia.
    - split; [unfold not_cr; now rewrite Hc | apply IH; lia]. }
  now apply (H (String.length s)).
Qed.

Lemma universal_newlines_id (s : string) :
  all_in not_cr s -> universal_newlines s = s.
Proof.
  induction s as [|c s IH]; [reflexivity|].
  intros [Hc Hs]. cbn [universal_newlines].
  unfold not_cr in Hc. destruct (Ascii.eqb c CR); [discriminate|].
  now rewrite IH.
Qed.

(** What [readlines] returns is well formed. *)
Lemma readlines_well_formed (content : string) :
  well_formed (readlines content).
Proof. apply split_lines_well_formed, universal_newlines_no_cr. Qed.

Lemma well_formed_no_cr (ls : list string) :
  well_formed ls -> all_in not_cr (join ls).
Proof.
  induction 1 as [| b Hb Hne | b ls Hb Hls IH]; simpl.
  - exact I.
  - rewrite append_empty_r.
    apply (all_in_weaken plain); [apply plain_not_cr | exact Hb].
  - apply all_in_append. split; [|exact IH].
    apply all_in_append. split; [|now simpl].
    apply (all_in_weaken plain); [apply plain_not_cr | exact Hb].
Qed.

Lemma well_formed_split_join (ls : list string) :
  well_formed ls -> split_lines (join ls) = ls.
Proof.
  induction 1 as [| b Hb Hne | b ls Hb Hls IH]; simpl.
  - reflexivity.
  - rewrite append_empty_r. now apply split_lines_open.
  - rewrite append_assoc, append_cons, append_nil_l.
    rewrite split_lines_closed by assumption. now rewrite IH.
Qed.

(** Writing well-formed lines and reading them back gives the lines. *)
Lemma readlines_writelines (ls : list string) :
  well_formed ls -> readlines (writelines ls) = ls.
Proof.
  intros Hls. unfold readlines, writelines.
  rewrite universal_newlines_id by now apply well_formed_no_cr.
  now apply well_formed_split_join.
Qed.

Lemma well_formed_delete (ls : list string) (i : nat) :
  well_formed ls -> well_formed (delete i ls).
Proof.
  intros Hls. revert i.
  induction Hls as [| b Hb Hne | b ls Hb Hls IH]; intros [|i];
    cbn; try constructor; auto.
Qed.

(** No line that [readlines] returns ends with ["\r\n"]. *)
Lemma well_formed_no_crlf (ls : list string) (i : nat) (l : string) :
  well_formed ls -> ls !! i = Some l ->
  endswith (String CR (String LF "")) l = false.
Proof.
  intros Hls Hl.
  assert (Hcr : all_in not_cr l).
  { revert i Hl. induction Hls as [| b Hb Hne | b ls Hb Hls IH];
      intros [|i] Hl; simplify_eq/=; eauto.
    - apply (all_in_weaken plain); [apply plain_not_cr | exact Hb].
    - apply all_in_append. split; [|now simpl].
      apply (all_in_weaken plain); [apply plain_not_cr | exact Hb]. }
  clear Hl Hls. induction l as [|c l IH]; [reflexivity|].
  destruct Hcr as [Hc Hcr]. cbn [endswith].
  destruct (String.eqb_spec (String c l) (String CR (String LF ""))) as [E|_].
  - injection E as -> _. discriminate Hc.
  - now apply IH.
Qed.

Lemma join_split_lines (t : string) : join (split_lines t) = t.
Proof.
  induction t as [|c t IH]; [reflexivity|]. cbn [split_lines].
  destruct (Ascii.eqb c LF).
  - cbn [join]. now rewrite append_cons, append_nil_l, IH.
  - destruct (split_lines t) as [|h ls]; cbn [join] in *.
    + now rewrite <- IH.
    + rewrite append_cons. now rewrite IH.
Qed.

(** A file without carriage returns is, on disk, the concatenation of its
    lines: writing back the lines without one of them removes the
    characters of that line and no other. A file with ["\r\n"] line ends
    is written back with ["\n"] line ends. *)
Lemma writelines_readlines_lf (content : string) :
  all_in not_cr content -> writelines (readlines content) = content.
Proof.
  intros Hcr. unfold writelines, readlines.
  rewrite universal_newlines_id by exact Hcr. apply join_split_lines.
Qed.
End Lines.

(** ** The patch engine *)

Section FixerFacts.
Import Py Fixer Inv.

Lemma find_line_none (old : string) (lines : list string) (i : nat) :
  (forall j l, lines !! j = Some l -> trimmed l <> strip old) ->
  find_line old i lines = None.
Proof.
  revert i. induction lines as [|l lines IH]; intros i H; [reflexivity|].
  cbn [find_line].
  destruct (String.eqb_spec (trimmed l) (strip old)) as [E|_].
  - now destruct (H O l eq_refl).
  - apply IH. intros j l' Hj. exact (H (S j) l' Hj).
Qed.

Lemma find_line_first (old : string) (lines : list string) (i t : nat)
      (l : string) :
  lines !! t = Some l -> trimmed l = strip old ->
  (forall j l', (j < t)%nat -> lines !! j = Some l' ->
                trimmed l' <> strip old) ->
  find_line old i lines = Some (i + t)%nat.
Proof.
  revert i t. induction lines as [|l0 lines IH]; intros i t Hl E Hfirst;
    [discriminate|].
  cbn [find_line]. destruct t as [|t].
  - simplify_eq/=. rewrite E, String.eqb_refl. f_equal. lia.
  - destruct (String.eqb_spec (trimmed l0) (strip old)) as [E0|_].
    + destruct (Hfirst O l0); [lia | reflexivity | exact E0].
    + rewrite (IH (S i) t); [f_equal; lia | exact Hl | exact E |].
      intros j l' Hj Hl'. apply (Hfirst (S j) l'); [lia | exact Hl'].
Qed.

Lemma apply_fixes_app (repo : string) (fs : FS) (a b : list patch) :
  apply_fixes repo fs (a ++ b)%list
  = let '(fs1, r1) := apply_fixes repo fs a in
    let '(fs2, r2) := apply_fixes repo fs1 b in
    (fs2, (r1 ++ r2)%list).
Proof.
  revert fs. induction a as [|fx a IH]; intros fs; cbn.
  - now destruct (apply_fixes repo fs b).
  - destruct (apply_fix repo fs fx) as [fs1 fx']. rewrite IH.
    destruct (apply_fixes repo fs1 a) as [fs2 r1].
    now destruct (apply_fixes repo fs2 b).
Qed.

Lemma apply_fixes_length (repo : string) (fs : FS) (l : list patch) :
  length (apply_fixes repo fs l).2 = length l.
Proof.
  revert fs. induction l as [|fx l IH]; intros fs; cbn; [reflexivity|].
  destruct (apply_fix repo fs fx) as [fs1 fx']. specialize (IH fs1).
  destruct (apply_fixes repo fs1 l); cbn in *. now rewrite IH.
Qed.

(** One patch whose old text is on no line of its file: it fails and
    the files stay as they are. *)
Lemma apply_fix_mismatch (repo : string) (fs : FS) (fx : patch) :
  strip (default "" (old_code fx)) <> "" ->
  (forall content j l,
      fs !! os_path_join repo (file fx) = Some (Text content) ->
      readlines content !! j = Some l ->
      trimmed l <> strip (default "" (old_code fx))) ->
  exists msg, apply_fix repo fs fx = (fs, set_status "failed" msg fx).
Proof.
  intros Hold Hno. unfold apply_fix.
  destruct (fs !! os_path_join repo (file fx)) as [[content|err]|] eqn:Hf;
    [|eauto..].
  destruct (_ || _) eqn:Hrange; [eauto|].
  apply orb_false_iff in Hrange as [Hlo Hhi].
  (* the line at the index is itself a line of the file *)
  destruct (lookup_lt_is_Some_2 (readlines content)
              (Z.to_nat (line fx - 1))) as [l Hl]; [lia|].
  rewrite Hl. cbn [default from_option id]. rewrite strip_idempotent.
  change (strip (rstrip_char CR (rstrip_char LF l))) with (trimmed l).
  apply truthy_true in Hold. rewrite Hold. cbn [andb].
  destruct (String.eqb_spec (strip (default "" (old_code fx))) (trimmed l))
    as [E|_].
  { symmetry in E. now destruct (Hno content _ l eq_refl Hl). }
  cbn [negb]. rewrite find_line_none; [eexists; reflexivity|].
  intros j l' Hl'. rewrite strip_idempotent. eauto.
Qed.
End FixerFacts.

Section FixerTheorems.
Import Py Fixer Inv.

(** What [apply_fixes] does with the patch that follows [pre]: the loop
    body on the files as the patches of [pre] left them. *)
Lemma apply_fixes_step (repo : string) (fs : FS) (pre post : list patch)
      (fx : patch) :
  (apply_fixes repo fs (pre ++ [fx])%list).1
  = (apply_fix repo (apply_fixes repo fs pre).1 fx).1
  /\ (apply_fixes repo fs (pre ++ fx :: post)%list).2 !! length pre
     = Some (apply_fix repo (apply_fixes repo fs pre).1 fx).2.
Proof.
  rewrite !apply_fixes_app.
  pose proof (apply_fixes_length repo fs pre) as Hlen.
  destruct (apply_fixes repo fs pre) as [fs1 r1]. cbn in *.
  destruct (apply_fix repo fs1 fx) as [fs2 fx']. cbn. split.
  - reflexivity.
  - destruct (apply_fixes repo fs2 post) as [fs3 r2]. cbn.
    rewrite <- Hlen. apply list_lookup_middle. reflexivity.
Qed.

(** C1 (patch safety). A patch whose trimmed old text is not empty and
    equals, after trimming, neither the line at its index nor any other
    line of its file is marked failed by [apply_fixes], and the files on
    disk are after it what they were before it. The file is read as the
    patches before it in the list left it. *)
Theorem apply_fixes_mismatch_fails (repo : string) (fs : FS)
        (pre post : list patch) (fx : patch) :
  strip (default "" (old_code fx)) <> "" ->
  (forall content j l,
      (apply_fixes repo fs pre).1 !! os_path_join repo (file fx)
      = Some (Text content) ->
      readlines content !! j = Some l ->
      trimmed l <> strip (default "" (old_code fx))) ->
  (exists fx',
      (apply_fixes repo fs (pre ++ fx :: post)%list).2 !! length pre
      = Some fx'
      /\ status fx' = Some "failed")
  /\ (apply_fixes repo fs (pre ++ [fx])%list).1
     = (apply_fixes repo fs pre).1.
Proof.
  intros Hold Hno.
  destruct (apply_fixes_step repo fs pre post fx) as [Hfs Hres].
  destruct (apply_fix_mismatch repo _ fx Hold Hno) as [msg Hfail].
  rewrite Hfs, Hres, Hfail. cbn. eauto.
Qed.

(** The loop body on a patch whose file is readable and whose index is
    in range, once the line it settles on is known. *)
Lemma apply_fix_in_range (repo : string) (fs : FS) (fx : patch)
      (content : string) (idx : nat) :
  fs !! os_path_join repo (file fx) = Some (Text content) ->
  line fx = Z.of_nat idx + 1 ->
  (idx < length (readlines content))%nat ->
  exists l,
    readlines content !! idx = Some l
    /\ apply_fix repo fs fx
       = let lines := readlines content in
         let old := strip (default "" (old_code fx)) in
         match (if truthy old && negb (String.eqb old (trimmed l))
                then find_line old 0 lines else Some idx) with
         | None =>
             (fs, set_status "failed"
                    ("Expected '" +:+ old +:+ "' at line " +:+
                     str_of_Z (line fx) +:+ ", found '" +:+
                     rstrip_char CR (rstrip_char LF l) +:+ "'") fx)
         | Some t =>
             (<[os_path_join repo (file fx) :=
                  Text (writelines
                          match new_code fx with
                          | None | Some EmptyString => delete t lines
                          | Some new =>
                              <[t := new +:+ String LF ""]> lines
                          end)]> fs,
              set_status "applied" "Fix applied successfully" fx)
         end.
Proof.
  intros Hf Hline Hidx.
  destruct (lookup_lt_is_Some_2 (readlines content) idx Hidx) as [l Hl].
  exists l. split; [exact Hl|].
  unfold apply_fix. rewrite Hf, Hline.
  replace (Z.of_nat idx + 1 - 1) with (Z.of_nat idx) by lia.
  rewrite Nat2Z.id, Hl. cbn [default from_option id].
  replace (_ || _) with false
    by (symmetry; apply orb_false_iff; split; lia).
  rewrite strip_idempotent.
  change (strip (rstrip_char CR (rstrip_char LF l))) with (trimmed l).
  cbv zeta.
  destruct (if truthy _ && negb _ then find_line _ _ _ else Some idx)
    as [t|] eqn:Ht; [|reflexivity].
  destruct (new_code fx) as [[|c new]|]; try reflexivity.
  (* a replacement: the line read never ends with "\r\n" *)
  destruct (readlines content !! t) as [l'|] eqn:Hl'.
  - cbn [default from_option id].
    now rewrite (well_formed_no_crlf _ t l' (readlines_well_formed content)).
  - reflexivity.
Qed.

(** C4 (deletion law). A patch with an empty new text, on a readable
    file and with its index in range, whose trimmed old text equals the
    trimmed line at the index (the target is that line) or, failing
    that, is not empty and is first found, trimmed, on the line [t] (the
    target is the line [t]): the patch is applied, the file is written
    as its lines without the target and then reads as these lines, one
    line fewer, each other line as it was, and no other file changes.
    The lines are those of Python's text mode: see
    [writelines_readlines_lf] for what this means on disk. *)
Theorem deletion_removes_target_line (repo : string) (fs : FS)
        (pre post : list patch) (fx : patch) (content : string)
        (idx t : nat) :
  (new_code fx = None \/ new_code fx = Some "") ->
  (apply_fixes repo fs pre).1 !! os_path_join repo (file fx)
  = Some (Text content) ->
  line fx = Z.of_nat idx + 1 ->
  (idx < length (readlines content))%nat ->
  (exists l,
      readlines content !! idx = Some l
      /\ (trimmed l = strip (default "" (old_code fx)) /\ t = idx
          \/ trimmed l <> strip (default "" (old_code fx))
             /\ strip (default "" (old_code fx)) <> ""
             /\ (exists l', readlines content !! t = Some l'
                    /\ trimmed l' = strip (default "" (old_code fx)))
             /\ (forall j l', (j < t)%nat ->
                    readlines content !! j = Some l' ->
                    trimmed l' <> strip (default "" (old_code fx))))) ->
  exists fx' content',
    (apply_fixes repo fs (pre ++ fx :: post)%list).2 !! length pre
    = Some fx'
    /\ status fx' = Some "applied"
    /\ (apply_fixes repo fs (pre ++ [fx])%list).1
       = <[os_path_join repo (file fx) := Text content']>
           (apply_fixes repo fs pre).1
    /\ content' = writelines (delete t (readlines content))
    /\ readlines content' = delete t (readlines content)
    /\ (length (readlines content') + 1 = length (readlines content))%nat
    /\ (forall j, (j < t)%nat ->
          readlines content' !! j = readlines content !! j)
    /\ (forall j, (t <= j)%nat ->
          readlines content' !! j = readlines content !! S j).
Proof.
  intros Hnew Hf Hline Hidx (l & Hl & Htarget).
  destruct (apply_fixes_step repo fs pre post fx) as [Hfs Hres].
  destruct (apply_fix_in_range repo _ fx content idx Hf Hline Hidx)
    as (l0 & Hl0 & Hstep).
  assert (l0 = l) by congruence. subst l0.
  assert (Ht : (if truthy (strip (default "" (old_code fx)))
                   && negb (String.eqb (strip (default "" (old_code fx)))
                                       (trimmed l))
                then find_line (strip (default "" (old_code fx))) 0
                               (readlines content)
                else Some idx) = Some t).
  { destruct Htarget as [[E ->] | (Hne & Hold & (l' & Hl' & E') & Hfirst)].
    - rewrite E, String.eqb_refl. cbn [negb]. now rewrite andb_false_r.
    - apply truthy_true in Hold. rewrite Hold. cbn [andb].
      destruct (String.eqb_spec (strip (default "" (old_code fx)))
                                (trimmed l)) as [E|_]; [congruence|].
      cbn [negb].
      apply (find_line_first _ _ 0 t l' Hl').
      + now rewrite strip_idempotent.
      + intros j l'' Hj Hl''. rewrite strip_idempotent. eauto. }
  cbv zeta in Hstep. rewrite Ht in Hstep.
  assert (Hlines : match new_code fx with
                   | None | Some EmptyString => delete t (readlines content)
                   | Some new =>
                       <[t := new +:+ String LF ""]> (readlines content)
                   end = delete t (readlines content))
    by (destruct Hnew as [-> | ->]; reflexivity).
  rewrite Hlines in Hstep.
  assert (Hread : readlines (writelines (delete t (readlines content)))
                  = delete t (readlines content))
    by apply readlines_writelines, well_formed_delete,
             readlines_well_formed.
  assert (Hin : is_Some (readlines content !! t)).
  { destruct Htarget as [[_ ->] | (_ & _ & (l' & Hl' & _) & _)]; eauto. }
  eexists _, _. rewrite Hres, Hfs, Hstep. cbn [fst snd].
  split; [reflexivity|]. split; [reflexivity|]. split; [reflexivity|].
  split; [reflexivity|]. rewrite Hread. split; [reflexivity|].
  split; [|split].
  - rewrite length_delete by exact Hin.
    apply lookup_lt_is_Some in Hin. lia.
  - intros j Hj. now apply list_lookup_delete_lt.
  - intros j Hj. now apply list_lookup_delete_ge.
Qed.

End FixerTheorems.

Section FixerInstances.
Import Py Fixer Sample.

Lemma apply_fixes_mismatch_fails_witness :
  (exists fx',
      (apply_fixes "repo" workspace ([] ++ stale_fix :: [])%list).2
        !! length (@nil patch) = Some fx'
      /\ status fx' = Some "failed")
  /\ (apply_fixes "repo" workspace ([] ++ [stale_fix])%list).1
     = (apply_fixes "repo" workspace []).1.
Proof.
  apply (apply_fixes_mismatch_fails "repo" workspace [] [] stale_fix).
  - vm_compute. discriminate.
  - intros content j l Hf Hl. vm_compute in Hf. injection Hf as <-.
    destruct j as [|[|[|j]]]; vm_compute in Hl; try discriminate;
      injection Hl as <-; vm_compute; discriminate.
Defined.

Lemma deletion_removes_target_line_witness :
  exists fx' content',
    (apply_fixes "repo" workspace ([] ++ moved_deletion :: [])%list).2
      !! length (@nil patch) = Some fx'
    /\ status fx' = Some "applied"
    /\ (apply_fixes "repo" workspace ([] ++ [moved_deletion])%list).1
       = <[os_path_join "repo" (file moved_deletion) := Text content']>
           (apply_fixes "repo" workspace []).1
    /\ content' = writelines (delete 2%nat (readlines app_py))
    /\ readlines content' = delete 2%nat (readlines app_py)
    /\ (length (readlines content') + 1 = length (readlines app_py))%nat
    /\ (forall j, (j < 2)%nat ->
          readlines content' !! j = readlines app_py !! j)
    /\ (forall j, (2 <= j)%nat ->
          readlines content' !! j = readlines app_py !! S j).
Proof.
  apply (deletion_removes_target_line "repo" workspace [] []
           moved_deletion app_py 0 2).
  - right. reflexivity.
  - vm_compute. reflexivity.
  - reflexivity.
  - vm_compute. lia.
  - exists ("import os" +:+ nl). split; [vm_compute; reflexivity|].
    right. split; [vm_compute; discriminate|].
    split; [vm_compute; discriminate|]. split.
    + exists ("y = 2" +:+ nl). split; vm_compute; reflexivity.
    + intros j l' Hj Hl'.
      destruct j as [|[|j]]; [| |lia]; vm_compute in Hl';
        injection Hl' as <-; vm_compute; discriminate.
Defined.

End FixerInstances.

(** ** The deterministic detector *)

Section DetFixerTheorems.
Import Py DetFixer Sample.

Lemma range_down_pred (idx : Z) :
  range_down (idx - 1) = rev (seq 0 (Z.to_nat idx)).
Proof.
  unfold range_down. destruct (Z.ltb_spec (idx - 1) 0) as [H|H].
  - replace (Z.to_nat idx) with O by lia. reflexivity.
  - replace (S (Z.to_nat (idx - 1))) with (Z.to_nat idx) by lia.
    reflexivity.
Qed.

(** What the code measures, [len(prev) - len(prev.lstrip())], is the
    indent of the line. *)
Lemma indent_width_indent (l : string) :
  indent_width l = Z.of_nat (Spec.indent l).
Proof.
  unfold indent_width, len, lstrip.
  induction l as [|c l IH]; [reflexivity|].
  cbn [lstrip_by Spec.indent String.length].
  destruct (isspace c); cbn [String.length]; lia.
Qed.

Lemma scan_back_inferred (lines : list string) (n : nat) :
  (n <= length lines)%nat ->
  scan_back lines (rev (seq 0 n)) = Some (Spec.inferred_indent lines n).
Proof.
  unfold Spec.inferred_indent. induction n as [|n IH]; intros Hn.
  - reflexivity.
  - destruct (lookup_lt_is_Some_2 lines n) as [l Hl]; [lia|].
    rewrite seq_S, rev_app_distr. cbn [rev app Nat.add scan_back].
    rewrite Hl, (take_S_r lines n l Hl), rev_app_distr.
    cbn [rev app List.find].
    unfold Spec.indent_after, Spec.trusted, Spec.is_code,
      Spec.opens_block, Spec.conforming.
    destruct (truthy (strip l)); cbn [negb orb andb]; [|now apply IH; lia].
    destruct (startswith "#" (strip l)); cbn [negb andb];
      [now apply IH; lia|].
    rewrite indent_width_indent.
    destruct (endswith ":" (strip l)) eqn:Hcolon; cbn [orb].
    { rewrite Hcolon. do 2 f_equal. lia. }
    replace (Z.of_nat (Spec.indent l) mod 4 =? 0)
      with (Spec.indent l mod 4 =? 0)%nat.
    2:{ destruct (Nat.eqb_spec (Spec.indent l mod 4) 0) as [H|H];
          destruct (Z.eqb_spec (Z.of_nat (Spec.indent l) mod 4) 0)
            as [H'|H']; try reflexivity;
          change (Z.of_nat (Spec.indent l) mod 4)
            with (Z.of_nat (Spec.indent l) mod Z.of_nat 4) in H';
          rewrite <- (Nat2Z.inj_mod (Spec.indent l) 4) in H'; lia. }
    destruct (Spec.indent l mod 4 =? 0)%nat.
    { rewrite Hcolon. do 2 f_equal. lia. }
    apply IH. lia.
Qed.

(** C6. For every sequence of lines and every index of one of its
    lines (or the index just past the last), the indentation
    [_determine_correct_indent] returns is the one read off the nearest
    line before the index that is code and either ends with a colon
    (its indent and four spaces) or is indented by a multiple of four
    (its indent); blank lines, comments and lines with another indent
    are passed over, and with no such line the result is the empty
    indentation. The indent of a line is counted on the line itself:
    the white-space characters before its first other character. *)
Theorem determine_correct_indent_inferred (lines : list string) (idx : Z) :
  idx <= Z.of_nat (length lines) ->
  _determine_correct_indent lines idx
  = Some (Spec.inferred_indent lines (Z.to_nat idx)).
Proof.
  intros Hidx. unfold _determine_correct_indent.
  rewrite range_down_pred. apply scan_back_inferred. lia.
Qed.

Lemma determine_correct_indent_inferred_witness :
  _determine_correct_indent indented_lines 4 = Some "        ".
Proof.
  rewrite (determine_correct_indent_inferred indented_lines 4).
  - reflexivity.
  - vm_compute. discriminate.
Defined.

(** X20. Past the end of the lines the first [lines[i]] raises. *)
Lemma determine_correct_indent_out_of_range (lines : list string)
      (idx : Z) :
  Z.of_nat (length lines) < idx ->
  _determine_correct_indent lines idx = None.
Proof.
  intros Hidx. unfold _determine_correct_indent, range_down.
  destruct (Z.ltb_spec (idx - 1) 0) as [H|H]; [lia|].
  rewrite seq_S, rev_app_distr. cbn [rev app Nat.add scan_back].
  rewrite (lookup_ge_None_2 lines); [reflexivity | lia].
Qed.

Example indent_below_opener :
  _determine_correct_indent indented_lines 2 = Some "        ".
Proof. reflexivity. Qed.

Example indent_skips_bad_lines :
  _determine_correct_indent indented_lines 4 = Some "        ".
Proof. reflexivity. Qed.

(** The claim of C5 fails on the code: with an "expected ':'" message
    for line 3 and a blank line 2, the specification reaches back to the
    unterminated definition on line 1 and the code, which only reads
    line 2, proposes nothing. *)
Lemma try_fix_syntax_reads_only_the_line_before :
  _try_fix_syntax "repo/a.py" "a.py" gap_source 3 "expected ':'" = None
  /\ Spec.claimed_try_fix_syntax "a.py" gap_source 3 "expected ':'"
     = Some (colon_fix "a.py" 1 "def f(x)"
               "Add missing colon at end of function/class definition")
  /\ _try_fix_syntax "repo/a.py" "a.py" gap_source 3 "expected ':'"
     <> Spec.claimed_try_fix_syntax "a.py" gap_source 3 "expected ':'".
Proof. vm_compute. repeat split; discriminate. Qed.

(** The test of the message class is always true, its right operand
    being a non-empty literal: a message of another class gets the same
    patch. *)
Lemma try_fix_syntax_ignores_the_message :
  _try_fix_syntax "repo/a.py" "a.py" loop_source 2 "invalid syntax"
  = Some (colon_fix "a.py" 1 "while True"
            "Add missing colon at end of function/class definition")
  /\ Spec.claimed_try_fix_syntax "a.py" loop_source 2 "invalid syntax"
     = None.
Proof. vm_compute. split; reflexivity. Qed.

(** C5, amended. For a reported line of the source: when that line is
    an unterminated block opener, the colon is appended to it; when it
    is not, the message is of the "expected ':'" class and the line
    immediately before it (blank and comment lines are not passed over)
    is an unterminated block opener, the colon is appended to that line;
    when neither the reported line nor the line immediately before it is
    an unterminated block opener, no patch is emitted. *)
Theorem try_fix_syntax_line_before (fpath rel_path source : string)
        (line_no : Z) (error_msg : string) :
  1 <= line_no <= Z.of_nat (length (split LF source)) ->
  (missing_colon
     (default "" (split LF source !! Z.to_nat (line_no - 1))) = true ->
   _try_fix_syntax fpath rel_path source line_no error_msg
   = Some (colon_fix rel_path line_no
             (default "" (split LF source !! Z.to_nat (line_no - 1)))
             "Add missing colon at end of statement"))
  /\ (missing_colon
        (default "" (split LF source !! Z.to_nat (line_no - 1))) = false ->
      Spec.expected_colon error_msg = true ->
      2 <= line_no ->
      missing_colon
        (default "" (split LF source !! Z.to_nat (line_no - 2))) = true ->
      _try_fix_syntax fpath rel_path source line_no error_msg
      = Some (colon_fix rel_path (line_no - 1)
                (default "" (split LF source !! Z.to_nat (line_no - 2)))
                "Add missing colon at end of function/class definition"))
  /\ (missing_colon
        (default "" (split LF source !! Z.to_nat (line_no - 1))) = false ->
      line_no < 2
      \/ missing_colon
           (default "" (split LF source !! Z.to_nat (line_no - 2)))
         = false ->
      _try_fix_syntax fpath rel_path source line_no error_msg = None).
Proof.
  intros [Hlo Hhi]. unfold _try_fix_syntax.
  replace (_ || _) with false
    by (symmetry; apply orb_false_iff; split; lia).
  split; [|split].
  - intros ->. reflexivity.
  - intros -> Hmsg Hge ->. unfold Spec.expected_colon in Hmsg.
    rewrite Hmsg. cbn [orb].
    destruct (Z.geb_spec line_no 2); [reflexivity | lia].
  - intros -> Hprev. rewrite orb_true_r.
    destruct (Z.geb_spec line_no 2); [|reflexivity].
    destruct Hprev as [Hlt | ->]; [lia | reflexivity].
Qed.

Lemma try_fix_syntax_line_before_witness :
  _try_fix_syntax "repo/a.py" "a.py" def_source 1 "expected ':'"
  = Some (colon_fix "a.py" 1 "def f(x)"
            "Add missing colon at end of statement")
  /\ _try_fix_syntax "repo/a.py" "a.py" loop_source 2 "expected ':'"
     = Some (colon_fix "a.py" 1 "while True"
               "Add missing colon at end of function/class definition")
  /\ _try_fix_syntax "repo/a.py" "a.py" gap_source 3 "expected ':'"
     = None.
Proof.
  split; [|split].
  - apply (try_fix_syntax_line_before "repo/a.py" "a.py" def_source 1
             "expected ':'"); vm_compute; [split; discriminate|].
    reflexivity.
  - apply (try_fix_syntax_line_before "repo/a.py" "a.py" loop_source 2
             "expected ':'"); vm_compute;
      [split; discriminate | reflexivity .. | discriminate | reflexivity].
  - apply (try_fix_syntax_line_before "repo/a.py" "a.py" gap_source 3
             "expected ':'"); vm_compute;
      [split; discriminate | reflexivity | right; reflexivity].
Defined.
End DetFixerTheorems.

(** ** The matcher stays within the relation *)

Section Matcher.
Import Re ReSem.

Lemma try_counts_sound (k : mstate -> option mstate) (st : mstate)
      (ns : list nat) (m : mstate) :
  try_counts k st ns = Some m ->
  exists n, In n ns /\ k (advance n st) = Some m.
Proof.
  induction ns as [|n ns IH]; cbn [try_counts]; [discriminate|].
  destruct (k (advance n st)) as [m'|] eqn:Hk.
  - intros [= ->]. exists n. split; [now left | exact Hk].
  - intros H. destruct (IH H) as (n' & Hin & Hn'). exists n'.
    split; [now right | exact Hn'].
Qed.

Lemma counts_range (greedy : bool) (lo n x : nat) :
  In x (counts greedy lo n) -> (lo <= x <= n)%nat.
Proof.
  unfold counts. intros H.
  assert (Hseq : In x (seq lo (S n - lo)))
    by (destruct greedy; [now apply in_rev | exact H]).
  apply in_seq in Hseq. lia.
Qed.

Lemma run_sound (r : regex) :
  forall st k m,
    run r st k = Some m -> exists st', steps r st st' /\ k st' = Some m.
Proof.
  induction r as [| p | greedy lo p | r1 IH1 r2 IH2 | r1 IH1 r2 IH2
                  | i r IH | r IH | | | ];
    intros st k m; cbn [run steps].
  - eauto.
  - destruct (rest st) as [|c s'] eqn:Hrest; [discriminate|].
    destruct (p c) eqn:Hc; [|discriminate]. eauto 8.
  - intros H. apply try_counts_sound in H as (n & Hin & Hk).
    apply counts_range in Hin. exists (advance n st). split; [|exact Hk].
    exists n. repeat split; lia.
  - intros H. apply IH1 in H as (mid & H1 & H).
    apply IH2 in H as (st' & H2 & Hk). eauto.
  - destruct (run r1 st k) as [m1|] eqn:H1.
    + intros [= ->]. apply IH1 in H1 as (st' & H1 & Hk). eauto.
    + intros H. apply IH2 in H as (st' & H2 & Hk). eauto.
  - intros H. apply IH in H as (st1 & H1 & Hk). eauto.
  - destruct (run r st Some) as [st1|] eqn:H1; [|discriminate].
    intros Hk. apply IH in H1 as (st' & H1 & [= ->]). eauto.
  - destruct (Nat.eqb_spec (pos st) 0); [eauto | discriminate].
  - destruct (String.eqb_spec (rest st) "") as [E|_]; cbn [orb];
      [eauto|].
    destruct (String.eqb_spec (rest st) (String Py.LF "")) as [E|_];
      [eauto | discriminate].
  - destruct (String.eqb_spec (rest st) ""); [eauto | discriminate].
Qed.

(** A successful attempt ends in a state the pattern leads to. *)
Lemma attempt_sound (r : regex) (adv : bool) (p : nat) (s : string)
      (m : mstate) :
  attempt r adv p s = Some m -> steps r (MState p s []) m.
Proof.
  unfold attempt. intros H. apply run_sound in H as (st' & Hsteps & Hacc).
  unfold accept in Hacc. destruct (_ && _); [discriminate|].
  now injection Hacc as <-.
Qed.

Lemma search_from_sound (r : regex) (s : string) :
  forall p m,
    search_from r p s = Some m ->
    exists p' s', steps r (MState p' s' []) m.
Proof.
  induction s as [|c s IH]; intros p m; cbn [search_from];
    destruct (attempt r false p _) as [m'|] eqn:Ha.
  - intros [= ->]. eauto using attempt_sound.
  - discriminate.
  - intros [= ->]. eauto using attempt_sound.
  - apply IH.
Qed.

Lemma scan_sound (r : regex) (s : string) :
  forall skip p m,
    In m (scan r skip p s) -> exists p' s', steps r (MState p' s' []) m.
Proof.
  induction s as [|c s IH]; intros skip p m; destruct skip as [|skip];
    cbn [scan].
  - destruct (attempt r false p "") as [m1|] eqn:H1; [|intros []].
    destruct (Nat.eqb (pos m1) p).
    + destruct (attempt r true p "") as [m2|] eqn:H2; cbn [In];
        intros H; decompose [or] H; subst;
        try contradiction; eauto using attempt_sound.
    + cbn [In]. intros [<- | []]. eauto using attempt_sound.
  - intros [].
  - destruct (attempt r false p (String c s)) as [m1|] eqn:H1; [|apply IH].
    destruct (Nat.eqb (pos m1) p).
    + destruct (attempt r true p (String c s)) as [m2|] eqn:H2; cbn [In];
        intros H; decompose [or] H; subst; eauto using attempt_sound.
    + cbn [In]. intros [<- | H]; eauto using attempt_sound.
  - apply IH.
Qed.

Lemma groups_length (n : nat) (m : mstate) : length (groups n m) = n.
Proof. unfold groups. now rewrite length_map, length_seq. Qed.

(** Every tuple of [findall] has one entry per group of the pattern and
    comes from a match of the pattern. *)
Lemma findall_sound (r : regex) (s : string) (t : list string) :
  In t (findall r s) ->
  exists m p' s',
    t = groups (ngroups r) m /\ steps r (MState p' s' []) m.
Proof.
  unfold findall. intros H. apply in_map_iff in H as (m & <- & Hm).
  apply scan_sound in Hm as (p' & s' & Hsteps). eauto.
Qed.
End Matcher.

(** ** The matcher at another position, and where no match starts *)

Section MatcherPosition.
Import Re ReSem.










End MatcherPosition.

(** ** The result parser *)

Section ParserFacts.
Import Py Re ReSem TestRunner Inv.

Lemma take_run_all_in (p : cls) (s : string) :
  forall n, (n <= run_length p s)%nat -> all_in p (take n s).
Proof.
  induction s as [|c s IH]; intros [|n] Hn; cbn in *; try exact I.
  destruct (p c) eqn:Hc; [|lia]. split; [reflexivity | apply IH; lia].
Qed.

Lemma take_run_nonempty (p : cls) (s : string) (n : nat) :
  (1 <= n)%nat -> (n <= run_length p s)%nat -> take n s <> "".
Proof.
  destruct s as [|c s], n as [|n]; cbn; intros; try lia. discriminate.
Qed.

Lemma take_run_length (p : cls) (s : string) :
  forall n, (n <= run_length p s)%nat -> String.length (take n s) = n.
Proof.
  induction s as [|c s IH]; intros [|n] Hn; cbn in *;
    try reflexivity; try lia.
  destruct (p c); [|lia]. f_equal. apply IH. lia.
Qed.

Lemma int_digits_total (s : string) :
  all_in digit s -> forall acc, exists z, int_digits acc s = Some z.
Proof.
  induction s as [|c s IH]; cbn [all_in int_digits]; [eauto|].
  intros [Hc Hs] acc. unfold digit in Hc. rewrite Hc. apply IH, Hs.
Qed.

(** On what [\d+] captures, [int] returns or reports the limit. *)
Lemma int_of_digit_run (s : string) (n : nat) :
  (1 <= n)%nat -> (n <= run_length digit s)%nat ->
  only_long_numbers (int (take n s)).
Proof.
  intros Hlo Hhi. pose proof (take_run_nonempty digit s n Hlo Hhi) as Hne.
  pose proof (take_run_all_in digit s n Hhi) as Hall.
  pose proof (take_run_length digit s n Hhi) as Hlen.
  unfold int. rewrite Hlen.
  destruct (Nat.ltb_spec max_str_digits n) as [Hlong|_].
  - right. eauto.
  - left. destruct (take n s) as [|c t]; [congruence|].
    destruct (int_digits_total _ Hall 0) as [z ->]. eauto.
Qed.

Lemma only_long_bind {A B : Type} (r : result A) (f : A -> result B) :
  only_long_numbers r -> (forall a, only_long_numbers (f a)) ->
  only_long_numbers (rbind r f).
Proof.
  intros [[a ->] | (n & Hn & ->)] Hf; cbn [rbind]; [apply Hf|].
  right. eauto.
Qed.

Lemma only_long_ok {A : Type} (a : A) : only_long_numbers (Ok a).
Proof. left. eauto. Qed.

(** A match of [file_line_pattern] has its two groups, the second a run
    of digits. *)
Lemma file_line_groups (m : mstate) (p : nat) (s : string) :
  steps file_line_pattern (MState p s []) m ->
  (exists t, group_str m 1 = Ok t) /\ only_long_numbers (group_int m 2).
Proof.
  intros H. unfold file_line_pattern in H. cbn [steps seqs str plus] in H.
  destruct H as (mid1 & (st1 & _ & ->) & mid2 & (c & s' & _ & _ & ->)
                 & st2 & (n & Hlo & Hhi & ->) & ->).
  split.
  - eexists. reflexivity.
  - unfold group_int, group. cbn [caps set_cap get_cap Nat.eqb].
    match goal with
    | |- context [int (take ?k ?u)] =>
        replace k with n by (cbn [pos advance]; lia);
        exact (int_of_digit_run u n Hlo Hhi)
    end.
Qed.

(** A match of [line_pattern] has its group, a run of digits. *)
Lemma line_groups (m : mstate) (p : nat) (s : string) :
  steps line_pattern (MState p s []) m -> only_long_numbers (group_int m 1).
Proof.
  intros H. unfold line_pattern in H. cbn [steps seqs str plus] in H.
  destruct H as (mid1 & _ & mid2 & _ & st2 & (n & Hlo & Hhi & ->) & ->).
  unfold group_int, group. cbn [caps set_cap get_cap Nat.eqb].
  match goal with
  | |- context [int (take ?k ?u)] =>
      replace k with n by (cbn [pos advance]; lia);
      exact (int_of_digit_run u n Hlo Hhi)
  end.
Qed.

Lemma for_each_only_long {A B : Type} (f : A -> result B) (l : list A) :
  (forall a, In a l -> only_long_numbers (f a)) ->
  only_long_numbers (for_each f l).
Proof.
  induction l as [|a l IH]; intros H; cbn [for_each];
    [apply only_long_ok|].
  apply only_long_bind; [apply H; now left|]. intros b.
  apply only_long_bind; [apply IH; intros; apply H; now right|].
  intros bs. apply only_long_ok.
Qed.

Lemma unpack2_groups (m : mstate) :
  unpack2 (groups 2 m)
  = Ok (default "" (group m 1), default "" (group m 2)).
Proof. reflexivity. Qed.

Lemma block_failure_only_long (s : string) (t : list string) :
  In t (findall error_block_pattern s) ->
  only_long_numbers (block_failure t).
Proof.
  intros H. apply findall_sound in H as (m & _ & _ & -> & _).
  change (ngroups error_block_pattern) with 2%nat.
  unfold block_failure. rewrite unpack2_groups. cbn [rbind].
  destruct (search file_line_pattern _) as [m'|] eqn:Hs.
  - apply search_from_sound in Hs as (p' & s' & Hsteps).
    destruct (file_line_groups m' p' s' Hsteps) as [[t1 ->] Hint].
    cbn [rbind]. apply only_long_bind; [exact Hint|].
    intros z. apply only_long_ok.
  - cbn [rbind]. apply only_long_ok.
Qed.

Lemma summary_failure_ok (s : string) (t : list string) :
  In t (findall failed_pattern s) -> only_long_numbers (summary_failure t).
Proof.
  intros H. apply findall_sound in H as (m & _ & _ & -> & _).
  change (ngroups failed_pattern) with 2%nat.
  unfold summary_failure. rewrite unpack2_groups. cbn [rbind].
  apply only_long_ok.
Qed.

Lemma collection_failure_only_long (s : string) (t : list string) :
  In t (findall collection_pattern s) ->
  only_long_numbers (collection_failure t).
Proof.
  intros H. apply findall_sound in H as (m & _ & _ & -> & _).
  change (ngroups collection_pattern) with 2%nat.
  unfold collection_failure. rewrite unpack2_groups. cbn [rbind].
  destruct (search line_pattern _) as [m'|] eqn:Hs.
  - apply search_from_sound in Hs as (p' & s' & Hsteps).
    apply only_long_bind; [exact (line_groups m' p' s' Hsteps)|].
    intros z. apply only_long_ok.
  - cbn [rbind]. apply only_long_ok.
Qed.

(** X22. The parser raises nothing but the [ValueError] of [int] on a line
    number beyond the limit: no tuple fails to unpack, no group used is
    missing, and every string handed to [int] is a run of digits. *)
Lemma parse_pytest_output_raises_only_on_long_numbers
      (output repo_path : string) :
  only_long_numbers (parse_pytest_output output repo_path).
Proof.
  unfold parse_pytest_output.
  apply only_long_bind;
    [apply for_each_only_long, block_failure_only_long|].
  intros blocks. apply only_long_bind.
  - destruct blocks as [|b blocks];
      [destruct (findall failed_pattern output) as [|t ts] eqn:Hf|];
      try apply only_long_ok.
    rewrite <- Hf. apply for_each_only_long, summary_failure_ok.
  - intros errors. apply only_long_bind;
      [apply for_each_only_long, collection_failure_only_long|].
    intros more. apply only_long_ok.
Qed.

(** C8, on the code. The parser is a function of its arguments, but it
    is not total: a failure block whose line number has 4301 digits
    makes [int] raise, and nothing in the parser catches it. *)
Theorem parse_pytest_output_raises_on_long_number :
  parse_pytest_output Sample.long_number_output "repo"
  = Raise (exceeds_limit 4301).
Proof. vm_compute. reflexivity. Qed.
End ParserFacts.

Section ScenarioC.
Import Py Re ReSem TestRunner Sample.

(** Scenario C itself: the summary line alone. *)
Example scenario_c_alone :
  parse_pytest_output Spec.scenario_c_line "repo"
  = Ok [Spec.scenario_c_record].
Proof. reflexivity. Qed.














(** A run that prints the name of the test with [FAILED] in a progress
    line as well: that [FAILED] starts no summary entry. *)
Example short_summary_parses :
  parse_pytest_output short_summary "repo" = Ok [Spec.scenario_c_record].
Proof. vm_compute. reflexivity. Qed.
End ScenarioC.

(** ** The orchestrator *)

Section PipelineFacts.
Import Py Pipeline Inv.
Context {E : Type} (C : collaborators E).

Lemma within_weaken {A : Type} (a b : nat) (m : M E A) :
  (a <= b)%nat -> runs_within a m -> runs_within b m.
Proof. intros Hab Hm s. specialize (Hm s). lia. Qed.

Lemma within_bind {A B : Type} (a b : nat) (m : M E A) (f : A -> M E B) :
  runs_within a m -> (forall x, runs_within b (f x)) ->
  runs_within (a + b) (bind m f).
Proof.
  intros Hm Hf s. unfold bind. specialize (Hm s).
  destruct (m s) as [[x|e] s']; cbn in *; [|lia].
  specialize (Hf x s'). lia.
Qed.

Lemma within_ret {A : Type} (a : A) : runs_within 0 (ret (E := E) a).
Proof. intros s. cbn. lia. Qed.

Lemma within_call {A : Type} (f : outside E -> Py.result A * outside E) :
  runs_within 0 (call f).
Proof. intros s. unfold call. destruct (f (world s)). cbn. lia. Qed.

Lemma within_emit (t : string) (i : option Z) (msg : string) :
  runs_within 0 (emit (E := E) t i msg).
Proof. intros s. cbn. lia. Qed.

Lemma within_update_status (msg : string) :
  runs_within 0 (update_status (E := E) msg).
Proof. intros s. cbn. lia. Qed.

Lemma within_update (f : report -> report) :
  runs_within 0 (update (E := E) f).
Proof. intros s. cbn. lia. Qed.

Lemma within_get_result : runs_within 0 (get_result (E := E)).
Proof. intros s. cbn. lia. Qed.

Lemma within_get_deps : runs_within 0 (get_deps_installed (E := E)).
Proof. intros s. cbn. lia. Qed.

Lemma within_set_deps (b : bool) :
  runs_within 0 (set_deps_installed (E := E) b).
Proof. intros s. cbn. lia. Qed.

Lemma within_apply_fixes (repo : string) (l : list Fixer.patch) :
  runs_within 0 (apply_fixes (E := E) repo l).
Proof.
  intros s. unfold apply_fixes. destruct (Fixer.apply_fixes _ _ _).
  cbn. lia.
Qed.

Lemma within_run_tests (repo cmd : string) (skip : bool) :
  runs_within 1 (run_tests C repo cmd skip).
Proof.
  intros s. unfold run_tests. destruct (TestRunner.run_tests _ _ _ _ _ _).
  cbn. lia.
Qed.

(** Steps that leave the counter of test runs alone. *)
Ltac quiet :=
  repeat first
    [ apply within_ret | apply within_call | apply within_emit
    | apply within_update_status | apply within_update
    | apply within_get_result | apply within_get_deps
    | apply within_set_deps | apply within_apply_fixes
    | apply (within_bind 0 0); [|intros ?]
    | match goal with
      | |- runs_within _ (if ?b then _ else _) => destruct b
      | |- runs_within _ (match ?x with _ => _ end) => destruct x
      end ].

Lemma within_deterministic_pass (repo branch : string) :
  runs_within 0 (deterministic_pass C repo branch).
Proof. unfold deterministic_pass. quiet. Qed.

Lemma within_iteration_body (repo branch : string) (an : analysis)
      (it : Z) :
  runs_within 1 (iteration_body C repo branch an it).
Proof.
  unfold iteration_body.
  do 4 (apply (within_bind 0 1); [quiet | intros ?]).
  apply (within_bind 1 0); [apply within_run_tests | intros ?].
  quiet.
Qed.

Lemma within_loop (repo branch : string) (an : analysis) (range : list Z) :
  runs_within (length range) (loop C repo branch an range).
Proof.
  induction range as [|it range IH]; cbn [loop length].
  - apply within_ret.
  - apply (within_bind 1 (length range));
      [apply within_iteration_body | intros [|]].
    + apply (within_weaken 0); [lia | apply within_ret].
    + exact IH.
Qed.

Lemma within_max_iterations_reached :
  runs_within 0 (max_iterations_reached (E := E)).
Proof. unfold max_iterations_reached. quiet. Qed.

Lemma within_try_block (url team leader : string) :
  runs_within MAX_ITERATIONS (try_block C url team leader).
Proof.
  unfold try_block.
  do 12 (apply (within_bind 0 MAX_ITERATIONS); [quiet | intros ?]).
  apply (within_bind 0 MAX_ITERATIONS);
    [apply within_deterministic_pass | intros ?].
  apply (within_bind MAX_ITERATIONS 0).
  - apply (within_weaken (length (range_from_1 MAX_ITERATIONS)));
      [reflexivity | apply within_loop].
  - intros [|]; [apply within_ret | apply within_max_iterations_reached].
Qed.

Lemma within_except_clause (e : string) :
  runs_within 0 (except_clause (E := E) e).
Proof. unfold except_clause. quiet. Qed.

(** A run calls the test runner at most [MAX_ITERATIONS] times. *)
Lemma run_pipeline_test_runs (url team leader : string) (w : outside E) :
  (test_runs (run_pipeline_from C url team leader w).2
   <= MAX_ITERATIONS)%nat.
Proof.
  unfold run_pipeline_from.
  pose proof (within_try_block url team leader
                (initial_state url team leader w)) as Htry.
  destruct (try_block C url team leader _) as [[[]|e] s]; cbn in *.
  - exact Htry.
  - exact Htry.
Qed.
End PipelineFacts.

Section PipelineTheorems.
Import Py Pipeline Sample.

(** C2 (termination). Whatever the collaborators do, [run_pipeline]
    returns, and it has called the test runner at most
    [MAX_ITERATIONS + 1] times (in fact at most [MAX_ITERATIONS] times:
    the deterministic pass runs no tests). The fix provider is one of
    the collaborators, so this covers a provider that keeps proposing
    patches that cannot be applied. *)
Theorem run_pipeline_terminates_within_bound
        {E : Type} (C : collaborators E) (url team leader : string)
        (w : outside E) :
  exists (r : report) (s : pstate E),
    run_pipeline_from C url team leader w = (Ok r, s)
    /\ (test_runs s <= MAX_ITERATIONS + 1)%nat.
Proof.
  pose proof (run_pipeline_test_runs C url team leader w) as Hruns.
  assert (Hok : exists r, (run_pipeline_from C url team leader w).1 = Ok r).
  { unfold run_pipeline_from.
    destruct (match try_block C url team leader _ with
              | (Ok _, s) => _
              | (Raise e, s) => _
              end) as [u s1].
    cbn. eauto. }
  destruct Hok as [r Hr].
  destruct (run_pipeline_from C url team leader w) as [r' s].
  cbn in Hr, Hruns. subst r'. exists r, s. split; [reflexivity | lia].
Qed.

(** With [MAX_ITERATIONS = 5]: a provider whose patch never applies
    stops the run after one test run; tests that keep failing while the
    patches apply use the five test runs of the loop. *)
Example inapplicable_proposals_stop_the_run :
  let '(r, s) :=
    run_pipeline_from (staged 9 [stale_fix]) "url" "team" "lead" start in
  option_map final_status (match r with Ok x => Some x | _ => None end)
  = Some "FAILED"
  /\ test_runs s = 1%nat.
Proof. vm_compute. split; reflexivity. Qed.

Example failing_tests_use_the_whole_budget :
  let '(r, s) :=
    run_pipeline_from (staged 9 [blind_fix]) "url" "team" "lead" start in
  option_map final_status (match r with Ok x => Some x | _ => None end)
  = Some "MAX_ITERATIONS"
  /\ test_runs s = MAX_ITERATIONS.
Proof. vm_compute. split; reflexivity. Qed.

(** C3. [run_pipeline] raises nothing: it returns its report. When a
    step of the block under [try] raises, with the text [e] and leaving
    the state [s], the report has the final status ERROR, records [e]
    under the key error, and holds the iterations, the count and list
    of fixes and the count of failures that the run had recorded when
    the step raised. *)
Theorem run_pipeline_reports_exception
        {E : Type} (C : collaborators E) (url team leader : string)
        (w : outside E) :
  exists r : report,
    run_pipeline C url team leader w = Ok r
    /\ forall (e : string) (s : pstate E),
        try_block C url team leader (initial_state url team leader w)
        = (Raise e, s) ->
        final_status r = "ERROR"
        /\ error r = Some e
        /\ iterations r = iterations (result s)
        /\ total_fixes_applied r = total_fixes_applied (result s)
        /\ all_fixes r = all_fixes (result s)
        /\ total_failures_detected r = total_failures_detected (result s).
Proof.
  unfold run_pipeline, run_pipeline_from.
  destruct (try_block C url team leader _) as [[[]|e0] s0] eqn:Htry.
  - eexists. split; [reflexivity|]. intros e s [=].
  - eexists. split; [reflexivity|]. intros e s [= <- <-].
    cbn. repeat split; reflexivity.
Qed.

Lemma run_pipeline_reports_exception_witness :
  exists r : report,
    run_pipeline (staged 1 [blind_fix]) "url" "team" "lead" start = Ok r
    /\ final_status r = "ERROR"
    /\ error r = Some timed_out
    /\ map status (iterations r) = ["FIXED"]
    /\ total_fixes_applied r = 1.
Proof.
  destruct (run_pipeline_reports_exception
              (staged 1 [blind_fix]) "url" "team" "lead" start)
    as (r & Hrun & Herr).
  exists r. split; [exact Hrun|].
  destruct (Herr timed_out
              (try_block (staged 1 [blind_fix]) "url" "team" "lead"
                 (initial_state "url" "team" "lead" start)).2)
    as (Hstatus & Herror & Hiter & Hfixes & _);
    [vm_compute; reflexivity|].
  rewrite Hstatus, Herror, Hiter, Hfixes.
  repeat split; vm_compute; reflexivity.
Defined.
End PipelineTheorems.

(** ** The single-flight guard *)

Section AppTheorems.
Import App Sample.

(** A request checked while the status is running is answered 409 and
    starts no thread. *)
Lemma start_while_running_rejected (sv : server) (i : nat) (rq : request) :
  status sv = Running ->
  handlers sv !! i = Some (AtCheck rq) ->
  step_handler i sv
  = Server Running (<[i := Responded 409]> (handlers sv)) (workers sv)
           (launched sv).
Proof. intros Hst Hh. unfold step_handler. now rewrite Hh, Hst. Qed.

(** C9, on the code. The status becomes running only inside the
    background thread, after [start_run] has released the lock and
    answered. Two start requests on an idle server whose checks both
    come before the first thread has marked the run are both answered
    202, and two pipelines execute at once. *)
Theorem two_starts_launch_two_pipelines :
  let sv :=
    run_schedule [H 0; H 1; H 0; H 1; W 0; W 1; W 0; W 1]
                 (idle_with [start_request; start_request]) in
  handlers sv = [Responded 202; Responded 202]
  /\ launched sv = 2%nat
  /\ in_pipeline sv = 2%nat.
Proof. vm_compute. repeat split; reflexivity. Qed.

(** The same happens without any overlap of the two handlers: the
    second request arrives after the first was answered, before the
    thread of the first has run. *)
Lemma late_start_is_not_rejected :
  let sv :=
    run_schedule [H 0; H 0; H 1; H 1; W 0; W 0; W 1; W 1]
                 (idle_with [start_request; start_request]) in
  handlers sv = [Responded 202; Responded 202]
  /\ in_pipeline sv = 2%nat.
Proof. vm_compute. split; reflexivity. Qed.

(** Once the first thread has marked the run, the second request is
    rejected. *)
Example start_after_mark_is_rejected :
  let sv :=
    run_schedule [H 0; H 0; W 0; H 1; H 1; W 0]
                 (idle_with [start_request; start_request]) in
  handlers sv = [Responded 202; Responded 409]
  /\ launched sv = 1%nat.
Proof. vm_compute. split; reflexivity. Qed.
End AppTheorems.

(** * Further properties of the code *)

#[local] Set Warnings "-clear-no-such-hyp".

(** ** Deduplication of the proposals *)

Section DedupFacts.
Import Fixer Detector.

Lemma dedup_from_fresh (l : list patch) :
  forall seen fx, In fx (dedup_from seen l) -> key fx ∉ seen.
Proof.
  induction l as [|fx0 l IH]; intros seen fx; cbn [dedup_from]; [intros []|].
  destruct (decide _) as [Hin|Hnot]; [apply IH|].
  intros [<- | H]; [exact Hnot|].
  apply IH in H. set_solver.
Qed.

Lemma dedup_from_nodup (l : list patch) :
  forall seen, List.NoDup (map key (dedup_from seen l)).
Proof.
  induction l as [|fx0 l IH]; intros seen; cbn [dedup_from];
    [constructor|].
  destruct (decide _) as [Hin|Hnot]; [apply IH|].
  cbn [map]. constructor; [|apply IH].
  intros H. apply in_map_iff in H as (fx & Hk & Hfx).
  apply dedup_from_fresh in Hfx. rewrite Hk in Hfx. set_solver.
Qed.

Lemma dedup_from_app (l1 l2 : list patch) :
  forall seen,
    dedup_from seen (l1 ++ l2)%list
    = (dedup_from seen l1 ++ dedup_from (locations l1 ∪ seen) l2)%list.
Proof.
  induction l1 as [|fx l1 IH]; intros seen; cbn [app dedup_from].
  - f_equal. unfold locations. cbn. set_solver.
  - fold (normalized fx).
    assert (Hk : locations (fx :: l1)
                 = {[key (normalized fx)]} ∪ locations l1)
      by reflexivity.
    destruct (decide _) as [Hin|Hnot]; rewrite IH, Hk.
    + replace (({[key (normalized fx)]} ∪ locations l1) ∪ seen)
        with (locations l1 ∪ seen) by set_solver.
      reflexivity.
    + replace (({[key (normalized fx)]} ∪ locations l1) ∪ seen)
        with (locations l1 ∪ ({[key (normalized fx)]} ∪ seen))
        by set_solver.
      reflexivity.
Qed.

Lemma dedup_from_keys (l : list patch) :
  forall seen,
    list_to_set (map key (dedup_from seen l)) ∪ seen = locations l ∪ seen.
Proof.
  induction l as [|fx l IH]; intros seen; cbn [dedup_from];
    [reflexivity|].
  fold (normalized fx).
  assert (Hk : locations (fx :: l) = {[key (normalized fx)]} ∪ locations l)
    by reflexivity.
  rewrite Hk. clear Hk. destruct (decide _) as [Hin|Hnot].
  - rewrite IH. clear IH.
    set (k := key (normalized fx)) in *. set (B := locations l) in *.
    clearbody k B. set_solver.
  - cbn [map list_to_set].
    specialize (IH ({[key (normalized fx)]} ∪ seen)).
    set (A := list_to_set (map key (dedup_from _ l))) in *.
    set (B := locations l) in *. set (k := key (normalized fx)) in *.
    clearbody A B k. clear Hnot.
    assert (E : forall X : gset (string * Z),
               {[k]} ∪ X ∪ seen = X ∪ ({[k]} ∪ seen))
      by (clear; intros; set_solver).
    rewrite !E. exact IH.
Qed.

(** X1. No two fixes that survive [_deduplicate_fixes] share their pair of
    (normalized) file and line. *)
Theorem deduplicate_fixes_no_shared_location (fixes : list patch) :
  List.NoDup (map key (_deduplicate_fixes fixes)).
Proof. apply dedup_from_nodup. Qed.

(** X2. No location is lost: the pairs of file and line of the survivors are
    those of the fixes given, after normalization of the paths. *)
Theorem deduplicate_fixes_keeps_every_location (fixes : list patch)
        (k : string * Z) :
  In k (map key (_deduplicate_fixes fixes))
  <-> In k (map (fun fx => key (normalized fx)) fixes).
Proof.
  pose proof (dedup_from_keys fixes ∅) as H. unfold locations in H.
  fold (_deduplicate_fixes fixes) in H.
  assert (Hset : forall l : list (string * Z),
             k ∈ (list_to_set l ∪ ∅ : gset (string * Z)) <-> In k l).
  { intros l. rewrite elem_of_union, elem_of_list_to_set, list_elem_of_In.
    split; [intros [Hl|Hl]; [exact Hl | now apply elem_of_empty in Hl]
           | now left]. }
  rewrite <- !Hset. now rewrite H.
Qed.

Lemma dedup_first_of_location (pre post : list patch) (fx : patch) :
  (~ In (key (normalized fx)) (map (fun f => key (normalized f)) pre) ->
   In (normalized fx) (_deduplicate_fixes (pre ++ fx :: post)%list))
  /\ (In (key (normalized fx)) (map (fun f => key (normalized f)) pre) ->
      _deduplicate_fixes (pre ++ fx :: post)%list
      = _deduplicate_fixes (pre ++ post)%list).
Proof.
  unfold _deduplicate_fixes. rewrite !dedup_from_app.
  cbn [dedup_from]. fold (normalized fx).
  assert (Hk : key (normalized fx) ∈ locations pre ∪ ∅
               <-> In (key (normalized fx))
                      (map (fun f => key (normalized f)) pre)).
  { unfold locations.
    rewrite elem_of_union, elem_of_list_to_set, list_elem_of_In.
    split; [intros [Hl|Hl]; [exact Hl | now apply elem_of_empty in Hl]
           | now left]. }
  split; intros H.
  - destruct (decide _) as [Hin|Hnot]; [now apply Hk in Hin|].
    apply in_or_app. right. now left.
  - destruct (decide _) as [Hin|Hnot]; [reflexivity|].
    now apply Hk in H.
Qed.

(** X3. The first fix of a location wins: a fix whose location no earlier
    fix has survives (with its path normalized), and a fix whose location
    an earlier fix has is dropped, the result being what it would be
    without it. *)
Theorem deduplicate_fixes_first_wins (pre post : list patch) (fx : patch) :
  (~ In (key (normalized fx)) (map (fun f => key (normalized f)) pre) ->
   In (normalized fx) (_deduplicate_fixes (pre ++ fx :: post)%list))
  /\ (In (key (normalized fx)) (map (fun f => key (normalized f)) pre) ->
      _deduplicate_fixes (pre ++ fx :: post)%list
      = _deduplicate_fixes (pre ++ post)%list).
Proof. exact (dedup_first_of_location pre post fx). Qed.

(** X4. In the deterministic pass a syntax fix is never displaced by a fix
    of a later scan: the first syntax fix of a location is among the
    fixes returned, whatever the import, lint and indentation scans
    propose. *)
Theorem syntax_fixes_take_precedence
        (pre post imports lints indents : list patch) (fx : patch) :
  ~ In (key (normalized fx)) (map (fun f => key (normalized f)) pre) ->
  In (normalized fx)
     (Pipeline.fixes
        (detect_and_fix_deterministic (pre ++ fx :: post)%list
                                      imports lints indents)).
Proof.
  intros Hfirst. cbn [detect_and_fix_deterministic Pipeline.fixes].
  rewrite <- app_assoc. cbn [app].
  now apply (dedup_first_of_location pre).
Qed.
End DedupFacts.

Section DedupInstances.
Import Fixer Detector Cases.

Lemma deduplicate_fixes_first_wins_witness :
  In (normalized syntax_proposal)
     (_deduplicate_fixes
        ([other_proposal] ++ syntax_proposal :: [lint_proposal])%list)
  /\ _deduplicate_fixes
       ([other_proposal; syntax_proposal] ++ lint_proposal :: [])%list
     = _deduplicate_fixes ([other_proposal; syntax_proposal] ++ [])%list.
Proof.
  split.
  - apply (deduplicate_fixes_first_wins [other_proposal] [lint_proposal]
             syntax_proposal).
    vm_compute. intros [H|[]]. discriminate H.
  - apply (deduplicate_fixes_first_wins [other_proposal; syntax_proposal] []
             lint_proposal).
    vm_compute. right. left. reflexivity.
Defined.

Lemma syntax_fixes_take_precedence_witness :
  In (normalized syntax_proposal)
     (Pipeline.fixes
        (detect_and_fix_deterministic ([] ++ syntax_proposal :: [])%list
                                      [] [lint_proposal; other_proposal] [])).
Proof.
  apply (syntax_fixes_take_precedence [] [] [] [lint_proposal; other_proposal]
           [] syntax_proposal).
  intros [].
Defined.
End DedupInstances.

(** ** More on the patch engine *)

Section FixerMore.
Import Py Fixer Inv.

(** What one pass of the loop body can do: fail and leave the files, or
    rewrite the file of the patch and mark it applied. *)
Lemma apply_fix_cases (repo : string) (fs : FS) (fx : patch) :
  (exists msg, apply_fix repo fs fx = (fs, set_status "failed" msg fx))
  \/ (exists content content',
         fs !! os_path_join repo (file fx) = Some (Text content)
         /\ apply_fix repo fs fx
            = (<[os_path_join repo (file fx) := Text content']> fs,
               set_status "applied" "Fix applied successfully" fx)).
Proof.
  unfold apply_fix.
  destruct (fs !! os_path_join repo (file fx)) as [[content|err]|] eqn:Hf;
    [|left; eexists; reflexivity..].
  destruct (_ || _); [left; eexists; reflexivity|].
  destruct (if truthy _ && negb _ then find_line _ _ _ else Some _)
    as [t|]; [|left; eexists; reflexivity].
  right. eexists _, _. split; reflexivity.
Qed.

(** X6. [apply_fixes] creates no file and removes none: the paths on disk
    are the same after it. *)
Theorem apply_fixes_keeps_the_paths (repo : string) (fixes : list patch) :
  forall fs : FS, dom (apply_fixes repo fs fixes).1 = dom fs.
Proof.
  induction fixes as [|fx fixes IH]; intros fs; [reflexivity|].
  cbn [apply_fixes].
  assert (Hfx : dom (apply_fix repo fs fx).1 = dom fs).
  { destruct (apply_fix_cases repo fs fx)
      as [[msg ->] | (c & c' & Hf & ->)]; [reflexivity|].
    cbn. rewrite dom_insert_L.
    assert (os_path_join repo (file fx) ∈ dom fs)
      by (apply elem_of_dom; eauto).
    set (k := os_path_join repo (file fx)) in *. clearbody k.
    apply set_eq. intros x. rewrite elem_of_union, elem_of_singleton.
    split; [intros [-> | Hx]; assumption | now right]. }
  destruct (apply_fix repo fs fx) as [fs1 fx'].
  specialize (IH fs1). destruct (apply_fixes repo fs1 fixes) as [fs2 rs].
  cbn in *. congruence.
Qed.

(** X7. [apply_fixes] returns one dict per fix, in order: the fix itself with
    its status set, to applied or to failed, and a status message. *)
Theorem apply_fixes_marks_every_fix (repo : string) (fixes : list patch) :
  forall fs : FS,
    length (apply_fixes repo fs fixes).2 = length fixes
    /\ forall (i : nat) (fx : patch),
        fixes !! i = Some fx ->
        exists st msg,
          (apply_fixes repo fs fixes).2 !! i = Some (set_status st msg fx)
          /\ (st = "applied" \/ st = "failed").
Proof.
  intros fs. split; [apply apply_fixes_length|]. revert fs.
  induction fixes as [|fx0 fixes IH]; intros fs i fx Hi; [discriminate|].
  cbn [apply_fixes].
  pose proof (apply_fix_cases repo fs fx0) as Hcases.
  destruct (apply_fix repo fs fx0) as [fs1 fx'].
  specialize (IH fs1).
  destruct (apply_fixes repo fs1 fixes) as [fs2 rs]. cbn in *.
  destruct i as [|i]; cbn in *.
  - injection Hi as <-.
    destruct Hcases as [[msg [= _ ->]] | (c & c' & _ & [= _ ->])]; eauto.
  - now apply IH.
Qed.

Lemma count_status_cons (st : string) (fx : patch) (rs : list patch) :
  count_status st (fx :: rs)
  = (if decide (status fx = Some st) then 1 else 0) + count_status st rs.
Proof.
  unfold count_status. rewrite filter_cons.
  destruct (decide _); cbn [length]; lia.
Qed.

(** X8. Every fix is counted once: applied and failed add up to the number
    of fixes. *)
Theorem apply_fixes_counts_add_up (repo : string) (fixes : list patch) :
  forall fs : FS,
    count_status "applied" (apply_fixes repo fs fixes).2
    + count_status "failed" (apply_fixes repo fs fixes).2
    = Z.of_nat (length fixes).
Proof.
  induction fixes as [|fx fixes IH]; intros fs; [reflexivity|].
  cbn [apply_fixes].
  pose proof (apply_fix_cases repo fs fx) as Hcases.
  destruct (apply_fix repo fs fx) as [fs1 fx'].
  specialize (IH fs1).
  destruct (apply_fixes repo fs1 fixes) as [fs2 rs]. cbn in *.
  rewrite !count_status_cons.
  destruct Hcases as [[msg [= _ ->]] | (c & c' & _ & [= _ ->])]; cbn;
    repeat (destruct (decide _); try congruence); lia.
Qed.
End FixerMore.

Section FixerReplacement.
Import Py Fixer Inv ReSem.

Lemma well_formed_insert (ls : list string) (new : string) :
  well_formed ls -> all_in plain new ->
  forall i, well_formed (<[i := new +:+ String LF ""]> ls).
Proof.
  intros Hls Hnew.
  induction Hls as [| b Hb Hne | b ls Hb Hls IH]; intros [|i]; cbn.
  - constructor.
  - constructor.
  - apply (wf_cons new []); [exact Hnew | constructor].
  - now apply wf_last.
  - now apply wf_cons.
  - apply wf_cons; [exact Hb | apply IH].
Qed.

Lemma well_formed_lines_no_cr (ls : list string) :
  well_formed ls -> Forall (all_in not_cr) ls.
Proof.
  induction 1 as [| b Hb Hne | b ls Hb Hls IH]; constructor;
    try assumption; try constructor.
  - apply (all_in_weaken plain); [apply plain_not_cr | exact Hb].
  - apply all_in_append. split; [|now simpl].
    apply (all_in_weaken plain); [apply plain_not_cr | exact Hb].
Qed.

Lemma join_no_cr (ls : list string) :
  Forall (all_in not_cr) ls -> all_in not_cr (join ls).
Proof.
  induction 1 as [|l ls Hl Hls IH]; cbn [join]; [exact I|].
  apply all_in_append. now split.
Qed.

(** The line a patch settles on, as the code finds it: the line at the
    index when the old text is empty or equals it after trimming,
    otherwise the first line that equals the old text after trimming. *)
Lemma target_of_patch (old : string) (lines : list string) (idx t : nat)
      (l : string) :
  lines !! idx = Some l ->
  ((old = "" \/ trimmed l = old) /\ t = idx
   \/ trimmed l <> old /\ old <> ""
      /\ (exists l', lines !! t = Some l' /\ trimmed l' = old)
      /\ (forall j l', (j < t)%nat -> lines !! j = Some l' ->
                       trimmed l' <> old)) ->
  strip old = old ->
  (if truthy old && negb (String.eqb old (trimmed l))
   then find_line old 0 lines else Some idx) = Some t.
Proof.
  intros Hl [[[-> | E] ->] | (Hne & Hold & (l' & Hl' & E') & Hfirst)] Hstrip.
  - reflexivity.
  - rewrite E, String.eqb_refl. cbn [negb]. now rewrite andb_false_r.
  - apply truthy_true in Hold. rewrite Hold. cbn [andb].
    destruct (String.eqb_spec old (trimmed l)) as [E|_]; [congruence|].
    cbn [negb]. apply (find_line_first _ _ 0 t l' Hl').
    + now rewrite Hstrip.
    + intros j l'' Hj Hl''. rewrite Hstrip. eauto.
Qed.

(** X10. A replacement by a new text without line breaks, on a readable file
    and with its index in range: the patch is applied to the line at the
    index when the old text is empty or equals that line after trimming,
    and otherwise to the first line equal to the old text after
    trimming. The file then reads as its lines with the target replaced
    by the new text and a line feed: as many lines as before, every
    other line as it was. *)
Theorem replacement_changes_target_line_only
        (repo : string) (fs : FS) (pre post : list patch) (fx : patch)
        (content new : string) (idx t : nat) :
  new_code fx = Some new -> new <> "" -> all_in plain new ->
  (apply_fixes repo fs pre).1 !! os_path_join repo (file fx)
  = Some (Text content) ->
  line fx = Z.of_nat idx + 1 ->
  (idx < length (readlines content))%nat ->
  (exists l,
      readlines content !! idx = Some l
      /\ ((strip (default "" (old_code fx)) = ""
           \/ trimmed l = strip (default "" (old_code fx))) /\ t = idx
          \/ trimmed l <> strip (default "" (old_code fx))
             /\ strip (default "" (old_code fx)) <> ""
             /\ (exists l', readlines content !! t = Some l'
                    /\ trimmed l' = strip (default "" (old_code fx)))
             /\ (forall j l', (j < t)%nat ->
                    readlines content !! j = Some l' ->
                    trimmed l' <> strip (default "" (old_code fx))))) ->
  exists content',
    (apply_fixes repo fs (pre ++ fx :: post)%list).2 !! length pre
    = Some (set_status "applied" "Fix applied successfully" fx)
    /\ (apply_fixes repo fs (pre ++ [fx])%list).1
       = <[os_path_join repo (file fx) := Text content']>
           (apply_fixes repo fs pre).1
    /\ readlines content'
       = <[t := new +:+ String LF ""]> (readlines content)
    /\ length (readlines content') = length (readlines content)
    /\ readlines content' !! t = Some (new +:+ String LF "")
    /\ (forall j, j <> t ->
          readlines content' !! j = readlines content !! j).
Proof.
  intros Hnew Hne Hplain Hf Hline Hidx (l & Hl & Htarget).
  destruct (apply_fixes_step repo fs pre post fx) as [Hfs Hres].
  destruct (apply_fix_in_range repo _ fx content idx Hf Hline Hidx)
    as (l0 & Hl0 & Hstep).
  assert (l0 = l) by congruence. subst l0.
  cbv zeta in Hstep.
  rewrite (target_of_patch _ _ idx t l Hl Htarget (strip_idempotent _))
    in Hstep.
  rewrite Hnew in Hstep. destruct new as [|c new]; [congruence|].
  assert (Hread :
    readlines (writelines (<[t := String c new +:+ String LF ""]>
                             (readlines content)))
    = <[t := String c new +:+ String LF ""]> (readlines content))
    by (apply readlines_writelines, well_formed_insert;
        [apply readlines_well_formed | exact Hplain]).
  assert (Ht : (t < length (readlines content))%nat).
  { destruct Htarget as [[_ ->] | (_ & _ & (l' & Hl' & _) & _)];
      [exact Hidx | now apply lookup_lt_Some in Hl']. }
  eexists. rewrite Hres, Hfs, Hstep. cbn [fst snd].
  split; [reflexivity|]. split; [reflexivity|].
  rewrite Hread. split; [reflexivity|]. split; [apply length_insert|].
  split.
  - now apply list_lookup_insert_eq.
  - intros j Hj. apply list_lookup_insert_ne. congruence.
Qed.

(** What an applied patch wrote: the lines of the file with one line
    removed or replaced. *)
Lemma apply_fix_applied (repo : string) (fs : FS) (fx : patch) :
  status (apply_fix repo fs fx).2 = Some "applied" ->
  exists content t,
    fs !! os_path_join repo (file fx) = Some (Text content)
    /\ (apply_fix repo fs fx).1
       = <[os_path_join repo (file fx) :=
             Text (writelines
                     match new_code fx with
                     | None | Some EmptyString =>
                         delete t (readlines content)
                     | Some new =>
                         <[t := new +:+ String LF ""]> (readlines content)
                     end)]> fs.
Proof.
  intros Hst.
  destruct (fs !! os_path_join repo (file fx)) as [[content|err]|] eqn:Hf;
    [|unfold apply_fix in Hst; rewrite Hf in Hst; discriminate Hst..].
  destruct (Z.ltb_spec (line fx - 1) 0) as [Hlo|Hlo];
    [unfold apply_fix in Hst; rewrite Hf in Hst;
     destruct (Z.ltb_spec (line fx - 1) 0); [discriminate Hst | lia]|].
  destruct (Z.geb_spec (line fx - 1) (Z.of_nat (length (readlines content))))
    as [Hhi|Hhi].
  { unfold apply_fix in Hst. rewrite Hf in Hst.
    destruct (Z.geb_spec (line fx - 1)
                (Z.of_nat (length (readlines content)))); [|lia].
    rewrite orb_true_r in Hst. discriminate Hst. }
  destruct (apply_fix_in_range repo fs fx content (Z.to_nat (line fx - 1)) Hf)
    as (l & Hl & Hstep); [lia | lia |].
  rewrite Hstep in Hst |- *. cbv zeta in Hst |- *.
  destruct (if truthy _ && negb _ then find_line _ _ _ else Some _)
    as [t|]; [|discriminate Hst].
  exists content, t. split; reflexivity.
Qed.

(** X11. Where the line separator is the line feed, an applied patch whose
    new text has no carriage return leaves none in the file: a file with
    ["\r\n"] line ends comes out with ["\n"] line ends, the line ends of
    the original are not kept. *)
Theorem applied_patch_leaves_no_carriage_return
        (repo : string) (fs : FS) (pre post : list patch) (fx fx' : patch) :
  (apply_fixes repo fs (pre ++ fx :: post)%list).2 !! length pre
  = Some fx' ->
  status fx' = Some "applied" ->
  (forall new, new_code fx = Some new -> all_in not_cr new) ->
  exists content',
    (apply_fixes repo fs (pre ++ [fx])%list).1
      !! os_path_join repo (file fx) = Some (Text content')
    /\ all_in not_cr content'.
Proof.
  intros Hres Hst Hnew.
  destruct (apply_fixes_step repo fs pre post fx) as [Hfs Hres'].
  rewrite Hres' in Hres. injection Hres as <-.
  destruct (apply_fix_applied repo _ fx Hst) as (content & t & Hf & Hw).
  rewrite Hfs, Hw. eexists. split; [apply lookup_insert_eq|].
  apply join_no_cr.
  pose proof (well_formed_lines_no_cr _ (readlines_well_formed content))
    as Hlines.
  destruct (new_code fx) as [[|c new]|] eqn:Hn.
  - now apply Forall_delete.
  - apply Forall_insert; [exact Hlines|].
    apply all_in_append. split; [now apply Hnew | now simpl].
  - now apply Forall_delete.
Qed.

(** X12. A patch for a missing or unreadable file, or whose line is not one
    of the lines 1 to [len(lines)] of its file, is marked failed and the
    files stay as they are: line 0 or a negative line does not count
    from the end of the file. *)
Theorem patch_out_of_reach_fails
        (repo : string) (fs : FS) (pre post : list patch) (fx : patch) :
  (forall content,
      (apply_fixes repo fs pre).1 !! os_path_join repo (file fx)
      = Some (Text content) ->
      line fx < 1 \/ Z.of_nat (length (readlines content)) < line fx) ->
  (exists msg,
      (apply_fixes repo fs (pre ++ fx :: post)%list).2 !! length pre
      = Some (set_status "failed" msg fx))
  /\ (apply_fixes repo fs (pre ++ [fx])%list).1
     = (apply_fixes repo fs pre).1.
Proof.
  intros Hout.
  destruct (apply_fixes_step repo fs pre post fx) as [Hfs Hres].
  rewrite Hfs, Hres. clear Hfs Hres.
  set (fs1 := (apply_fixes repo fs pre).1) in *. clearbody fs1.
  unfold apply_fix.
  destruct (fs1 !! os_path_join repo (file fx)) as [[content|err]|] eqn:Hf;
    [|split; [eexists|]; reflexivity..].
  specialize (Hout content eq_refl).
  replace (_ || _) with true
    by (symmetry; apply orb_true_iff;
        destruct Hout; [left; apply Z.ltb_lt | right; apply Z.geb_le]; lia).
  split; [eexists|]; reflexivity.
Qed.
End FixerReplacement.

Section FixerMoreInstances.
Import Py Fixer Sample Cases.

Lemma apply_fixes_marks_every_fix_witness :
  exists st msg,
    (apply_fixes "repo" workspace [stale_fix; checked_fix]).2 !! 1%nat
    = Some (set_status st msg checked_fix)
    /\ (st = "applied" \/ st = "failed").
Proof.
  apply (proj2 (apply_fixes_marks_every_fix "repo" [stale_fix; checked_fix]
                  workspace) 1%nat checked_fix).
  reflexivity.
Defined.

Lemma replacement_changes_target_line_only_witness :
  exists content',
    (apply_fixes "repo" workspace ([] ++ checked_fix :: [])%list).2
      !! length (@nil patch)
    = Some (set_status "applied" "Fix applied successfully" checked_fix)
    /\ (apply_fixes "repo" workspace ([] ++ [checked_fix])%list).1
       = <[os_path_join "repo" (file checked_fix) := Text content']>
           (apply_fixes "repo" workspace []).1
    /\ readlines content'
       = <[1%nat := "x = 10" +:+ String LF ""]> (readlines app_py)
    /\ length (readlines content') = length (readlines app_py)
    /\ readlines content' !! 1%nat = Some ("x = 10" +:+ String LF "")
    /\ (forall j, j <> 1%nat ->
          readlines content' !! j = readlines app_py !! j).
Proof.
  apply (replacement_changes_target_line_only "repo" workspace [] []
           checked_fix app_py "x = 10" 1 1).
  - reflexivity.
  - discriminate.
  - vm_compute. tauto.
  - vm_compute. reflexivity.
  - reflexivity.
  - vm_compute. lia.
  - exists ("x = 1" +:+ nl). split; [vm_compute; reflexivity|].
    left. split; [right; vm_compute|]; reflexivity.
Defined.

Lemma applied_patch_leaves_no_carriage_return_witness :
  exists content',
    (apply_fixes "repo" crlf_workspace ([] ++ [checked_fix])%list).1
      !! os_path_join "repo" (file checked_fix) = Some (Text content')
    /\ ReSem.all_in Inv.not_cr content'.
Proof.
  apply (applied_patch_leaves_no_carriage_return "repo" crlf_workspace [] []
           checked_fix
           (set_status "applied" "Fix applied successfully" checked_fix)).
  - vm_compute. reflexivity.
  - reflexivity.
  - intros new [= <-]. vm_compute. tauto.
Defined.

Lemma patch_out_of_reach_fails_witness :
  (exists msg,
      (apply_fixes "repo" workspace ([] ++ zero_fix :: [])%list).2
        !! length (@nil patch)
      = Some (set_status "failed" msg zero_fix))
  /\ (apply_fixes "repo" workspace ([] ++ [zero_fix])%list).1
     = (apply_fixes "repo" workspace []).1.
Proof.
  apply (patch_out_of_reach_fails "repo" workspace [] [] zero_fix).
  intros content Hf. left. vm_compute. reflexivity.
Defined.
End FixerMoreInstances.

(** ** The patch engine on a disk that resolves paths and can refuse a
    write *)

Section DiskFacts.
Import Py Fixer.
Context {W : Type}.
Variable resolve : string -> string.
Variable write : string -> string -> W -> Disk.written * W.

(** What one pass of the loop body can do: fail before it writes and
    leave the disk; write and mark the patch applied; or catch the
    exception of the write, which leaves the file as the write left
    it. *)
Lemma disk_apply_fix_cases (repo : string) (fs : FS) (w : W) (fx : patch) :
  (exists msg,
      Disk.apply_fix resolve write repo (fs, w) fx
      = ((fs, w), set_status "failed" msg fx))
  \/ (exists content w',
         write (resolve (os_path_join repo (file fx))) content w
         = (Disk.Stored, w')
         /\ Disk.apply_fix resolve write repo (fs, w) fx
            = ((<[resolve (os_path_join repo (file fx)) := Text content]> fs,
                w'),
               set_status "applied" "Fix applied successfully" fx))
  \/ (exists content err held w',
         write (resolve (os_path_join repo (file fx))) content w
         = (Disk.Broken err held, w')
         /\ Disk.apply_fix resolve write repo (fs, w) fx
            = ((<[resolve (os_path_join repo (file fx)) := held]> fs, w'),
               set_status "failed" err fx)).
Proof.
  unfold Disk.apply_fix. cbn [fst snd].
  destruct (fs !! resolve (os_path_join repo (file fx)))
    as [[content|err]|] eqn:Hf; [|left; eexists; reflexivity..].
  destruct (_ || _); [left; eexists; reflexivity|].
  destruct (if truthy _ && negb _ then find_line _ _ _ else Some _)
    as [t|]; [|left; eexists; reflexivity].
  destruct (write _ _ w) as [[|err held] w'] eqn:Hw.
  - right. left. eexists _, _. split; [exact Hw | reflexivity].
  - right. right. eexists _, _, _, _. split; [exact Hw | reflexivity].
Qed.

(** Where paths are what they spell and every write returns, the disk
    is the file system of [Fixer]. *)
Lemma disk_without_faults (repo : string) (fixes : list patch) :
  forall (fs : FS) (w : W),
    Disk.apply_fixes (fun p => p) (fun _ _ w => (Disk.Stored, w)) repo
                     (fs, w) fixes
    = (((apply_fixes repo fs fixes).1, w), (apply_fixes repo fs fixes).2).
Proof.
  induction fixes as [|fx fixes IH]; intros fs w; [reflexivity|].
  cbn [Disk.apply_fixes apply_fixes].
  assert (Hfx : Disk.apply_fix (fun p => p) (fun _ _ w => (Disk.Stored, w))
                               repo (fs, w) fx
                = (((apply_fix repo fs fx).1, w), (apply_fix repo fs fx).2)).
  { unfold Disk.apply_fix, apply_fix. cbn [fst snd].
    destruct (fs !! os_path_join repo (file fx)) as [[content|err]|];
      [|reflexivity..].
    destruct (_ || _); [reflexivity|].
    destruct (if truthy _ && negb _ then find_line _ _ _ else Some _);
      reflexivity. }
  rewrite Hfx. destruct (apply_fix repo fs fx) as [fs1 fx']. cbn [fst snd].
  rewrite IH. destruct (apply_fixes repo fs1 fixes) as [fs2 rs].
  reflexivity.
Qed.

(** X5. [apply_fixes] changes no file but those the paths of its patches
    resolve to, whether its writes return or raise. *)
Theorem apply_fixes_frame (repo : string) (fixes : list patch) :
  forall (fs : FS) (w : W) (k : string),
    (forall fx, In fx fixes -> resolve (os_path_join repo (file fx)) <> k) ->
    (Disk.apply_fixes resolve write repo (fs, w) fixes).1.1 !! k = fs !! k.
Proof.
  induction fixes as [|fx fixes IH]; intros fs w k Hk; [reflexivity|].
  cbn [Disk.apply_fixes].
  assert (Hfx : (Disk.apply_fix resolve write repo (fs, w) fx).1.1 !! k
                = fs !! k).
  { destruct (disk_apply_fix_cases repo fs w fx)
      as [[msg ->] | [(c & w' & _ & ->) | (c & e & l & w' & _ & ->)]];
      [reflexivity | |]; cbn [fst snd];
      apply lookup_insert_ne; apply Hk; now left. }
  destruct (Disk.apply_fix resolve write repo (fs, w) fx) as [[fs1 w1] fx'].
  specialize (IH fs1 w1 k (fun f Hf => Hk f (or_intror Hf))).
  destruct (Disk.apply_fixes resolve write repo (fs1, w1) fixes)
    as [[fs2 w2] rs].
  cbn [fst snd] in *. congruence.
Qed.

(** X9. When [apply_fixes] reports no fix as applied, a file differs
    from before only where a write raised: some patch of the list
    resolves to that file, the write of the engine to it, on the disk
    the patches before left, raised, and the patch is reported failed
    with the text of that exception. So the files are as they were
    when no write raises, and a write that raises can leave a file cut
    although nothing is reported applied. *)
Theorem apply_fixes_none_applied (repo : string) (fixes : list patch) :
  forall (fs : FS) (w : W),
    count_status "applied"
                 (Disk.apply_fixes resolve write repo (fs, w) fixes).2 = 0 ->
    forall k : string,
      (Disk.apply_fixes resolve write repo (fs, w) fixes).1.1 !! k = fs !! k
      \/ exists (i : nat) (fx : patch) (content err : string) (held : node)
                (w' : W),
          fixes !! i = Some fx
          /\ resolve (os_path_join repo (file fx)) = k
          /\ write k content
                   (Disk.apply_fixes resolve write repo (fs, w)
                                     (firstn i fixes)).1.2
             = (Disk.Broken err held, w')
          /\ (Disk.apply_fixes resolve write repo (fs, w) fixes).2 !! i
             = Some (set_status "failed" err fx).
Proof.
  induction fixes as [|fx fixes IH]; intros fs w Hc k; [now left|].
  assert (Hshift :
            forall fs1 w1 fx' rs,
              Disk.apply_fix resolve write repo (fs, w) fx
              = ((fs1, w1), fx') ->
              (exists (i : nat) (fx0 : patch) (content err : string)
                      (held : node) (w' : W),
                  fixes !! i = Some fx0
                  /\ resolve (os_path_join repo (file fx0)) = k
                  /\ write k content
                           (Disk.apply_fixes resolve write repo (fs1, w1)
                                             (firstn i fixes)).1.2
                     = (Disk.Broken err held, w')
                  /\ rs !! i = Some (set_status "failed" err fx0)) ->
              exists (i : nat) (fx0 : patch) (content err : string)
                     (held : node) (w' : W),
                (fx :: fixes) !! i = Some fx0
                /\ resolve (os_path_join repo (file fx0)) = k
                /\ write k content
                         (Disk.apply_fixes resolve write repo (fs, w)
                                           (firstn i (fx :: fixes))).1.2
                   = (Disk.Broken err held, w')
                /\ (fx' :: rs) !! i = Some (set_status "failed" err fx0)).
  { intros fs1 w1 fx' rs Hfx
           (i & fx0 & c & e & l & w' & H1 & H2 & H3 & H4).
    exists (S i), fx0, c, e, l, w'. repeat split; try assumption.
    cbn [firstn Disk.apply_fixes]. rewrite Hfx.
    destruct (Disk.apply_fixes resolve write repo (fs1, w1) (firstn i fixes))
      as [[fs2 w2] rs2].
    exact H3. }
  revert Hc Hshift. cbn [Disk.apply_fixes].
  pose proof (disk_apply_fix_cases repo fs w fx) as Hcases.
  destruct (Disk.apply_fix resolve write repo (fs, w) fx) as [[fs1 w1] fx'].
  specialize (IH fs1 w1).
  destruct (Disk.apply_fixes resolve write repo (fs1, w1) fixes)
    as [[fs2 w2] rs].
  cbn [fst snd] in *. rewrite count_status_cons.
  assert (0 <= count_status "applied" rs) by (unfold count_status; lia).
  intros Hc Hshift. specialize (Hshift fs1 w1 fx' rs eq_refl).
  destruct Hcases
    as [[msg [= -> -> ->]]
       | [(c & w' & _ & [= _ _ ->])
         | (c & e & l & w' & Hw & [= -> -> ->])]];
    cbn [status set_status] in Hc; destruct (decide _); try congruence;
    try lia.
  - destruct (IH ltac:(lia) k) as [-> | Hex]; [now left | right; auto].
  - destruct (decide (resolve (os_path_join repo (file fx)) = k))
      as [Hk | Hk].
    + right. exists 0%nat, fx, c, e, l, w'. rewrite <- Hk.
      now repeat split.
    + destruct (IH ltac:(lia) k) as [-> | Hex]; [|right; auto].
      left. now apply lookup_insert_ne.
Qed.
End DiskFacts.

Section DiskInstances.
Import Py Fixer Sample DiskCases.

(** A patch that spells its file ["./app.py"] rewrites [repo/app.py]. *)
Example dotted_path_is_resolved :
  Disk.apply_fixes skip_dots stores "repo" (two_files, tt) [dotted_fix]
  = ((<["repo/app.py" :=
          Text ("import os" +:+ nl +:+ "x = 10" +:+ nl +:+ "y = 2" +:+ nl)]>
        two_files, tt),
     [set_status "applied" "Fix applied successfully" dotted_fix]).
Proof. vm_compute. reflexivity. Qed.

(** A write that raises leaves the file emptied and the patch failed. *)
Example refused_write_cuts_the_file :
  Disk.apply_fixes skip_dots no_room "repo" (two_files, tt) [dotted_fix]
  = ((<["repo/app.py" := Text ""]> two_files, tt),
     [set_status "failed" "[Errno 28] No space left on device"
                 dotted_fix]).
Proof. vm_compute. reflexivity. Qed.

Lemma apply_fixes_frame_witness :
  (Disk.apply_fixes skip_dots stores "repo" (two_files, tt)
                    [dotted_fix; stale_fix]).1.1 !! "repo/lib.py"
  = Some (Text "y = 2").
Proof.
  rewrite (apply_fixes_frame skip_dots stores "repo"
             [dotted_fix; stale_fix] two_files tt "repo/lib.py").
  - reflexivity.
  - intros fx [<-|[<-|[]]]; vm_compute; discriminate.
Defined.

Lemma apply_fixes_none_applied_witness :
  (Disk.apply_fixes skip_dots no_room "repo" (two_files, tt)
                    [stale_fix; dotted_fix]).1.1 !! "repo/app.py"
  = two_files !! "repo/app.py"
  \/ exists (i : nat) (fx : patch) (content err : string) (held : node)
            (w' : unit),
      [stale_fix; dotted_fix] !! i = Some fx
      /\ skip_dots (os_path_join "repo" (file fx)) = "repo/app.py"
      /\ no_room "repo/app.py" content
                 (Disk.apply_fixes skip_dots no_room "repo" (two_files, tt)
                                   (firstn i [stale_fix; dotted_fix])).1.2
         = (Disk.Broken err held, w')
      /\ (Disk.apply_fixes skip_dots no_room "repo" (two_files, tt)
                           [stale_fix; dotted_fix]).2 !! i
         = Some (set_status "failed" err fx).
Proof.
  apply (apply_fixes_none_applied skip_dots no_room "repo"
           [stale_fix; dotted_fix] two_files tt).
  vm_compute. reflexivity.
Defined.
End DiskInstances.


(** ** What a run records in its report *)

Section LedgerFacts.
Import Py Pipeline Ledger.
Context {E : Type} (C : collaborators E).

Lemma count_status_app (st : string) (a b : list Fixer.patch) :
  Fixer.count_status st (a ++ b)
  = Fixer.count_status st a + Fixer.count_status st b.
Proof.
  unfold Fixer.count_status. rewrite filter_app, length_app. lia.
Qed.

Lemma count_status_nonneg (st : string) (a : list Fixer.patch) :
  0 <= Fixer.count_status st a.
Proof. unfold Fixer.count_status. lia. Qed.

Lemma apply_fixes_marked (repo : string) (fixes : list Fixer.patch) :
  forall fs : Fixer.FS, Forall marked (Fixer.apply_fixes repo fs fixes).2.
Proof.
  induction fixes as [|fx fixes IH]; intros fs; [constructor|].
  cbn [Fixer.apply_fixes].
  pose proof (apply_fix_cases repo fs fx) as Hcases.
  destruct (Fixer.apply_fix repo fs fx) as [fs1 fx'].
  specialize (IH fs1).
  destruct (Fixer.apply_fixes repo fs1 fixes) as [fs2 rs]. cbn in *.
  constructor; [|exact IH].
  destruct Hcases as [[msg [= _ ->]] | (c & c' & _ & [= _ ->])];
    [right | left]; reflexivity.
Qed.

Lemma extends_refl (r : report) : extends r r [] [].
Proof.
  unfold extends. rewrite !app_nil_r.
  repeat split; try constructor. unfold Fixer.count_status. cbn. lia.
Qed.

Lemma extends_trans (r1 r2 r3 : report) (its1 its2 : list iteration)
      (fxs1 fxs2 : list Fixer.patch) :
  extends r1 r2 its1 fxs1 -> extends r2 r3 its2 fxs2 ->
  extends r1 r3 (its1 ++ its2) (fxs1 ++ fxs2).
Proof.
  intros (Hi1 & Hf1 & Hn1 & He1 & Hm1 & Hc1)
         (Hi2 & Hf2 & Hn2 & He2 & Hm2 & Hc2).
  unfold extends.
  rewrite Hi2, Hi1, Hf2, Hf1, Hn2, Hn1, He2, He1, count_status_app,
    !app_assoc.
  repeat split; try apply Forall_app; auto; lia.
Qed.

(** The rules of the steps. *)
Lemma wp_bind {A B : Type} (m : M E A) (f : A -> M E B)
      (Q : Py.result B -> pstate E -> Prop) (s : pstate E) :
  wp m (fun r s' => match r with
                    | Ok a => wp (f a) Q s'
                    | Raise e => Q (Raise e) s'
                    end) s ->
  wp (bind m f) Q s.
Proof. unfold wp, bind. destruct (m s) as [[a|e] s']; exact id. Qed.

Lemma wp_mono {A : Type} (m : M E A) (Q Q' : Py.result A -> pstate E -> Prop)
      (s : pstate E) :
  wp m Q s -> (forall r s', Q r s' -> Q' r s') -> wp m Q' s.
Proof. unfold wp. auto. Qed.

Lemma wp_ret {A : Type} (a : A) (Q : Py.result A -> pstate E -> Prop)
      (s : pstate E) :
  Q (Ok a) s -> wp (ret a) Q s.
Proof. exact id. Qed.

Lemma wp_emit (t : string) (i : option Z) (msg : string)
      (Q : Py.result unit -> pstate E -> Prop) (s : pstate E) :
  Q (Ok tt) (PState (world s) (result s) (deps_installed s) (test_runs s)
                    (Emit t i msg :: events s)) ->
  wp (emit t i msg) Q s.
Proof. exact id. Qed.

Lemma wp_update_status (msg : string)
      (Q : Py.result unit -> pstate E -> Prop) (s : pstate E) :
  Q (Ok tt) (PState (world s) (result s) (deps_installed s) (test_runs s)
                    (Status msg :: events s)) ->
  wp (update_status msg) Q s.
Proof. exact id. Qed.

Lemma wp_update (f : report -> report)
      (Q : Py.result unit -> pstate E -> Prop) (s : pstate E) :
  Q (Ok tt) (PState (world s) (f (result s)) (deps_installed s)
                    (test_runs s) (events s)) ->
  wp (update f) Q s.
Proof. exact id. Qed.

Lemma wp_get_result (Q : Py.result report -> pstate E -> Prop) (s : pstate E) :
  Q (Ok (result s)) s -> wp get_result Q s.
Proof. exact id. Qed.

Lemma wp_get_deps (Q : Py.result bool -> pstate E -> Prop) (s : pstate E) :
  Q (Ok (deps_installed s)) s -> wp get_deps_installed Q s.
Proof. exact id. Qed.

Lemma wp_set_deps (b : bool) (Q : Py.result unit -> pstate E -> Prop)
      (s : pstate E) :
  Q (Ok tt) (PState (world s) (result s) b (test_runs s) (events s)) ->
  wp (set_deps_installed b) Q s.
Proof. exact id. Qed.

Lemma wp_call {A : Type} (f : outside E -> Py.result A * outside E)
      (Q : Py.result A -> pstate E -> Prop) (s : pstate E) :
  (forall r w,
      Q r (PState w (result s) (deps_installed s) (test_runs s)
                  (events s))) ->
  wp (call f) Q s.
Proof.
  intros H. unfold wp, call. destruct (f (world s)) as [r w]. apply H.
Qed.

Lemma wp_run_tests (repo cmd : string) (skip : bool)
      (Q : Py.result TestRunner.test_results -> pstate E -> Prop)
      (s : pstate E) :
  (forall r w,
      Q r (PState w (result s) (deps_installed s) (S (test_runs s))
                  (events s))) ->
  wp (run_tests C repo cmd skip) Q s.
Proof.
  intros H. unfold wp, run_tests.
  destruct (TestRunner.run_tests _ _ _ _ _ _) as [r w]. apply H.
Qed.

Lemma wp_apply_fixes (repo : string) (l : list Fixer.patch)
      (Q : Py.result (list Fixer.patch) -> pstate E -> Prop) (s : pstate E) :
  (forall applied w,
      Forall marked applied ->
      Q (Ok applied) (PState w (result s) (deps_installed s) (test_runs s)
                             (events s))) ->
  wp (apply_fixes repo l) Q s.
Proof.
  intros H. unfold wp, apply_fixes.
  pose proof (apply_fixes_marked repo l (fs (world s))) as Hm.
  destruct (Fixer.apply_fixes _ _ _) as [fs' applied]. now apply H.
Qed.

(** Runs a step symbolically, down to the states it can end in. *)
Ltac exec_step :=
  lazymatch goal with
  | |- wp (bind _ _) _ _ => apply wp_bind
  | |- wp (ret _) _ _ => apply wp_ret
  | |- wp (emit _ _ _) _ _ => apply wp_emit
  | |- wp (update_status _) _ _ => apply wp_update_status
  | |- wp (update _) _ _ => apply wp_update
  | |- wp get_result _ _ => apply wp_get_result
  | |- wp get_deps_installed _ _ => apply wp_get_deps
  | |- wp (set_deps_installed _) _ _ => apply wp_set_deps
  | |- wp (call _) _ _ => apply wp_call; intros [?a|?e] ?w
  | |- wp (run_tests _ _ _ _) _ _ =>
      apply wp_run_tests; intros [?tr|?e] ?w
  | |- wp (apply_fixes _ _) _ _ =>
      apply wp_apply_fixes; intros ?applied ?w ?Hmarked
  | |- wp (if ?b then _ else _) _ _ => destruct b eqn:?
  | |- wp (match ?x with _ => _ end) _ _ => destruct x eqn:?
  end.

Ltac exec :=
  cbn [world result deps_installed test_runs events];
  repeat (exec_step; cbn [world result deps_installed test_runs events]).

(** How the assignments to the report extend it. *)
Lemma extends_set_final_status (r r' : report) (st : string)
      (its : list iteration) (fxs : list Fixer.patch) :
  extends r r' its fxs -> extends r (set_final_status st r') its fxs.
Proof. exact id. Qed.

Lemma extends_add_failures (r r' : report) (n : Z)
      (its : list iteration) (fxs : list Fixer.patch) :
  extends r r' its fxs -> extends r (add_failures n r') its fxs.
Proof. exact id. Qed.

Lemma extends_set_analysis (r r' : report) (a : analysis)
      (its : list iteration) (fxs : list Fixer.patch) :
  extends r r' its fxs -> extends r (set_analysis a r') its fxs.
Proof. exact id. Qed.

Lemma extends_set_branch_name (r r' : report) (b : string)
      (its : list iteration) (fxs : list Fixer.patch) :
  extends r r' its fxs -> extends r (set_branch_name b r') its fxs.
Proof. exact id. Qed.

Lemma extends_append (r r' : report) (e : iteration)
      (its : list iteration) (fxs : list Fixer.patch) :
  committed_iff_applied e -> extends r r' its fxs ->
  extends r (append_iteration e r') (its ++ [e]) fxs.
Proof.
  intros He H.
  apply (extends_trans r r' (append_iteration e r') its [e] fxs []) in H.
  - now rewrite app_nil_r in H.
  - unfold extends. cbn. rewrite app_nil_r.
    repeat split; auto. unfold Fixer.count_status. cbn. lia.
Qed.

Lemma extends_add_fixes (r r' : report) (l : list Fixer.patch)
      (its : list iteration) (fxs : list Fixer.patch) :
  Forall marked l -> extends r r' its fxs ->
  extends r (add_fixes (Fixer.count_status "applied" l) l r') its
          (fxs ++ l).
Proof.
  intros Hl H.
  apply (extends_trans r r'
           (add_fixes (Fixer.count_status "applied" l) l r') its [] fxs l)
    in H.
  - now rewrite app_nil_r in H.
  - unfold extends. cbn. rewrite app_nil_r. repeat split; auto.
Qed.

Ltac extended :=
  repeat first
    [ apply extends_refl
    | apply extends_set_final_status | apply extends_add_failures
    | apply extends_set_analysis | apply extends_set_branch_name
    | eapply extends_add_fixes; [eassumption|]
    | eapply extends_append ].

Lemma committed_none (e : iteration) :
  commit e = None -> applied_in e = 0 -> committed_iff_applied e.
Proof.
  unfold committed_iff_applied. intros -> ->. split; [intros [c [=]] | lia].
Qed.

Lemma committed_some (e : iteration) (c : commit_result) :
  commit e = Some c -> applied_in e <> 0 -> committed_iff_applied e.
Proof.
  unfold committed_iff_applied, applied_in. intros -> Hn.
  pose proof (count_status_nonneg "applied" (fixes_applied e)).
  split; [lia | eauto].
Qed.

Lemma iteration_body_effect (repo branch : string) (an : analysis)
      (it : Z) (s : pstate E) :
  wp (iteration_body C repo branch an it) (body_effect it s) s.
Proof.
  unfold iteration_body. exec.
  all: unfold body_effect; cbn [test_runs result]; (split; [reflexivity|]).
  all: eexists _, _; split; [extended|].
  all: try (apply committed_none; [reflexivity|];
            unfold applied_in; cbn [fixes_applied];
            first [reflexivity | now apply Z.eqb_eq]).
  all: try (eapply committed_some; [reflexivity|];
            unfold applied_in; cbn [fixes_applied]; now apply Z.eqb_neq).
  all: cbn [app]; try (split; reflexivity).
  all: eexists; (split; [reflexivity|]); (split; [reflexivity|]).
  all: try (split; reflexivity).
  - left. apply andb_prop in Heqb as [Hf He].
    apply Z.eqb_eq in Hf, He. cbn.
    repeat split; [assumption|]. apply nil_length_inv. lia.
  - right. cbn. split; [reflexivity|]. split; [now left | reflexivity].
  - right. cbn. split; [reflexivity|].
    split; [now right | now apply Z.eqb_eq].
Qed.

Lemma deterministic_pass_effect (repo branch : string) (s : pstate E) :
  wp (deterministic_pass C repo branch) (pass_effect s) s.
Proof.
  unfold deterministic_pass. exec.
  all: unfold pass_effect; cbn [test_runs result];
    (split; [reflexivity|]); (split; [reflexivity|]).
  all: eexists _, _; split; [extended|].
  all: try (eapply committed_some; [reflexivity|];
            unfold applied_in; cbn [fixes_applied];
            match goal with
            | H : (_ >? 0) = true |- _ => apply Z.gtb_lt in H; lia
            end).
  all: cbn; first [apply sublist_nil_l | reflexivity].
Qed.

Lemma loop_effect_holds (repo branch : string) (an : analysis)
      (range : list Z) :
  forall s : pstate E, wp (loop C repo branch an range) (loop_effect range s) s.
Proof.
  induction range as [|it range IH]; intros s; cbn [loop].
  - apply wp_ret. exists [], []. split; [apply extends_refl|].
    split; [constructor|]. cbn. repeat split; [lia | constructor].
  - apply wp_bind.
    eapply wp_mono; [apply iteration_body_effect|].
    intros r s1 (Hruns & its1 & fxs1 & Hext & Hr).
    destruct r as [[|]|e].
    + destruct Hr as (e & -> & Hidx & Hstop).
      apply wp_ret. exists [e], fxs1. split; [exact Hext|]. split.
      * cbn. rewrite Hidx. apply sublist_skip, sublist_nil_l.
      * exists [], e. now split.
    + destruct Hr as (e & -> & Hidx & Hst & Hfinal).
      eapply wp_mono; [apply IH|].
      intros r s2 (its2 & fxs2 & Hext2 & Hsub & Hr).
      exists ([e] ++ its2)%list, (fxs1 ++ fxs2)%list.
      split; [exact (extends_trans _ _ _ _ _ _ _ Hext Hext2)|]. split.
      * cbn. rewrite Hidx. now apply sublist_skip.
      * destruct r as [[|]|e'].
        -- destruct Hr as (pre & e' & -> & Hstop).
           exists (e :: pre), e'. now split.
        -- destruct Hr as (Hruns2 & Hmap & Hall & Hfinal2).
           cbn [length app map]. rewrite Hruns2, Hruns, Hmap, Hidx.
           repeat split; [lia | now constructor | congruence].
        -- congruence.
    + destruct Hr as [-> Hfinal].
      exists [], fxs1. split; [exact Hext|].
      split; [apply sublist_nil_l | exact Hfinal].
Qed.

Lemma try_block_effect (url team leader : string) (s : pstate E) :
  final_status (result s) = "RUNNING" ->
  wp (try_block C url team leader) (try_effect s) s.
Proof.
  intros Hrun. unfold try_block. exec.
  2-4: exists [], []; (split; [extended|]);
       (split; [apply sublist_nil_l | exact Hrun]).
  eapply wp_mono; [apply deterministic_pass_effect|].
  intros r s1 (Hruns1 & Hfinal1 & its1 & fxs1 & Hext1 & Hsub1).
  cbn [test_runs result] in Hruns1, Hfinal1, Hext1.
  assert (Hext1' : extends (result s) (result s1) its1 fxs1) by exact Hext1.
  assert (Hrun1 : final_status (result s1) = "RUNNING") by
    (rewrite Hfinal1; exact Hrun).
  clear Hext1 Hfinal1.
  destruct r as [[]|e].
  2:{ exists its1, fxs1. split; [exact Hext1'|]. split; [|exact Hrun1].
      apply (sublist_inserts_r (range_from_1 MAX_ITERATIONS) _ [0] Hsub1). }
  apply wp_bind.
  eapply wp_mono; [apply loop_effect_holds|].
  intros r s2 (its2 & fxs2 & Hext2 & Hsub2 & Hr).
  pose proof (extends_trans _ _ _ _ _ _ _ Hext1' Hext2) as Hext.
  pose proof (sublist_app _ _ _ _ Hsub1 Hsub2) as Hsub.
  rewrite <- map_app in Hsub.
  destruct r as [[|]|e].
  - apply wp_ret. exists (its1 ++ its2)%list, (fxs1 ++ fxs2)%list.
    split; [exact Hext|]. split; [exact Hsub|]. left.
    destruct Hr as (pre & e & -> & Hstop).
    exists (its1 ++ pre)%list, e. now rewrite app_assoc.
  - destruct Hr as (Hruns2 & Hmap & Hall & Hfinal2).
    unfold max_iterations_reached. exec.
    + exists (its1 ++ its2)%list, (fxs1 ++ fxs2)%list.
      split; [extended; exact Hext|]. split; [exact Hsub|]. right.
      cbn. split; [reflexivity|]. split.
      * rewrite Hruns2, Hruns1. reflexivity.
      * now exists its1, its2.
    + rewrite Hfinal2, Hrun1 in Heqb. discriminate Heqb.
  - exists (its1 ++ its2)%list, (fxs1 ++ fxs2)%list.
    split; [exact Hext|]. split; [exact Hsub|]. congruence.
Qed.

(** A run ends in the state the block under [try] left, or in that
    state with the error recorded. *)
Lemma run_pipeline_from_try (url team leader : string) (w : outside E) :
  exists s : pstate E,
    run_pipeline_from C url team leader w = (Ok (result s), s)
    /\ test_runs s
       = test_runs
           (try_block C url team leader (initial_state url team leader w)).2
    /\ result s
       = match (try_block C url team leader
                  (initial_state url team leader w)).1 with
         | Ok _ =>
             result (try_block C url team leader
                       (initial_state url team leader w)).2
         | Raise e =>
             set_error e
               (set_final_status "ERROR"
                  (result (try_block C url team leader
                             (initial_state url team leader w)).2))
         end.
Proof.
  exists (run_pipeline_from C url team leader w).2.
  unfold run_pipeline_from.
  destruct (try_block C url team leader _) as [[[]|e] s]; cbn;
    (split; [reflexivity|]; split; reflexivity).
Qed.

(** What every run leaves in its report. *)
Lemma run_pipeline_report (url team leader : string) (w : outside E) :
  exists (s : pstate E) (o : Py.result unit) (s1 : pstate E),
    run_pipeline_from C url team leader w = (Ok (result s), s)
    /\ try_block C url team leader (initial_state url team leader w)
       = (o, s1)
    /\ test_runs s = test_runs s1
    /\ iterations (result s) = iterations (result s1)
    /\ all_fixes (result s) = all_fixes (result s1)
    /\ total_fixes_applied (result s) = total_fixes_applied (result s1)
    /\ match o with
       | Ok _ => final_status (result s) = final_status (result s1)
                 /\ error (result s) = None
       | Raise e => final_status (result s) = "ERROR"
                    /\ error (result s) = Some e
       end
    /\ try_effect (initial_state url team leader w) o s1.
Proof.
  destruct (run_pipeline_from_try url team leader w) as (s & Hrun & Ht & Hr).
  pose proof (try_block_effect url team leader
                (initial_state url team leader w) eq_refl) as Heff.
  unfold wp in Heff.
  destruct (try_block C url team leader _) as [o s1] eqn:Htry.
  cbn [fst snd] in *.
  exists s, o, s1. split; [exact Hrun|]. split; [reflexivity|].
  split; [exact Ht|]. rewrite Hr.
  destruct o as [[]|e]; cbn; repeat split; try exact Heff.
  destruct Heff as (its & fxs & (_ & _ & _ & He & _) & _). exact He.
Qed.

(** The events of a run. *)
Lemma wp_conj {A : Type} (m : M E A)
      (Q Q' : Py.result A -> pstate E -> Prop) (s : pstate E) :
  wp m Q s -> wp m Q' s -> wp m (fun r s' => Q r s' /\ Q' r s') s.
Proof. unfold wp. now split. Qed.

(** The events added to [base], read off the list. *)
Ltac added l base :=
  lazymatch l with
  | base => constr:(@nil event)
  | ?e :: ?l' => let r := added l' base in constr:(e :: r)
  end.

Ltac quiet_events :=
  repeat (constructor; [first [exact I | split; discriminate]|]);
  constructor.

Ltac emitted :=
  cbn [events result];
  lazymatch goal with
  | |- exists new, ?l = (new ++ ?base)%list /\ _ =>
      let n := added l base in exists n
  end;
  split; [reflexivity|].

Lemma iteration_body_emits (repo branch : string) (an : analysis)
      (it : Z) (s : pstate E) :
  wp (iteration_body C repo branch an it) (emits s) s.
Proof.
  unfold iteration_body. exec.
  all: unfold emits; emitted; (split; [quiet_events|]); try exact I.
  all: eexists _, _, _, _; (split; [reflexivity|]);
    cbn [final_status set_final_status]; unfold closing.
  - left. now split.
  - right. left. split; [reflexivity | now left].
  - right. left. split; [reflexivity | now right].
Qed.

Lemma deterministic_pass_emits (repo branch : string) (s : pstate E) :
  wp (deterministic_pass C repo branch) (emits_quietly s) s.
Proof.
  unfold deterministic_pass. exec.
  all: unfold emits_quietly; emitted; quiet_events.
Qed.

Lemma loop_emits (repo branch : string) (an : analysis) (range : list Z) :
  forall s : pstate E, wp (loop C repo branch an range) (emits s) s.
Proof.
  induction range as [|it range IH]; intros s; cbn [loop].
  - apply wp_ret. exists []. repeat split. constructor.
  - apply wp_bind.
    eapply wp_mono; [apply iteration_body_emits|].
    intros r s1 (new1 & Hev1 & Hq1 & Hr).
    destruct r as [[|]|e].
    + apply wp_ret. exists new1. now repeat split.
    + eapply wp_mono; [apply IH|].
      intros r s2 (new2 & Hev2 & Hq2 & Hr2).
      exists (new2 ++ new1)%list. rewrite Hev2, Hev1, app_assoc.
      split; [reflexivity|]. split; [now apply Forall_app|].
      destruct r as [[|]|e]; try exact I.
      destruct Hr2 as (t & i & msg & rest & -> & Hclose).
      exists t, i, msg, (rest ++ new1)%list. now split.
    + exists new1. now repeat split.
Qed.

Lemma try_block_emits (url team leader : string) (s : pstate E) :
  final_status (result s) = "RUNNING" ->
  wp (try_block C url team leader) (try_emits s) s.
Proof.
  intros Hrun. unfold try_block. exec.
  2-4: unfold try_emits; emitted; (split; [quiet_events | exact I]).
  eapply wp_mono;
    [apply wp_conj;
     [apply deterministic_pass_effect | apply deterministic_pass_emits]|].
  intros r s1 [(_ & Hfinal1 & _) (new1 & Hev1 & Hq1)].
  cbn [events result final_status set_branch_name set_analysis]
    in Hev1, Hfinal1.
  assert (Hrun1 : final_status (result s1) = "RUNNING") by congruence.
  clear Hfinal1.
  assert (Hpre : exists pre,
             events s1 = (pre ++ events s)%list /\ Forall quiet pre).
  { rewrite Hev1.
    match goal with
    | |- exists pre, (new1 ++ ?l)%list = _ /\ _ =>
        let n := added l (events s) in exists (new1 ++ n)%list
    end.
    rewrite <- app_assoc. split; [reflexivity|].
    apply Forall_app. split; [exact Hq1 | quiet_events]. }
  clear Hev1 Hq1. destruct Hpre as (pre & Hev1 & Hq1).
  destruct r as [[]|e].
  2:{ exists pre. now repeat split. }
  apply wp_bind.
  eapply wp_mono;
    [apply wp_conj; [apply loop_effect_holds | apply loop_emits]|].
  intros r s2 [(its & fxs & _ & _ & Hloop) (new2 & Hev2 & Hq2 & Hr2)].
  rewrite Hev1, app_assoc in Hev2.
  destruct r as [[|]|e].
  - apply wp_ret. exists (new2 ++ pre)%list.
    split; [exact Hev2|]. split; [now apply Forall_app|].
    destruct Hr2 as (t & i & msg & rest & -> & Hclose).
    exists t, i, msg, (rest ++ pre)%list. now split.
  - destruct Hloop as (_ & _ & _ & Hfinal2).
    unfold max_iterations_reached. exec.
    + unfold try_emits. cbn [events result].
      exists (Emit "max_iterations" None
                ("Maximum iterations (" +:+
                 str_of_Z (Z.of_nat MAX_ITERATIONS) +:+
                 ") reached. Some errors may remain.")
              :: new2 ++ pre)%list.
      rewrite Hev2. split; [reflexivity|]. split.
      * constructor; [split; discriminate | now apply Forall_app].
      * eexists _, _, _, _. split; [reflexivity|].
        right. right. now split.
    + rewrite Hfinal2, Hrun1 in Heqb. discriminate Heqb.
  - exists (new2 ++ pre)%list.
    split; [exact Hev2|]. split; [now apply Forall_app | exact I].
Qed.
End LedgerFacts.

Section PipelineMore.
Import Py Pipeline Ledger.

(** X13. The report keeps its count of applied fixes in step with its list
    of fixes, whatever the collaborators do and also when a step raises:
    [total_fixes_applied] is the number of entries of [all_fixes] whose
    status is applied, and every entry of [all_fixes] went through
    [apply_fixes] (its status is applied or failed). *)
Theorem run_pipeline_counts_applied_fixes
        {E : Type} (C : collaborators E) (url team leader : string)
        (w : outside E) :
  exists r : report,
    run_pipeline C url team leader w = Ok r
    /\ total_fixes_applied r = Fixer.count_status "applied" (all_fixes r)
    /\ Forall marked (all_fixes r).
Proof.
  destruct (run_pipeline_report C url team leader w)
    as (s & o & s1 & Hrun & _ & _ & _ & Hfx & Hn & _ & Heff).
  exists (result s). unfold run_pipeline. rewrite Hrun.
  split; [reflexivity|]. rewrite Hfx, Hn.
  destruct Heff as (its & fxs & (_ & -> & -> & _ & Hm & _) & _).
  cbn. split; [reflexivity | exact Hm].
Qed.

(** X14. The entries of [iterations] are numbered in increasing order without
    repetition: their numbers are picked, in order, from 0 (the
    deterministic pass) and 1 to [MAX_ITERATIONS]. So a report has at
    most [MAX_ITERATIONS + 1] entries. *)
Theorem run_pipeline_numbers_iterations
        {E : Type} (C : collaborators E) (url team leader : string)
        (w : outside E) :
  exists r : report,
    run_pipeline C url team leader w = Ok r
    /\ sublist (map index (iterations r))
               (0 :: range_from_1 MAX_ITERATIONS)
    /\ (length (iterations r) <= MAX_ITERATIONS + 1)%nat.
Proof.
  destruct (run_pipeline_report C url team leader w)
    as (s & o & s1 & Hrun & _ & _ & Hit & _ & _ & _ & Heff).
  exists (result s). unfold run_pipeline. rewrite Hrun.
  split; [reflexivity|]. rewrite Hit.
  destruct Heff as (its & fxs & (-> & _) & Hsub & _). cbn [app initial_state
    result initial_report iterations].
  split; [exact Hsub|].
  apply sublist_length in Hsub. rewrite length_map in Hsub. exact Hsub.
Qed.


(** X16. What the final status of a report says. PASSED: the last entry is a
    test run without failures, and no fix was tried after it. FAILED:
    the last entry is an iteration for which no fix was proposed or none
    of the proposed fixes applied. MAX_ITERATIONS: the tests were run
    [MAX_ITERATIONS] times and the last [MAX_ITERATIONS] entries are the
    iterations 1 to [MAX_ITERATIONS], each of them FIXED. ERROR: a step
    of the block under [try] raised, and its text is under the key
    error. No other status is returned, and the key error is set in the
    last case only. *)
Theorem run_pipeline_outcome
        {E : Type} (C : collaborators E) (url team leader : string)
        (w : outside E) :
  exists (r : report) (s : pstate E),
    run_pipeline_from C url team leader w = (Ok r, s)
    /\ (final_status r = "PASSED" /\ error r = None
        /\ (exists pre e,
               iterations r = (pre ++ [e])%list
               /\ status e = "PASSED" /\ failed e = 0 /\ errors e = []
               /\ fixes_applied e = [])
        \/ final_status r = "FAILED" /\ error r = None
           /\ (exists pre e,
                  iterations r = (pre ++ [e])%list
                  /\ (status e = "NO_FIXES" \/ status e = "NO_FIXES_APPLIED")
                  /\ Fixer.count_status "applied" (fixes_applied e) = 0)
        \/ final_status r = "MAX_ITERATIONS" /\ error r = None
           /\ test_runs s = MAX_ITERATIONS
           /\ (exists pre last,
                  iterations r = (pre ++ last)%list
                  /\ map index last = range_from_1 MAX_ITERATIONS
                  /\ Forall (fun e => status e = "FIXED") last)
        \/ final_status r = "ERROR"
           /\ exists e,
               error r = Some e
               /\ (try_block C url team leader
                     (initial_state url team leader w)).1 = Raise e).
Proof.
  destruct (run_pipeline_report C url team leader w)
    as (s & o & s1 & Hrun & Htry & Hruns & Hit & _ & _ & Hst & Heff).
  exists (result s), s. split; [exact Hrun|]. rewrite Hit, Hruns, Htry.
  destruct Heff as (its & fxs & (Hits & _) & _ & Ho).
  cbn in Hits. rewrite Hits.
  destruct o as [[]|e].
  - destruct Hst as [-> ->].
    destruct Ho as [(pre & e & -> & [Hp | Hf]) | (Hmax & Hn & Hlast)].
    + left. destruct Hp as (-> & Hp). repeat split. now exists pre, e.
    + right. left. destruct Hf as (-> & Hf). repeat split.
      now exists pre, e.
    + right. right. left. rewrite Hmax, Hn. repeat split. exact Hlast.
  - destruct Hst as [-> ->]. right. right. right.
    split; [reflexivity|]. now exists e.
Qed.

(** X23. The events of a run, the latest first: the closing event ["done"]
    is emitted once, as the last event, and the event before it tells
    the final status: ["all_passed"] for PASSED, ["no_fixes"] or
    ["no_fixes_applied"] for FAILED, ["max_iterations"] for
    MAX_ITERATIONS, and ["error"], with the text recorded under the key
    error, for ERROR. No earlier event is a ["done"] or an ["error"]. *)
Theorem run_pipeline_event_stream
        {E : Type} (C : collaborators E) (url team leader : string)
        (w : outside E) :
  exists (r : report) (s : pstate E) (etype : string) (it : option Z)
         (msg : string) (rest : list event),
    run_pipeline_from C url team leader w = (Ok r, s)
    /\ events s = Emit "done" None "" :: Emit etype it msg :: rest
    /\ Forall quiet rest
    /\ (final_status r = "PASSED" /\ etype = "all_passed"
        \/ final_status r = "FAILED"
           /\ (etype = "no_fixes" \/ etype = "no_fixes_applied")
        \/ final_status r = "MAX_ITERATIONS" /\ etype = "max_iterations"
        \/ final_status r = "ERROR" /\ etype = "error"
           /\ error r = Some msg).
Proof.
  pose proof (try_block_emits C url team leader
                (initial_state url team leader w) eq_refl) as Hev.
  unfold wp in Hev. unfold run_pipeline_from.
  destruct (try_block C url team leader _) as [[[]|e] s1];
    cbn [fst snd] in Hev; destruct Hev as (new & Hnew & Hq & Hr);
    cbn [initial_state events] in Hnew; rewrite app_nil_r in Hnew.
  - destruct Hr as (t & i & msg & rest & -> & Hclose).
    eexists _, _, t, i, msg, rest. cbn [emit events result].
    split; [reflexivity|]. split; [now rewrite Hnew|].
    split; [now inversion Hq|].
    destruct Hclose as [H | [H | H]]; tauto.
  - eexists _, _, "error", None, e, (Status ("Error: " +:+ e) :: new).
    cbn [except_clause bind update update_status emit events result
         world deps_installed test_runs].
    split; [reflexivity|]. split; [now rewrite Hnew|].
    split; [constructor; [exact I | exact Hq]|].
    right. right. right. repeat split.
Qed.
End PipelineMore.

(** ** What the guard of [start_run] does keep *)

Section GuardFacts.
Import App Guard.

Lemma count_insert {A : Type} (p : A -> bool) (l : list A) :
  forall (i : nat) (x y : A),
    l !! i = Some x ->
    (length (List.filter p (<[i := y]> l)) + (if p x then 1 else 0)
     = length (List.filter p l) + (if p y then 1 else 0))%nat.
Proof.
  induction l as [|a l IH]; intros [|i] x y Hx; try discriminate.
  - injection Hx as ->. simpl. destruct (p x), (p y); simpl; lia.
  - simpl in Hx. specialize (IH i x y Hx). simpl.
    destruct (p a); simpl; lia.
Qed.

Lemma count_app {A : Type} (p : A -> bool) (l k : list A) :
  length (List.filter p (l ++ k))
  = (length (List.filter p l) + length (List.filter p k))%nat.
Proof. now rewrite List.filter_app, length_app. Qed.

Lemma Forall2_insert_r {A B : Type} (R : A -> B -> Prop) (l : list A)
      (k : list B) (i : nat) (a : A) (b : B) :
  Forall2 R l k -> l !! i = Some a -> R a b -> Forall2 R l (<[i := b]> k).
Proof.
  intros H. revert i. induction H as [|x y l k Hxy H IH]; intros [|i] Ha Hb;
    try discriminate; cbn.
  - injection Ha as ->. now constructor.
  - constructor; [exact Hxy | now apply IH].
Qed.

Lemma step_handler_serves (rqs : list request) (i : nat) (sv : server) :
  serves rqs sv -> serves rqs (step_handler i sv).
Proof.
  intros (Hh & Hw & Hl). unfold step_handler.
  destruct (handlers sv !! i) as [h|] eqn:Hi; [|now split].
  destruct (Forall2_lookup_r _ _ _ _ _ Hh Hi) as (rq & Hrq & Hans).
  destruct h as [rq'|rq'|code]; [| |now split]; cbn in Hans; subst rq'.
  - unfold serves; cbn [handlers workers launched].
    pose proof (count_insert is_accepted (handlers sv) i (AtCheck rq)
                  (match status sv with
                   | Running => Responded 409
                   | _ => AtStart rq
                   end) Hi) as Hc.
    split; [|split; [|exact Hl]].
    + apply (Forall2_insert_r _ _ _ _ rq); [exact Hh | exact Hrq |].
      destruct (status sv); cbn; auto.
    + destruct (status sv); cbn in Hc; lia.
  - destruct (validate rq) as [code|] eqn:Hv;
      unfold serves; cbn [handlers workers launched].
    + assert (Hcode : code = 400).
      { unfold validate in Hv.
        repeat (destruct (negb _); [now injection Hv|]). discriminate. }
      subst code.
      pose proof (count_insert is_accepted (handlers sv) i (AtStart rq)
                    (Responded 400) Hi) as Hc.
      split; [|split; [cbn in Hc; lia | exact Hl]].
      apply (Forall2_insert_r _ _ _ _ rq); [exact Hh | exact Hrq |].
      cbn. right. left. unfold complete. now rewrite Hv.
    + pose proof (count_insert is_accepted (handlers sv) i (AtStart rq)
                    (Responded 202) Hi) as Hc.
      split; [|split].
      * apply (Forall2_insert_r _ _ _ _ rq); [exact Hh | exact Hrq |].
        cbn. right. right. unfold complete. now rewrite Hv.
      * rewrite length_app. cbn in Hc |- *. lia.
      * rewrite count_app. cbn. lia.
Qed.

Lemma step_worker_serves (rqs : list request) (j : nat) (sv : server) :
  serves rqs sv -> serves rqs (step_worker j sv).
Proof.
  intros (Hh & Hw & Hl). unfold step_worker.
  destruct (workers sv !! j) as [wk|] eqn:Hj; [|now split].
  destruct wk; [| | |now split]; unfold serves;
    cbn [handlers workers launched]; rewrite length_insert;
    (split; [exact Hh|]; split; [exact Hw|]).
  - pose proof (count_insert has_entered (workers sv) j Spawned
                  MarkedRunning Hj) as Hc. cbn in Hc. lia.
  - pose proof (count_insert has_entered (workers sv) j MarkedRunning
                  InPipeline Hj) as Hc. cbn in Hc. lia.
  - pose proof (count_insert has_entered (workers sv) j InPipeline
                  Finished Hj) as Hc. cbn in Hc. lia.
Qed.

Lemma run_schedule_serves (rqs : list request) (sched : list thread) :
  forall sv, serves rqs sv -> serves rqs (run_schedule sched sv).
Proof.
  unfold run_schedule.
  induction sched as [|t sched IH]; intros sv Hsv; [exact Hsv|].
  cbn [fold_left]. apply IH. destruct t as [i|j]; cbn [step].
  - now apply step_handler_serves.
  - now apply step_worker_serves.
Qed.

Lemma idle_with_serves (rqs : list request) : serves rqs (idle_with rqs).
Proof.
  unfold serves, idle_with. cbn [handlers workers launched].
  split; [|split].
  - induction rqs as [|rq rqs IH]; constructor; [reflexivity | exact IH].
  - induction rqs as [|rq rqs IH]; [reflexivity | exact IH].
  - reflexivity.
Qed.

Lemma accepted_are_complete (rqs : list request) (hs : list handler) :
  Forall2 answer_for rqs hs ->
  (length (List.filter is_accepted hs)
   <= length (List.filter complete rqs))%nat.
Proof.
  induction 1 as [|rq h rqs hs Hans H IH]; [reflexivity|]. cbn.
  destruct (is_accepted h) eqn:Hacc.
  - destruct h as [| |code]; try discriminate.
    destruct Hans as [-> | [[-> _] | [_ ->]]]; try discriminate.
    cbn. lia.
  - destruct (complete rq); cbn; lia.
Qed.

Lemma count_le_length {A : Type} (p : A -> bool) (l : list A) :
  (length (List.filter p l) <= length l)%nat.
Proof. induction l as [|a l IH]; cbn; [lia|]. destruct (p a); cbn; lia. Qed.

(** X17. Under every interleaving of the handlers and the background threads,
    from an idle server: every request is answered 409, 400 or 202 (or
    not yet), 400 only with a blank field and 202 only with none; one
    background thread is started per answer 202; and [run_pipeline] is
    entered at most once per thread. So the pipeline is launched at most
    once per complete request, and never for a request with a blank
    field. *)
Theorem launches_bounded_by_complete_requests
        (rqs : list request) (sched : list thread) :
  Forall2 answer_for rqs (handlers (run_schedule sched (idle_with rqs)))
  /\ length (workers (run_schedule sched (idle_with rqs)))
     = length (List.filter is_accepted
                 (handlers (run_schedule sched (idle_with rqs))))
  /\ (launched (run_schedule sched (idle_with rqs))
      <= length (workers (run_schedule sched (idle_with rqs))))%nat
  /\ (launched (run_schedule sched (idle_with rqs))
      <= length (List.filter complete rqs))%nat.
Proof.
  destruct (run_schedule_serves rqs sched _ (idle_with_serves rqs))
    as (Hh & Hw & Hl).
  split; [exact Hh|]. split; [exact Hw|].
  pose proof (count_le_length has_entered
                (workers (run_schedule sched (idle_with rqs)))) as Hle.
  pose proof (accepted_are_complete _ _ Hh) as Hacc.
  split; lia.
Qed.
End GuardFacts.

(** ** The colon heuristic and the patch engine together *)

Section ColonFacts.
Import Py Fixer DetFixer Inv ReSem.

Lemma rstrip_by_none (p : ascii -> bool) (l : string) :
  all_in (fun c => negb (p c)) l -> rstrip_by p l = l.
Proof.
  induction l as [|c l IH]; [reflexivity|]. intros [Hc Hl].
  cbn [rstrip_by]. rewrite (IH Hl).
  destruct l; [|reflexivity]. now apply negb_true_iff in Hc as ->.
Qed.

Lemma rstrip_by_snoc (p : ascii -> bool) (l : string) (c : ascii) :
  p c = true -> rstrip_by p (l +:+ String c "") = rstrip_by p l.
Proof.
  intros Hc. induction l as [|d l IH].
  - rewrite append_nil_l. cbn. now rewrite Hc.
  - rewrite append_cons. cbn [rstrip_by]. now rewrite IH.
Qed.

Lemma rstrip_by_snoc_kept (p : ascii -> bool) (l : string) (c : ascii) :
  p c = false -> rstrip_by p (l +:+ String c "") = l +:+ String c "".
Proof.
  intros Hc. induction l as [|d l IH].
  - rewrite append_nil_l. cbn. now rewrite Hc.
  - rewrite append_cons. cbn [rstrip_by]. rewrite IH.
    destruct l; reflexivity.
Qed.

Lemma all_in_rstrip_by (p q : ascii -> bool) (l : string) :
  all_in q l -> all_in q (rstrip_by p l).
Proof.
  induction l as [|c l IH]; [trivial|]. intros [Hc Hl].
  cbn [rstrip_by]. specialize (IH Hl).
  destruct (rstrip_by p l); [destruct (p c)|]; cbn; auto.
Qed.

Lemma lstrip_rstrip_comm (p : ascii -> bool) (l : string) :
  lstrip_by p (rstrip_by p l) = rstrip_by p (lstrip_by p l).
Proof.
  induction l as [|c l IH]; [reflexivity|].
  destruct (p c) eqn:Hc.
  - cbn [lstrip_by rstrip_by]. rewrite Hc, <- IH.
    destruct (rstrip_by p l) as [|d r]; [reflexivity|].
    cbn [lstrip_by]. now rewrite Hc.
  - destruct (rstrip_by_keeps_head p c l Hc) as [t Ht].
    cbn [lstrip_by]. rewrite Hc, Ht. cbn [lstrip_by]. now rewrite Hc.
Qed.

Lemma strip_rstrip (l : string) : strip (rstrip l) = strip l.
Proof.
  unfold strip, rstrip, lstrip.
  now rewrite lstrip_rstrip_comm, rstrip_by_idempotent.
Qed.

Lemma plain_lines (l : string) :
  all_in plain l ->
  all_in (fun c => negb (Ascii.eqb LF c)) l
  /\ all_in (fun c => negb (Ascii.eqb CR c)) l.
Proof.
  induction l as [|c l IH]; [now split|]. intros [Hc Hl].
  destruct (IH Hl) as [H1 H2]. unfold plain in Hc.
  apply andb_true_iff in Hc as [Hcr Hlf].
  rewrite Ascii.eqb_sym in Hcr. rewrite Ascii.eqb_sym in Hlf.
  repeat split; assumption.
Qed.

(** A line as [readlines] gives it, trimmed by the patch engine, is the
    line as [split] gives it, stripped. *)
Lemma trimmed_plain (l : string) :
  all_in plain l ->
  trimmed l = strip l /\ trimmed (l +:+ String LF "") = strip l.
Proof.
  intros Hl. destruct (plain_lines l Hl) as [Hlf Hcr]. unfold trimmed.
  unfold rstrip_char.
  rewrite (rstrip_by_snoc _ l LF) by apply Ascii.eqb_refl.
  rewrite (rstrip_by_none _ l Hlf), (rstrip_by_none _ l Hcr). now split.
Qed.

(** The lines [split] gives and the lines [readlines] gives, index by
    index: the same text with its line feed, or the open last line. *)
Lemma split_vs_lines (t : string) :
  all_in not_cr t ->
  forall i l,
    split LF t !! i = Some l ->
    all_in plain l
    /\ (split_lines t !! i = Some (l +:+ String LF "")
        \/ split_lines t !! i = Some l /\ l <> ""
        \/ l = "" /\ split_lines t !! i = None).
Proof.
  induction t as [|c t IH]; intros Ht i l Hl.
  - destruct i; [|discriminate]. injection Hl as <-.
    split; [exact I|]. now right; right.
  - destruct Ht as [Hc Ht]. specialize (IH Ht).
    cbn [split split_lines] in *.
    destruct (Ascii.eqb c LF) eqn:Hlf.
    + destruct i as [|i]; [|exact (IH i l Hl)].
      injection Hl as <-. split; [exact I|]. left.
      apply Ascii.eqb_eq in Hlf. now subst c.
    + assert (Hp : plain c = true)
        by (unfold plain; unfold not_cr in Hc; now rewrite Hc, Hlf).
      destruct (split LF t) as [|h tl] eqn:Hsplit.
      * exfalso. clear -Hsplit. destruct t as [|d t]; [discriminate|].
        cbn [split] in Hsplit.
        destruct (Ascii.eqb d LF), (split LF t); discriminate.
      * destruct i as [|i].
        -- injection Hl as <-. destruct (IH 0%nat h eq_refl) as [Hh Hcase].
           split; [now split|].
           destruct Hcase as [H | [[H Hne] | [-> H]]].
           ++ left. destruct (split_lines t); [discriminate|].
              injection H as ->. reflexivity.
           ++ right. left. destruct (split_lines t); [discriminate|].
              injection H as ->. split; [reflexivity | discriminate].
           ++ right. left. destruct (split_lines t); [|discriminate].
              split; [reflexivity | discriminate].
        -- destruct (IH (S i) l Hl) as [Hh Hcase]. split; [exact Hh|].
           destruct (split_lines t) as [|h' tl']; [|exact Hcase].
           destruct Hcase as [H | [[H _] | H]]; try discriminate.
           now right; right.
Qed.

Lemma missing_colon_after_fix (x : string) :
  missing_colon (x +:+ ":") = false.
Proof.
  unfold missing_colon. destruct (Re.match_ _ _); [|reflexivity].
  unfold rstrip. rewrite rstrip_by_snoc_kept by reflexivity.
  assert (H : endswith ":" (x +:+ ":") = true).
  { induction x as [|c x IH]; [reflexivity|].
    rewrite append_cons. cbn [endswith].
    destruct (String.eqb _ _); [reflexivity | exact IH]. }
  now rewrite H.
Qed.

(** What [_try_fix_syntax] returns when it returns a patch. *)
Lemma try_fix_syntax_some (fpath rel_path source : string) (line_no : Z)
      (error_msg : string) (fx : patch) :
  _try_fix_syntax fpath rel_path source line_no error_msg = Some fx ->
  exists (i : nat) (l descr : string),
    split LF source !! i = Some l
    /\ missing_colon l = true
    /\ (Z.of_nat i + 1 = line_no \/ Z.of_nat i + 2 = line_no)
    /\ fx = colon_fix rel_path (Z.of_nat i + 1) l descr.
Proof.
  unfold _try_fix_syntax.
  destruct (Z.ltb_spec line_no 1) as [|Hlo]; [discriminate|].
  destruct (Z.gtb_spec line_no (Z.of_nat (length (split LF source))))
    as [|Hhi]; [discriminate|]. cbn [orb].
  destruct (lookup_lt_is_Some_2 (split LF source) (Z.to_nat (line_no - 1)))
    as [l Hl]; [lia|].
  rewrite Hl. cbn [default from_option id].
  destruct (missing_colon l) eqn:Hm.
  - intros [= <-]. exists (Z.to_nat (line_no - 1)), l. eexists.
    split; [exact Hl|]. split; [exact Hm|]. split; [left; lia|].
    f_equal. lia.
  - rewrite orb_true_r.
    destruct (Z.geb_spec line_no 2) as [Hge|]; [|discriminate].
    destruct (lookup_lt_is_Some_2 (split LF source)
                (Z.to_nat (line_no - 2))) as [l' Hl']; [lia|].
    rewrite Hl'. cbn [default from_option id].
    destruct (missing_colon l') eqn:Hm'; [|discriminate].
    intros [= <-]. exists (Z.to_nat (line_no - 2)), l'. eexists.
    split; [exact Hl'|]. split; [exact Hm'|]. split; [right; lia|].
    f_equal. lia.
Qed.

(** X18. The patch of the colon heuristic depends on the source and the line
    number only: neither the error message (the test of the message
    class has a non-empty literal as its right operand) nor the absolute
    path changes it. *)
Theorem try_fix_syntax_any_message
        (fpath fpath' rel_path source : string) (line_no : Z)
        (error_msg error_msg' : string) :
  _try_fix_syntax fpath rel_path source line_no error_msg
  = _try_fix_syntax fpath' rel_path source line_no error_msg'.
Proof. unfold _try_fix_syntax. now rewrite !orb_true_r. Qed.

(** X19. A patch that [_try_fix_syntax] proposes from the text of a file
    applies to that file: the patch engine finds the old text on the
    line the patch names, marks the patch applied, and the file then
    reads as before with a colon added to that line, after the trailing
    white space of the line is dropped. On the new line the heuristic
    finds no missing colon. *)
Theorem syntax_fix_applies_to_its_file
        (repo fpath rel_path content : string) (fs : FS) (line_no : Z)
        (error_msg : string) (fx : patch) :
  fs !! os_path_join repo rel_path = Some (Text content) ->
  _try_fix_syntax fpath rel_path (universal_newlines content) line_no
                  error_msg = Some fx ->
  exists (i : nat) (l content' : string),
    split LF (universal_newlines content) !! i = Some l
    /\ line fx = Z.of_nat i + 1
    /\ apply_fixes repo fs [fx]
       = (<[os_path_join repo rel_path := Text content']> fs,
          [set_status "applied" "Fix applied successfully" fx])
    /\ readlines content'
       = <[i := (rstrip l +:+ ":") +:+ String LF ""]> (readlines content)
    /\ missing_colon (rstrip l +:+ ":") = false.
Proof.
  intros Hf Hfix.
  apply try_fix_syntax_some in Hfix as (i & l & descr & Hl & Hm & _ & ->).
  destruct (split_vs_lines _ (universal_newlines_no_cr content) i l Hl)
    as [Hplain Hcase].
  assert (Hne : l <> "") by (intros ->; vm_compute in Hm; discriminate).
  assert (Hline : exists l',
             readlines content !! i = Some l' /\ trimmed l' = strip l).
  { destruct (trimmed_plain l Hplain) as [H1 H2].
    destruct Hcase as [H | [[H _] | [H _]]]; [eauto | eauto | congruence]. }
  destruct Hline as (l' & Hl' & Htrim).
  exists i, l. eexists. split; [exact Hl|]. split; [reflexivity|].
  cbn [apply_fixes].
  destruct (apply_fix_in_range repo fs
              (colon_fix rel_path (Z.of_nat i + 1) l descr) content i)
    as (l0 & Hl0 & Hstep);
    [exact Hf | reflexivity | now apply lookup_lt_Some in Hl' |].
  assert (l0 = l') by congruence. subst l0.
  rewrite Hstep. cbv zeta. cbn [old_code new_code colon_fix default
    from_option id file].
  rewrite strip_rstrip, Htrim, String.eqb_refl. cbn [negb].
  rewrite andb_false_r.
  assert (Hnew : exists c new, rstrip l +:+ ":" = String c new).
  { destruct (rstrip l) as [|c r]; [now exists ":"%char, ""|].
    rewrite append_cons. eauto. }
  destruct Hnew as (c & new & Hnew). rewrite Hnew. rewrite <- Hnew.
  split; [reflexivity|]. split; [|apply missing_colon_after_fix].
  apply readlines_writelines.
  apply well_formed_insert; [apply readlines_well_formed|].
  apply all_in_append. split; [|now split].
  now apply all_in_rstrip_by.
Qed.
End ColonFacts.

Section ColonInstances.
Import Py Fixer DetFixer Sample.

Lemma syntax_fix_applies_to_its_file_witness :
  exists (i : nat) (l content' : string),
    split LF (universal_newlines def_source) !! i = Some l
    /\ line (colon_fix "f.py" 1 "def f(x)"
               "Add missing colon at end of statement") = Z.of_nat i + 1
    /\ apply_fixes "repo" {[ "repo/f.py" := Text def_source ]}
                   [colon_fix "f.py" 1 "def f(x)"
                      "Add missing colon at end of statement"]
       = (<[os_path_join "repo" "f.py" := Text content']>
            {[ "repo/f.py" := Text def_source ]},
          [set_status "applied" "Fix applied successfully"
             (colon_fix "f.py" 1 "def f(x)"
                "Add missing colon at end of statement")])
    /\ readlines content'
       = <[i := (rstrip l +:+ ":") +:+ String LF ""]> (readlines def_source)
    /\ missing_colon (rstrip l +:+ ":") = false.
Proof.
  apply (syntax_fix_applies_to_its_file "repo" "repo/f.py" "f.py"
           def_source {[ "repo/f.py" := Text def_source ]} 1
           "invalid syntax").
  - vm_compute. reflexivity.
  - vm_compute. reflexivity.
Defined.

Lemma determine_correct_indent_out_of_range_witness :
  _determine_correct_indent indented_lines 6 = None.
Proof.
  apply (determine_correct_indent_out_of_range indented_lines 6).
  vm_compute. reflexivity.
Defined.
End ColonInstances.

(** ** The records of the result parser *)

Section ParserRecords.
Import Py Re ReSem TestRunner Records.

Lemma for_each_ok {A B : Type} (f : A -> result B) (l : list A) :
  forall bs, for_each f l = Ok bs -> Forall2 (fun a b => f a = Ok b) l bs.
Proof.
  induction l as [|a l IH]; cbn [for_each]; intros bs.
  - intros [= <-]. constructor.
  - destruct (f a) as [b|e] eqn:Ha; [|discriminate]. cbn [rbind].
    destruct (for_each f l) as [bs'|e]; [|discriminate]. cbn [rbind].
    intros [= <-]. constructor; [exact Ha | now apply IH].
Qed.

Lemma int_digits_nonneg (s : string) :
  forall acc z, 0 <= acc -> int_digits acc s = Some z -> 0 <= z.
Proof.
  induction s as [|c s IH]; cbn [int_digits]; intros acc z Hacc.
  - now intros [= <-].
  - destruct (isdigit c) eqn:Hc; [|discriminate]. apply IH.
    unfold isdigit in Hc. apply andb_true_iff in Hc as [Hlo _].
    apply Nat.leb_le in Hlo. lia.
Qed.

Lemma int_nonneg (s : string) (z : Z) : int s = Ok z -> 0 <= z.
Proof.
  unfold int. destruct (_ <? _)%nat; [discriminate|].
  destruct s as [|c s]; [discriminate|].
  destruct (int_digits 0 (String c s)) as [z'|] eqn:Hd; [|discriminate].
  intros [= <-]. now apply (int_digits_nonneg (String c s) 0).
Qed.

Lemma group_int_nonneg (m : mstate) (i : nat) (z : Z) :
  group_int m i = Ok z -> 0 <= z.
Proof.
  unfold group_int. destruct (group m i); [apply int_nonneg | discriminate].
Qed.

Lemma replace_backslash (s : string) :
  all_in no_backslash (replace "\"%char "/"%char s).
Proof.
  induction s as [|c s IH]; [exact I|]. cbn [replace all_in].
  split; [|exact IH]. unfold no_backslash.
  destruct (Ascii.eqb c "\"%char) eqn:Hc; [reflexivity | now rewrite Hc].
Qed.

Lemma take_length (n : nat) (s : string) :
  (String.length (take n s) <= n)%nat.
Proof.
  revert s. induction n as [|n IH]; intros [|c s]; cbn; try lia.
  specialize (IH s). lia.
Qed.

Lemma unpack2_ok (t : list string) (a b : string) :
  unpack2 t = Ok (a, b) -> t = [a; b].
Proof.
  destruct t as [|x [|y [|z t]]]; cbn; try discriminate.
  now intros [= -> ->].
Qed.

Lemma located_intro (name fp msg : string) (z : Z) :
  0 <= z -> located (Failure name (replace "\"%char "/"%char fp) z msg).
Proof. intros Hz. split; [exact Hz | apply replace_backslash]. Qed.

Lemma block_failure_located (t : list string) (f : failure) :
  block_failure t = Ok f -> located f.
Proof.
  unfold block_failure. destruct (unpack2 t) as [[name block]|e];
    [|discriminate]. cbn [rbind].
  destruct (search file_line_pattern block) as [m|].
  - destruct (group_str m 1) as [fp|e]; [|discriminate]. cbn [rbind].
    destruct (group_int m 2) as [z|e] eqn:Hz; [|discriminate]. cbn [rbind].
    intros [= <-]. apply located_intro.
    now apply group_int_nonneg in Hz.
  - cbn [rbind]. intros [= <-]. split; [cbn [line]; lia|].
    vm_compute. tauto.
Qed.

Lemma summary_failure_located (t : list string) (f : failure) :
  summary_failure t = Ok f -> located f /\ from_summary f.
Proof.
  unfold summary_failure. destruct (unpack2 t) as [[fp name]|e];
    [|discriminate]. cbn [rbind]. intros [= <-].
  split; [now apply located_intro | now split].
Qed.

Lemma startswith_append (p s : string) : startswith p (p +:+ s) = true.
Proof.
  unfold startswith. induction p as [|c p IH]; [now destruct s|].
  rewrite append_cons. cbn [String.prefix].
  destruct (ascii_dec c c); [exact IH | congruence].
Qed.

Lemma collection_failure_located (t : list string) (f : failure) :
  collection_failure t = Ok f -> located f /\ collected f.
Proof.
  unfold collection_failure. destruct (unpack2 t) as [[fp detail]|e];
    [|discriminate]. cbn [rbind].
  assert (Hz : forall z,
             match search line_pattern detail with
             | Some m => group_int m 1
             | None => Ok 0
             end = Ok z -> 0 <= z).
  { intros z. destruct (search line_pattern detail);
      [apply group_int_nonneg | intros [= <-]; lia]. }
  destruct (match search line_pattern detail with
            | Some m => group_int m 1
            | None => Ok 0
            end) as [z|e]; [|discriminate].
  cbn [rbind]. intros [= <-].
  split; [apply located_intro; now apply Hz|].
  exact (conj (startswith_append "collection_error:" fp)
              (take_length 200 (strip detail))).
Qed.

Lemma Forall2_Forall_r {A B : Type} (R : A -> B -> Prop) (P : B -> Prop)
      (l : list A) (k : list B) :
  Forall2 R l k -> (forall a b, R a b -> P b) -> Forall P k.
Proof. induction 1; intros HP; constructor; eauto. Qed.

(** X21. The records [parse_pytest_output] returns, when it returns: one per
    failure block, or, when the output has no failure block, one per
    FAILED line of the summary, then one per collection error. The
    summary is not read when a block was found. Every record has a line
    number that is not negative (0 when none was found) and a path
    without backslash; a record of a collection error is named
    [collection_error:...] and carries at most 200 characters of detail;
    a record made from the summary has line 0 and the message
    [Test <name> failed]. *)
Theorem parse_pytest_output_records
        (output repo_path : string) (errs : list failure) :
  parse_pytest_output output repo_path = Ok errs ->
  exists main coll : list failure,
    errs = (main ++ coll)%list
    /\ length main
       = match findall error_block_pattern output with
         | [] => length (findall failed_pattern output)
         | _ :: _ => length (findall error_block_pattern output)
         end
    /\ length coll = length (findall collection_pattern output)
    /\ Forall located errs
    /\ Forall collected coll
    /\ (findall error_block_pattern output = [] -> Forall from_summary main).
Proof.
  unfold parse_pytest_output.
  destruct (for_each block_failure _) as [blocks|e] eqn:Hb; [|discriminate].
  cbn [rbind]. apply for_each_ok in Hb.
  destruct (match blocks, findall failed_pattern output with
            | [], _ :: _ => for_each summary_failure
                              (findall failed_pattern output)
            | _, _ => Ok blocks
            end) as [main|e] eqn:Hm; [|discriminate].
  cbn [rbind].
  destruct (for_each collection_failure _) as [coll|e] eqn:Hc;
    [|discriminate].
  cbn [rbind]. apply for_each_ok in Hc. intros [= <-].
  exists main, coll. split; [reflexivity|].
  assert (Hmain : length main
                  = match findall error_block_pattern output with
                    | [] => length (findall failed_pattern output)
                    | _ :: _ => length (findall error_block_pattern output)
                    end
                  /\ Forall located main
                  /\ (findall error_block_pattern output = [] ->
                      Forall from_summary main)).
  { remember (findall error_block_pattern output) as found eqn:Hfound.
    clear Hfound. destruct Hb as [|t b ts bs Ht Hts].
    - destruct (findall failed_pattern output) as [|s ss] eqn:Hs.
      + injection Hm as <-. repeat split; constructor.
      + rewrite <- Hs in Hm |- *. apply for_each_ok in Hm.
        split; [symmetry; now apply Forall2_length in Hm|].
        split; [|intros _];
          apply (Forall2_Forall_r _ _ _ _ Hm); intros a b Hab;
          now apply summary_failure_located in Hab.
    - injection Hm as <-. split; [|split; [|discriminate]].
      + cbn. f_equal. symmetry. now apply Forall2_length in Hts.
      + constructor; [now apply block_failure_located in Ht|].
        apply (Forall2_Forall_r _ _ _ _ Hts). intros a c.
        apply block_failure_located. }
  destruct Hmain as (Hlen & Hloc & Hsum).
  split; [exact Hlen|].
  split; [symmetry; now apply Forall2_length in Hc|].
  split; [|split; [|exact Hsum]].
  - apply Forall_app. split; [exact Hloc|].
    apply (Forall2_Forall_r _ _ _ _ Hc). intros a b Hab.
    now apply collection_failure_located in Hab.
  - apply (Forall2_Forall_r _ _ _ _ Hc). intros a b Hab.
    now apply collection_failure_located in Hab.
Qed.
End ParserRecords.

Section ParserInstances.
Import Py Re TestRunner Records Sample.

Lemma parse_pytest_output_records_witness :
  exists main coll : list failure,
    [Failure "test_add" "tests/test_math.py" 0 "Test test_add failed";
     Failure "test_sub" "tests/test_math.py" 0 "Test test_sub failed"]
    = (main ++ coll)%list
    /\ length main
       = match findall error_block_pattern two_failures with
         | [] => length (findall failed_pattern two_failures)
         | _ :: _ => length (findall error_block_pattern two_failures)
         end
    /\ length coll = length (findall collection_pattern two_failures)
    /\ Forall located
         [Failure "test_add" "tests/test_math.py" 0 "Test test_add failed";
          Failure "test_sub" "tests/test_math.py" 0 "Test test_sub failed"]
    /\ Forall collected coll
    /\ (findall error_block_pattern two_failures = [] ->
        Forall from_summary main).
Proof.
  apply (parse_pytest_output_records two_failures "repo").
  vm_compute. reflexivity.
Defined.
End ParserInstances.

(** ** The name of the branch *)

Section BranchName.
Import Py GitOps ReSem.

Lemma all_in_lstrip_by (p q : ascii -> bool) (s : string) :
  all_in q s -> all_in q (lstrip_by p s).
Proof.
  induction s as [|c s IH]; [trivial|]. intros [Hc Hs]. cbn [lstrip_by].
  destruct (p c); [now apply IH | now split].
Qed.

Lemma keep_chars_kept (s : string) :
  all_in ascii_only s -> all_in kept_ascii (keep_chars s).
Proof.
  induction s as [|c s IH]; [trivial|]. intros [Hc Hs]. cbn [keep_chars].
  destruct (kept c) eqn:Hk; [|now apply IH].
  split; [unfold kept_ascii; now rewrite Hk, Hc | now apply IH].
Qed.

(** The capital of a kept ASCII character, a space being an underscore
    by then: one character of a branch name, an underscore for a space
    only. *)
Lemma upper_char_kept (c : ascii) :
  kept_ascii c = true ->
  exists u,
    upper_char (if Ascii.eqb c " " then "_"%char else c)
    = Some (String u "")
    /\ branch_char u = true
    /\ Ascii.eqb u "_" = Ascii.eqb c " ".
Proof.
  destruct c as [[] [] [] [] [] [] [] []]; intros H;
    try (vm_compute in H; discriminate H);
    eexists; (split; [reflexivity|]); split; vm_compute; reflexivity.
Qed.

Lemma startswith_char (c d : ascii) (s : string) :
  startswith (String c "") (String d s) = Ascii.eqb d c.
Proof.
  unfold startswith. cbn [String.prefix].
  destruct (ascii_dec c d) as [->|Hne].
  - rewrite Ascii.eqb_refl. now destruct s.
  - symmetry. apply Ascii.eqb_neq. congruence.
Qed.

Lemma endswith_char (c d : ascii) (s : string) :
  endswith (String c "") (String d s)
  = match s with
    | EmptyString => Ascii.eqb d c
    | String _ _ => endswith (String c "") s
    end.
Proof.
  cbn [endswith]. destruct s as [|e s].
  - destruct (Ascii.eqb_spec d c) as [->|Hne].
    + now rewrite String.eqb_refl.
    + destruct (String.eqb_spec (String d "") (String c "")) as [E|_];
        [congruence | reflexivity].
  - destruct (String.eqb_spec (String d (String e s)) (String c ""))
      as [E|_]; [discriminate | reflexivity].
Qed.

(** [upper] after [replace] on kept ASCII characters: character by
    character, underscores where the spaces were. *)
Lemma upper_replace_kept (x : string) :
  all_in kept_ascii x ->
  exists y,
    upper (replace " " "_" x) = Some y
    /\ all_in branch_char y
    /\ String.length y = String.length x
    /\ startswith "_" y = startswith " " x
    /\ endswith "_" y = endswith " " x.
Proof.
  induction x as [|c x IH]; [now exists ""|].
  intros [Hc Hx]. destruct (IH Hx) as (y & Hy & Hall & Hlen & _ & Hend).
  destruct (upper_char_kept c Hc) as (u & Hu & Hb & Hus).
  exists (String u y). cbn [replace upper]. rewrite Hu, Hy.
  split; [reflexivity|]. split; [now split|].
  split; [cbn; now rewrite Hlen|].
  split; [now rewrite !startswith_char|].
  rewrite !endswith_char, Hus.
  destruct x, y; try discriminate Hlen; [reflexivity | exact Hend].
Qed.

Lemma rstrip_by_last (p : ascii -> bool) (c : ascii) (s : string) :
  p c = true -> endswith (String c "") (rstrip_by p s) = false.
Proof.
  intros Hc. induction s as [|d s IH]; [reflexivity|].
  cbn [rstrip_by]. destruct (rstrip_by p s) as [|e r].
  - destruct (p d) eqn:Hd; [reflexivity|].
    rewrite endswith_char. apply Ascii.eqb_neq. congruence.
  - now rewrite endswith_char.
Qed.

Lemma strip_no_space (s : string) :
  startswith " " (strip s) = false /\ endswith " " (strip s) = false.
Proof.
  unfold strip, rstrip, lstrip. split; [|now apply rstrip_by_last].
  destruct (lstrip_by_head isspace s) as [-> | (c & s' & -> & Hc)];
    [reflexivity|].
  destruct (rstrip_by_keeps_head isspace c s' Hc) as [t ->].
  rewrite startswith_char. apply Ascii.eqb_neq. intros ->.
  vm_compute in Hc. discriminate Hc.
Qed.

Lemma clean_ascii (s : string) :
  all_in ascii_only s ->
  exists t,
    clean s = Some t /\ all_in branch_char t
    /\ startswith "_" t = false /\ endswith "_" t = false.
Proof.
  intros Hs. unfold clean.
  destruct (upper_replace_kept (strip (keep_chars s)))
    as (t & Ht & Hall & _ & Hstart & Hend).
  { unfold strip, rstrip, lstrip.
    now apply all_in_rstrip_by, all_in_lstrip_by, keep_chars_kept. }
  destruct (strip_no_space (keep_chars s)) as [H1 H2].
  exists t. rewrite Hstart, Hend. auto.
Qed.

(** X24. For names in ASCII, [make_branch_name] returns
    [TEAM_LEADER_AI_Fix] where [TEAM] and [LEADER], the cleaned names,
    are made of the capitals A to Z, the digits and underscores only (an
    underscore for each space inside the name), and neither begins nor
    ends with an underscore. A cleaned name can be empty. *)
Theorem make_branch_name_ascii (team_name leader_name : string) :
  all_in ascii_only team_name -> all_in ascii_only leader_name ->
  exists team leader,
    make_branch_name team_name leader_name
    = Some (team +:+ "_" +:+ leader +:+ "_AI_Fix")
    /\ clean team_name = Some team /\ clean leader_name = Some leader
    /\ all_in branch_char team /\ all_in branch_char leader
    /\ startswith "_" team = false /\ endswith "_" team = false
    /\ startswith "_" leader = false /\ endswith "_" leader = false.
Proof.
  intros Ht Hl.
  destruct (clean_ascii team_name Ht) as (t & Hct & Hat & Hst & Het).
  destruct (clean_ascii leader_name Hl) as (l & Hcl & Hal & Hsl & Hel).
  exists t, l. unfold make_branch_name. rewrite Hct, Hcl.
  repeat split; assumption.
Qed.

Lemma make_branch_name_ascii_witness :
  exists team leader,
    make_branch_name "Team Alpha!" " j. doe"
    = Some (team +:+ "_" +:+ leader +:+ "_AI_Fix")
    /\ clean "Team Alpha!" = Some team /\ clean " j. doe" = Some leader
    /\ all_in branch_char team /\ all_in branch_char leader
    /\ startswith "_" team = false /\ endswith "_" team = false
    /\ startswith "_" leader = false /\ endswith "_" leader = false.
Proof.
  apply (make_branch_name_ascii "Team Alpha!" " j. doe").
  - vm_compute. tauto.
  - vm_compute. tauto.
Defined.
End BranchName.
(** ** Reading the files for the provider *)

Section ReaderFacts.
Import Py Fixer Reader.

Lemma read_fold (repo : string) (fs : FS) (paths : list string)
      (fp : string) :
  forall acc : gmap string string,
    fold_left (read_one repo fs) paths acc !! fp
    = match (if decide (fp ∈ paths)
             then read_text <$> fs !! os_path_join repo fp else None) with
      | Some v => Some v
      | None => acc !! fp
      end.
Proof.
  induction paths as [|p paths IH]; intros acc; cbn [fold_left].
  - now rewrite decide_False by apply not_elem_of_nil.
  - rewrite IH. clear IH.
    assert (Hone : read_one repo fs acc p !! fp
                   = if decide (p = fp)
                     then match read_text <$> fs !! os_path_join repo fp with
                          | Some v => Some v
                          | None => acc !! fp
                          end
                     else acc !! fp).
    { unfold read_one. destruct (decide (p = fp)) as [->|Hne].
      - destruct (fs !! os_path_join repo fp); cbn;
          [apply lookup_insert_eq | reflexivity].
      - destruct (fs !! os_path_join repo p); [|reflexivity].
        now apply lookup_insert_ne. }
    rewrite Hone. clear Hone.
    destruct (decide (fp ∈ paths)) as [Hin|Hnot];
      destruct (decide (fp ∈ p :: paths)) as [Hin'|Hnot'].
    + destruct (read_text <$> fs !! os_path_join repo fp); [reflexivity|].
      now destruct (decide (p = fp)).
    + exfalso. apply Hnot', elem_of_cons. now right.
    + destruct (decide (p = fp)) as [->|Hne]; [reflexivity|].
      apply elem_of_cons in Hin' as [E|H]; [congruence | contradiction].
    + destruct (decide (p = fp)) as [->|Hne]; [|reflexivity].
      exfalso. apply Hnot', elem_of_cons. now left.
Qed.

(** X25. The dict [read_file_contents] returns, key by key: a path is a key
    exactly when it was asked for and exists; its value is the text of
    the file, or the text of the error when the file cannot be read (a
    directory, bytes that are not UTF-8). A path that does not exist is
    left out without an error, and asking twice for a path changes
    nothing. *)
Theorem read_file_contents_lookup (repo : string) (fs : FS)
        (paths : list string) (fp : string) :
  read_file_contents repo fs paths !! fp
  = if decide (fp ∈ paths)
    then read_text <$> fs !! os_path_join repo fp
    else None.
Proof.
  unfold read_file_contents. rewrite read_fold, lookup_empty.
  now destruct (if decide (fp ∈ paths) then _ else _).
Qed.
End ReaderFacts.

(** ** Committing and pushing *)

Section CommitFacts.
Import Py GitOps.
Context {W : Type}.
Variable subprocess_run : list string -> string -> W -> outcome completed * W.
Variable GITHUB_TOKEN : string.

(** Every command returns: none is missing, none times out. *)
Hypothesis returns :
  forall cmd cwd w, exists c w', subprocess_run cmd cwd w = (Returns c, w').

Lemma run_returns (cmd : list string) (cwd : string) (w : W)
      (ran : list (list string)) :
  exists c w',
    subprocess_run cmd cwd w = (Returns c, w')
    /\ run subprocess_run cmd cwd (w, ran)
       = (Returns c, (w', (ran ++ [cmd])%list)).
Proof.
  destruct (returns cmd cwd w) as (c & w' & H). exists c, w'.
  split; [exact H|]. unfold run. now rewrite H.
Qed.

Lemma setup_push_auth_returns (repo : string) (w : W)
      (ran : list (list string)) :
  exists w' mid,
    _setup_push_auth subprocess_run GITHUB_TOKEN repo (w, ran)
    = (Returns tt, (w', (ran ++ mid)%list))
    /\ Forall auth_command mid.
Proof.
  unfold _setup_push_auth. destruct (truthy GITHUB_TOKEN).
  - unfold bind at 1.
    destruct (run_returns ["git"; "remote"; "get-url"; "origin"] repo w ran)
      as (c & w1 & _ & ->).
    destruct (_ && _).
    + unfold bind.
      destruct (run_returns
                  ["git"; "remote"; "set-url"; "origin";
                   replace_str "https://"
                     ("https://" +:+ GITHUB_TOKEN +:+ "@")
                     (strip (stdout c))] repo w1
                  (ran ++ [["git"; "remote"; "get-url"; "origin"]]))
        as (c2 & w2 & _ & ->).
      exists w2. eexists. rewrite <- app_assoc. split; [reflexivity|].
      constructor; [left; eexists; reflexivity|].
      constructor; [left; eexists; reflexivity | constructor].
    + exists w1. eexists. split; [reflexivity|].
      constructor; [left; eexists; reflexivity | constructor].
  - unfold try_gh, bind.
    destruct (run_returns ["gh"; "auth"; "setup-git"] repo w ran)
      as (c & w1 & _ & ->).
    exists w1. eexists. split; [reflexivity|].
    constructor; [now right | constructor].
Qed.

(** X26. When every command returns, [commit_and_push] runs [git add]
    on the world it is given and [git commit] on the world that leaves,
    and then does one of three things, by the exit status of that [git
    commit]. Not zero, and "nothing to commit" in neither stream: it
    raises [RuntimeError] with the error stream of the commit, and has
    run these two commands only. Not zero, with "nothing to commit": it
    returns an empty hash and [push_success] true, and has run these two
    commands only, so nothing was pushed. Zero: it runs [git rev-parse
    HEAD] on the world after the commit, then [_setup_push_auth], then
    [git push --force -u origin] with the branch on the world the
    authentication leaves; the hash it returns is the first 8 characters
    of what that [git rev-parse] printed, stripped, and [push_success]
    says whether that push exited with 0. The world it leaves is the one
    after its last command. A failed push is never an exception, and no
    exit status but that of the commit is looked at. *)
Theorem commit_and_push_cases (repo msg branch : string) (w : W) :
  exists (c_add c_commit : completed) (w1 w2 : W),
    subprocess_run ["git"; "add"; "-A"] repo w = (Returns c_add, w1)
    /\ subprocess_run ["git"; "commit"; "-m"; msg] repo w1
       = (Returns c_commit, w2)
    /\ (returncode c_commit <> 0 /\ nothing_to_commit c_commit = false
        /\ commit_and_push subprocess_run GITHUB_TOKEN repo msg branch
                           (w, [])
           = (Raises RuntimeError ("Failed to commit: " +:+ stderr c_commit),
              (w2, [["git"; "add"; "-A"]; ["git"; "commit"; "-m"; msg]]))
        \/ returncode c_commit <> 0 /\ nothing_to_commit c_commit = true
           /\ commit_and_push subprocess_run GITHUB_TOKEN repo msg branch
                              (w, [])
              = (Returns (Pipeline.CommitResult (Some "") (Some branch)
                                                (Some true)),
                 (w2, [["git"; "add"; "-A"]; ["git"; "commit"; "-m"; msg]]))
        \/ returncode c_commit = 0
           /\ exists (c_hash c_push : completed) (w3 w4 w5 : W)
                     (mid : list (list string)),
               subprocess_run ["git"; "rev-parse"; "HEAD"] repo w2
               = (Returns c_hash, w3)
               /\ _setup_push_auth subprocess_run GITHUB_TOKEN repo
                    (w3, [["git"; "add"; "-A"];
                          ["git"; "commit"; "-m"; msg];
                          ["git"; "rev-parse"; "HEAD"]])
                  = (Returns tt,
                     (w4, ([["git"; "add"; "-A"];
                            ["git"; "commit"; "-m"; msg];
                            ["git"; "rev-parse"; "HEAD"]] ++ mid)%list))
               /\ Forall auth_command mid
               /\ subprocess_run
                    ["git"; "push"; "--force"; "-u"; "origin"; branch]
                    repo w4
                  = (Returns c_push, w5)
               /\ commit_and_push subprocess_run GITHUB_TOKEN repo msg
                                  branch (w, [])
                  = (Returns
                       (Pipeline.CommitResult
                          (Some (take 8 (strip (stdout c_hash))))
                          (Some branch)
                          (Some (returncode c_push =? 0))),
                     (w5,
                      ([["git"; "add"; "-A"]; ["git"; "commit"; "-m"; msg];
                        ["git"; "rev-parse"; "HEAD"]] ++ mid
                       ++ [["git"; "push"; "--force"; "-u"; "origin";
                            branch]])%list))).
Proof.
  remember (commit_and_push subprocess_run GITHUB_TOKEN repo msg branch
                            (w, [])) as out eqn:Hout.
  unfold commit_and_push in Hout. unfold bind at 1 in Hout.
  destruct (run_returns ["git"; "add"; "-A"] repo w [])
    as (c0 & w1 & Ha & E0). rewrite E0 in Hout. clear E0.
  unfold bind at 1 in Hout.
  destruct (run_returns ["git"; "commit"; "-m"; msg] repo w1
              ([] ++ [["git"; "add"; "-A"]]))
    as (c & w2 & Hc & E1). rewrite E1 in Hout. clear E1.
  exists c0, c, w1, w2. split; [exact Ha|]. split; [exact Hc|].
  destruct (Z.eqb_spec (returncode c) 0) as [Hz|Hnz]; cbn [negb] in Hout.
  - unfold bind at 1 in Hout.
    destruct (run_returns ["git"; "rev-parse"; "HEAD"] repo w2
                (([] ++ [["git"; "add"; "-A"]])
                 ++ [["git"; "commit"; "-m"; msg]]))
      as (ch & w3 & Hh & E2). rewrite E2 in Hout. clear E2.
    unfold bind at 1 in Hout.
    destruct (setup_push_auth_returns repo w3
                ((([] ++ [["git"; "add"; "-A"]])
                  ++ [["git"; "commit"; "-m"; msg]])
                 ++ [["git"; "rev-parse"; "HEAD"]]))
      as (w4 & mid & E3 & Hmid). rewrite E3 in Hout.
    unfold bind at 1 in Hout.
    destruct (run_returns
                ["git"; "push"; "--force"; "-u"; "origin"; branch] repo w4
                (((([] ++ [["git"; "add"; "-A"]])
                   ++ [["git"; "commit"; "-m"; msg]])
                  ++ [["git"; "rev-parse"; "HEAD"]]) ++ mid))
      as (cp & w5 & Hp & E4). rewrite E4 in Hout. clear E4.
    right. right. split; [exact Hz|].
    exists ch, cp, w3, w4, w5, mid.
    split; [exact Hh|]. split; [exact E3|]. split; [exact Hmid|].
    split; [exact Hp|]. exact Hout.
  - destruct (nothing_to_commit c) eqn:Hn.
    + right. left. now repeat split.
    + left. now repeat split.
Qed.
End CommitFacts.

Section CommitShape.
Import Py GitOps.

(** X27. Whatever the commands do, also when they raise: a dict that
    [commit_and_push] returns names the branch it was given, holds a
    hash of at most 8 characters and says whether the push succeeded;
    and [git add] and [git commit] were run before anything else. *)
Theorem commit_and_push_result
        {W : Type}
        (subprocess_run : list string -> string -> W -> outcome completed * W)
        (token repo msg branch : string) (w : W)
        (cr : Pipeline.commit_result) (w' : W) (ran : list (list string)) :
  commit_and_push subprocess_run token repo msg branch (w, [])
  = (Returns cr, (w', ran)) ->
  Pipeline.branch cr = Some branch
  /\ (exists h, Pipeline.commit_hash cr = Some h
                /\ (String.length h <= 8)%nat)
  /\ is_Some (Pipeline.push_success cr)
  /\ exists rest,
      ran = (["git"; "add"; "-A"] :: ["git"; "commit"; "-m"; msg] :: rest).
Proof.
  unfold commit_and_push, bind, run.
  destruct (subprocess_run ["git"; "add"; "-A"] repo w) as [[c0|k t] w1];
    [|discriminate].
  destruct (subprocess_run ["git"; "commit"; "-m"; msg] repo w1)
    as [[c|k t] w2]; [|discriminate].
  destruct (negb (returncode c =? 0)).
  - destruct (nothing_to_commit c); [|discriminate].
    intros [= <- <- <-]. cbn. repeat split; eauto.
    exists "". split; [reflexivity | cbn; lia].
  - destruct (subprocess_run ["git"; "rev-parse"; "HEAD"] repo w2)
      as [[ch|k t] w3]; [|discriminate].
    destruct (_setup_push_auth subprocess_run token repo _)
      as [[[]|k t] [w4 ran4]] eqn:Hauth; [|discriminate].
    destruct (subprocess_run _ repo w4) as [[cp|k t] w5]; [|discriminate].
    intros [= <- <- <-].
    split; [reflexivity|].
    split; [exists (take 8 (strip (stdout ch)));
            split; [reflexivity | apply take_length]|].
    split; [cbn; eauto|].
    { assert (Hpre : exists mid,
                 ran4 = (((([] ++ [["git"; "add"; "-A"]])
                           ++ [["git"; "commit"; "-m"; msg]])
                          ++ [["git"; "rev-parse"; "HEAD"]]) ++ mid)%list).
      { revert Hauth. unfold _setup_push_auth, try_gh, bind, run.
        destruct (truthy token).
        - destruct (subprocess_run _ repo w3) as [[c1|k t] w6];
            [|discriminate].
          destruct (_ && _).
          + destruct (subprocess_run _ repo w6) as [[c2|k t] w7];
              [|discriminate].
            intros [= _ <-]. rewrite <- app_assoc. eauto.
          + intros [= _ <-]. eauto.
        - destruct (subprocess_run _ repo w3) as [[c1|[] t] w6];
            intros [= _ <-]; eauto. }
      destruct Hpre as [mid ->]. cbn. eauto. }
Qed.
End CommitShape.

Section CommitInstances.
Import Py GitOps GitCases.

Lemma commit_and_push_cases_witness :
  commit_and_push push_rejected "" "repo" "[AI-AGENT] Fix x"
                  "TEAM_LEAD_AI_Fix" (0%nat, [])
  = (Returns (Pipeline.CommitResult (Some "0a1b2c3d")
                                    (Some "TEAM_LEAD_AI_Fix") (Some false)),
     (5%nat,
      [["git"; "add"; "-A"]; ["git"; "commit"; "-m"; "[AI-AGENT] Fix x"];
       ["git"; "rev-parse"; "HEAD"]; ["gh"; "auth"; "setup-git"];
       ["git"; "push"; "--force"; "-u"; "origin"; "TEAM_LEAD_AI_Fix"]])).
Proof.
  assert (Hret : forall cmd cwd w,
             exists c w', push_rejected cmd cwd w = (Returns c, w')).
  { intros cmd cwd w. unfold push_rejected.
    destruct (String.eqb _ _); [|destruct (String.eqb _ _)];
      eexists _, _; reflexivity. }
  destruct (commit_and_push_cases push_rejected "" Hret
              "repo" "[AI-AGENT] Fix x" "TEAM_LEAD_AI_Fix" 0%nat)
    as (c_add & c_commit & w1 & w2 & Ha & Hc & Hcases).
  vm_compute in Ha. injection Ha as <- <-.
  vm_compute in Hc. injection Hc as <- <-.
  destruct Hcases as [(Hnz & _) | [(Hnz & _) | (_ & Hpush)]];
    [now contradict Hnz | now contradict Hnz |].
  destruct Hpush as (c_hash & c_push & w3 & w4 & w5 & mid
                     & Hh & Hauth & _ & Hp & ->).
  vm_compute in Hh. injection Hh as <- <-.
  vm_compute in Hauth. injection Hauth as <- <-.
  vm_compute in Hp. injection Hp as <- <-.
  reflexivity.
Defined.

Lemma commit_and_push_result_witness :
  Pipeline.branch
    (Pipeline.CommitResult (Some "0a1b2c3d") (Some "TEAM_LEAD_AI_Fix")
                           (Some true))
  = Some "TEAM_LEAD_AI_Fix"
  /\ (exists h,
         Pipeline.commit_hash
           (Pipeline.CommitResult (Some "0a1b2c3d")
                                  (Some "TEAM_LEAD_AI_Fix") (Some true))
         = Some h
         /\ (String.length h <= 8)%nat)
  /\ is_Some (Pipeline.push_success
                (Pipeline.CommitResult (Some "0a1b2c3d")
                                       (Some "TEAM_LEAD_AI_Fix")
                                       (Some true)))
  /\ exists rest,
      [["git"; "add"; "-A"]; ["git"; "commit"; "-m"; "[AI-AGENT] Fix x"];
       ["git"; "rev-parse"; "HEAD"]; ["gh"; "auth"; "setup-git"];
       ["git"; "push"; "--force"; "-u"; "origin"; "TEAM_LEAD_AI_Fix"]]
      = (["git"; "add"; "-A"]
         :: ["git"; "commit"; "-m"; "[AI-AGENT] Fix x"] :: rest).
Proof.
  apply (commit_and_push_result all_succeed "" "repo" "[AI-AGENT] Fix x"
           "TEAM_LEAD_AI_Fix" tt _ tt).
  vm_compute. reflexivity.
Defined.
End CommitInstances.

(** ** The fix of an indentation error *)

Section IndentFacts.
Import Py Fixer DetFixer Indentation Inv ReSem.

Lemma py_index_nonneg {A : Type} (l : list A) (i : Z) :
  0 <= i -> py_index l i = l !! Z.to_nat i.
Proof.
  intros Hi. unfold py_index.
  destruct (Z.ltb_spec i 0); [lia | reflexivity].
Qed.

Lemma determine_correct_indent_some (lines : list string) (idx : Z) :
  idx <= Z.of_nat (length lines) ->
  _determine_correct_indent lines idx
  = Some (Spec.inferred_indent lines (Z.to_nat idx)).
Proof.
  intros Hidx. unfold _determine_correct_indent.
  rewrite range_down_pred. apply scan_back_inferred. lia.
Qed.

Lemma inferred_indent_spaces (lines : list string) (n : nat) :
  exists k, Spec.inferred_indent lines n = spaces k.
Proof.
  unfold Spec.inferred_indent.
  destruct (List.find _ _); [eauto | now exists O].
Qed.

Lemma inferred_indent_insert (lines : list string) (n : nat) (x : string) :
  Spec.inferred_indent (<[n := x]> lines) n = Spec.inferred_indent lines n.
Proof.
  unfold Spec.inferred_indent. now rewrite take_insert_ge by lia.
Qed.

Lemma spaces_plain (k : nat) : all_in plain (spaces k).
Proof. induction k; cbn; auto. Qed.

Lemma lstrip_spaces (k : nat) (s : string) :
  lstrip (spaces k +:+ s) = lstrip s.
Proof.
  induction k as [|k IH]; [now rewrite append_nil_l|].
  cbn [spaces]. rewrite append_cons. exact IH.
Qed.

Lemma lstrip_by_append (p : ascii -> bool) (b x : string) :
  lstrip_by p (b +:+ x)
  = match lstrip_by p b with
    | EmptyString => lstrip_by p x
    | String _ _ => lstrip_by p b +:+ x
    end.
Proof.
  induction b as [|c b IH]; [now rewrite append_nil_l|].
  rewrite append_cons. cbn [lstrip_by].
  destruct (p c); [exact IH | now rewrite append_cons].
Qed.

Lemma lstrip_by_idempotent (p : ascii -> bool) (b : string) :
  lstrip_by p (lstrip_by p b) = lstrip_by p b.
Proof.
  destruct (lstrip_by_head p b) as [-> | (c & s & -> & Hc)];
    [reflexivity|]. cbn [lstrip_by]. now rewrite Hc.
Qed.

(** A line of [readlines]: plain text, closed by a line feed or, for
    the last line, open. *)
Lemma well_formed_lookup (ls : list string) (i : nat) (l : string) :
  well_formed ls -> ls !! i = Some l ->
  exists b, all_in plain b /\ (l = b +:+ String LF "" \/ l = b).
Proof.
  intros Hls. revert i.
  induction Hls as [| b Hb Hne | b ls Hb Hls IH]; intros [|i] Hl;
    simplify_eq/=; eauto.
Qed.

Lemma rstrip_line (b : string) :
  all_in plain b ->
  rstrip_char CR (rstrip_char LF (b +:+ String LF "")) = b
  /\ rstrip_char CR (rstrip_char LF b) = b.
Proof.
  intros Hb. destruct (plain_lines b Hb) as [Hlf Hcr]. unfold rstrip_char.
  rewrite (rstrip_by_snoc _ b LF) by apply Ascii.eqb_refl.
  now rewrite (rstrip_by_none _ b Hlf), (rstrip_by_none _ b Hcr).
Qed.

(** What the body of the loop computes for a line that is not blank:
    the text of the line and the text the fix gives it. *)
Lemma line_parts (l b : string) :
  all_in plain b -> l = b +:+ String LF "" \/ l = b -> lstrip l <> "" ->
  lstrip b <> ""
  /\ rstrip_char CR (rstrip_char LF l) = b
  /\ rstrip_char CR (rstrip_char LF (lstrip l)) = lstrip b.
Proof.
  intros Hb Hl Hne.
  assert (Hb' : lstrip b <> "").
  { intros E. apply Hne. destruct Hl as [-> | ->]; [|exact E].
    unfold lstrip in *. now rewrite lstrip_by_append, E. }
  split; [exact Hb'|].
  assert (Hpl : all_in plain (lstrip b)) by now apply all_in_lstrip_by.
  destruct (rstrip_line b Hb) as [H1 H2].
  destruct (rstrip_line (lstrip b) Hpl) as [H3 H4].
  destruct Hl as [-> | ->]; (split; [assumption|]); [|exact H4].
  unfold lstrip in *. rewrite lstrip_by_append.
  destruct (lstrip_by isspace b); [congruence | exact H3].
Qed.

(** What the body of the loop returns on a line that is not blank. *)
Lemma indentation_fix_shape
      (fpath content : string) (line_no : Z) (l : string) :
  1 <= line_no ->
  readlines content !! Z.to_nat (line_no - 1) = Some l ->
  lstrip l <> "" ->
  exists k : nat,
    _determine_correct_indent (readlines content) (line_no - 1)
    = Some (spaces k)
    /\ indentation_fix fpath (readlines content) line_no
       = Ok (if String.eqb (rstrip_char CR (rstrip_char LF l))
                  (spaces k +:+ lstrip (rstrip_char CR (rstrip_char LF l)))
             then None
             else Some (Patch fpath line_no
                              (Some (rstrip_char CR (rstrip_char LF l)))
                              (Some (spaces k +:+
                                     lstrip (rstrip_char CR
                                               (rstrip_char LF l))))
                              "INDENTATION"
                              "Fix indentation to PEP8 standard (4-space)"
                              None None)).
Proof.
  intros Hlo Hl Hne.
  pose proof (lookup_lt_Some _ _ _ Hl) as Hlen.
  destruct (well_formed_lookup _ _ _ (readlines_well_formed content) Hl)
    as (b & Hb & Hcase).
  destruct (line_parts l b Hb Hcase Hne) as (_ & Hold & Hcont).
  destruct (inferred_indent_spaces (readlines content)
              (Z.to_nat (line_no - 1))) as [k Hk].
  assert (Hind : _determine_correct_indent (readlines content) (line_no - 1)
                 = Some (spaces k))
    by (rewrite determine_correct_indent_some by lia; now rewrite Hk).
  exists k. split; [exact Hind|].
  unfold indentation_fix.
  destruct (Z.gtb_spec line_no (Z.of_nat (length (readlines content))));
    [lia|].
  rewrite py_index_nonneg by lia. rewrite Hl, Hind. cbv zeta.
  rewrite Hold, Hcont. now destruct (String.eqb _ _).
Qed.

(** X28. On a line of the file that is not blank, the body of the loop of
    [_detect_indentation_errors] raises nothing, and the fix it may
    append only replaces the white space at the beginning of the line:
    the old text is the line without its line end, the new text is the
    indentation [_determine_correct_indent] infers, a run of spaces,
    followed by the line without its own indentation. No fix is appended
    when the line is so already. *)
Theorem indentation_fix_replaces_indent
        (fpath content : string) (line_no : Z) (l : string) :
  1 <= line_no ->
  readlines content !! Z.to_nat (line_no - 1) = Some l ->
  lstrip l <> "" ->
  exists (old : string) (k : nat),
    old = rstrip_char CR (rstrip_char LF l)
    /\ _determine_correct_indent (readlines content) (line_no - 1)
       = Some (spaces k)
    /\ indentation_fix fpath (readlines content) line_no
       = Ok (if String.eqb old (spaces k +:+ lstrip old) then None
             else Some (Patch fpath line_no (Some old)
                              (Some (spaces k +:+ lstrip old))
                              "INDENTATION"
                              "Fix indentation to PEP8 standard (4-space)"
                              None None)).
Proof.
  intros Hlo Hl Hne.
  destruct (indentation_fix_shape fpath content line_no l Hlo Hl Hne)
    as (k & Hind & Hshape).
  exists (rstrip_char CR (rstrip_char LF l)), k. now repeat split.
Qed.

(** X29. The fix of an indentation error and the patch engine together: a
    fix the body of the loop appends for a line of a file, not blank,
    applies to that file; the file then reads as before except that the
    line has the inferred indentation; and on the file so patched the
    body of the loop appends no fix for that line. *)
Theorem indentation_fix_applies_and_settles
        (repo fpath content : string) (fs : FS) (line_no : Z)
        (l : string) (fx : patch) :
  fs !! os_path_join repo fpath = Some (Text content) ->
  1 <= line_no ->
  readlines content !! Z.to_nat (line_no - 1) = Some l ->
  lstrip l <> "" ->
  indentation_fix fpath (readlines content) line_no = Ok (Some fx) ->
  exists (new content' : string),
    new_code fx = Some new
    /\ apply_fixes repo fs [fx]
       = (<[os_path_join repo fpath := Text content']> fs,
          [set_status "applied" "Fix applied successfully" fx])
    /\ readlines content'
       = <[Z.to_nat (line_no - 1) := new +:+ String LF ""]>
           (readlines content)
    /\ indentation_fix fpath (readlines content') line_no = Ok None.
Proof.
  intros Hf Hlo Hl Hne Hfix.
  pose proof (lookup_lt_Some _ _ _ Hl) as Hlen.
  destruct (well_formed_lookup _ _ _ (readlines_well_formed content) Hl)
    as (b & Hb & Hcase).
  destruct (line_parts l b Hb Hcase Hne) as (Hb' & Hold & _).
  destruct (indentation_fix_shape fpath content line_no l Hlo Hl Hne)
    as (k & Hind & Hshape).
  rewrite Hold in Hshape. rewrite Hshape in Hfix.
  destruct (String.eqb b (spaces k +:+ lstrip b)); [discriminate|].
  injection Hfix as <-. clear Hshape.
  set (new := spaces k +:+ lstrip b).
  assert (Hplain : all_in plain new).
  { apply all_in_append. split; [apply spaces_plain|].
    now apply all_in_lstrip_by. }
  assert (Hnew : exists c r, new = String c r).
  { unfold new. destruct (lstrip b) as [|c r]; [congruence|].
    destruct k; [rewrite append_nil_l | cbn [spaces]; rewrite append_cons];
      eauto. }
  set (lines' := <[Z.to_nat (line_no - 1) := new +:+ String LF ""]>
                   (readlines content)).
  assert (Hread : readlines (writelines lines') = lines')
    by (apply readlines_writelines, well_formed_insert;
        [apply readlines_well_formed | exact Hplain]).
  exists new, (writelines lines'). split; [reflexivity|]. split; [|split].
  - cbn [apply_fixes].
    destruct (apply_fix_in_range repo fs
                (Patch fpath line_no (Some b) (Some new) "INDENTATION"
                       "Fix indentation to PEP8 standard (4-space)"
                       None None) content (Z.to_nat (line_no - 1)))
      as (l0 & Hl0 & Hstep); [exact Hf | cbn; lia | exact Hlen |].
    assert (l0 = l) by congruence. subst l0.
    rewrite Hstep. cbv zeta.
    cbn [old_code new_code default from_option id file].
    unfold trimmed. rewrite Hold, String.eqb_refl. cbn [negb].
    rewrite andb_false_r.
    destruct Hnew as (c & r & Hnew). rewrite Hnew. rewrite <- Hnew.
    reflexivity.
  - exact Hread.
  - rewrite Hread. unfold indentation_fix, lines'.
    rewrite length_insert.
    destruct (Z.gtb_spec line_no (Z.of_nat (length (readlines content))));
      [lia|].
    rewrite py_index_nonneg by lia.
    rewrite list_lookup_insert_eq by exact Hlen.
    rewrite determine_correct_indent_some
      by (rewrite length_insert; lia).
    rewrite inferred_indent_insert.
    rewrite determine_correct_indent_some in Hind by lia.
    injection Hind as ->. cbv zeta.
    destruct (rstrip_line new Hplain) as [-> _].
    assert (Hcont : lstrip (new +:+ String LF "")
                    = lstrip b +:+ String LF "").
    { unfold new. rewrite append_assoc, lstrip_spaces.
      unfold lstrip in *. rewrite lstrip_by_append, lstrip_by_idempotent.
      destruct (lstrip_by isspace b); [congruence | reflexivity]. }
    rewrite Hcont.
    destruct (rstrip_line (lstrip b)) as [-> _];
      [now apply all_in_lstrip_by|].
    fold new. now rewrite String.eqb_refl.
Qed.
End IndentFacts.

Section IndentInstances.
Import Py Fixer DetFixer Indentation IndentCases.

Lemma indentation_fix_replaces_indent_witness :
  exists (old : string) (k : nat),
    old = rstrip_char CR (rstrip_char LF ("  return 1" +:+ Sample.nl))
    /\ _determine_correct_indent (readlines short_indent) (2 - 1)
       = Some (spaces k)
    /\ indentation_fix "a.py" (readlines short_indent) 2
       = Ok (if String.eqb old (spaces k +:+ lstrip old) then None
             else Some (Patch "a.py" 2 (Some old)
                              (Some (spaces k +:+ lstrip old))
                              "INDENTATION"
                              "Fix indentation to PEP8 standard (4-space)"
                              None None)).
Proof.
  apply (indentation_fix_replaces_indent "a.py" short_indent 2
           ("  return 1" +:+ Sample.nl)).
  - lia.
  - vm_compute. reflexivity.
  - vm_compute. discriminate.
Defined.

Lemma indentation_fix_applies_and_settles_witness :
  exists (new content' : string),
    new_code indent_fix = Some new
    /\ apply_fixes "repo" {[ "repo/a.py" := Text short_indent ]} [indent_fix]
       = (<[os_path_join "repo" "a.py" := Text content']>
            {[ "repo/a.py" := Text short_indent ]},
          [set_status "applied" "Fix applied successfully" indent_fix])
    /\ readlines content'
       = <[Z.to_nat (2 - 1) := new +:+ String LF ""]>
           (readlines short_indent)
    /\ indentation_fix "a.py" (readlines content') 2 = Ok None.
Proof.
  apply (indentation_fix_applies_and_settles "repo" "a.py" short_indent
           {[ "repo/a.py" := Text short_indent ]} 2
           ("  return 1" +:+ Sample.nl)).
  - vm_compute. reflexivity.
  - lia.
  - vm_compute. reflexivity.
  - vm_compute. discriminate.
  - vm_compute. reflexivity.
Defined.
End IndentInstances.
